(** * antd-mcp: the documentation fetcher and its tool server

    A shallow embedding of [src/fetcher.py] and [src/server.py].

    - Python [str] values are sequences of Unicode code points ([str] below);
      literals of the source are written as UTF-8 text and decoded by [u].
    - Operations that can raise in Python return a [result].
    - Python dictionaries are insertion-ordered association lists with unique
      keys ([dict]).
    - The libraries the program calls (requests and the disk cache behind
      [fetch_url], BeautifulSoup, the Unicode case tables behind [str.lower],
      the file system and the clock) are the fields of the class [Platform].
    - [fetch_url] itself is embedded over an [Environment], with the calls it
      makes recorded as a list of events. *)

From Stdlib Require Import List NArith ZArith Bool Arith Lia String Ascii.
Import ListNotations.

Set Implicit Arguments.
Set Warnings "-register-all".

(* ================================================================= *)
(** ** Python strings *)

Definition char := N.
Definition str := list char.

(** UTF-8 decoding of a literal: [need] continuation bytes are still expected
    and [acc] holds the bits read so far. *)
Fixpoint utf8_go (need : nat) (acc : N) (bs : list N) : str :=
  match bs with
  | [] => []
  | b :: rest =>
      if (b <? 128)%N then b :: utf8_go 0 0%N rest
      else if (b <? 192)%N then
        let acc' := (acc * 64 + (b - 128))%N in
        match need with
        | 0%nat => utf8_go 0 0%N rest
        | 1%nat => acc' :: utf8_go 0 0%N rest
        | S n => utf8_go n acc' rest
        end
      else if (b <? 224)%N then utf8_go 1 (b - 192)%N rest
      else if (b <? 240)%N then utf8_go 2 (b - 224)%N rest
      else utf8_go 3 (b - 240)%N rest
  end.

Definition u (s : string) : str :=
  utf8_go 0 0%N (map N_of_ascii (list_ascii_of_string s)).

Definition char_eqb (a b : char) : bool := N.eqb a b.

Fixpoint str_eqb (a b : str) : bool :=
  match a, b with
  | [], [] => true
  | x :: a', y :: b' => char_eqb x y && str_eqb a' b'
  | _, _ => false
  end.

(** [len(s)] *)
Definition len (s : str) : nat := List.length s.

(** [s.startswith(p)] *)
Fixpoint startswith (p s : str) : bool :=
  match p, s with
  | [], _ => true
  | _ :: _, [] => false
  | x :: p', y :: s' => char_eqb x y && startswith p' s'
  end.

(** [k in s] for strings: some suffix of [s] starts with [k]. *)
Fixpoint contains (k s : str) : bool :=
  startswith k s ||
  match s with
  | [] => false
  | _ :: s' => contains k s'
  end.

(** [any(k in s for k in ks)] *)
Definition any_in (ks : list str) (s : str) : bool :=
  existsb (fun k => contains k s) ks.

(** [sep.join(parts)] *)
Fixpoint join (sep : str) (parts : list str) : str :=
  match parts with
  | [] => []
  | [p] => p
  | p :: rest => p ++ sep ++ join sep rest
  end.

(** The code points for which [str.isspace] holds; [strip] and [split] without
    arguments use this set. *)
Definition is_space (c : char) : bool :=
  ((9 <=? c) && (c <=? 13) || (28 <=? c) && (c <=? 32)
   || (c =? 133) || (c =? 160) || (c =? 5760)
   || (8192 <=? c) && (c <=? 8202)
   || (c =? 8232) || (c =? 8233) || (c =? 8239) || (c =? 8287)
   || (c =? 12288))%N.

(** The regular-expression class [[A-Za-z0-9]]. *)
Definition is_alnum (c : char) : bool :=
  ((48 <=? c) && (c <=? 57) || (65 <=? c) && (c <=? 90)
   || (97 <=? c) && (c <=? 122))%N.

Fixpoint takewhile (p : char -> bool) (s : str) : str :=
  match s with
  | [] => []
  | c :: t => if p c then c :: takewhile p t else []
  end.

Fixpoint dropwhile (p : char -> bool) (s : str) : str :=
  match s with
  | [] => []
  | c :: t => if p c then dropwhile p t else s
  end.

Definition lstrip (s : str) : str := dropwhile is_space s.
Definition rstrip (s : str) : str := rev (dropwhile is_space (rev s)).

(** [s.strip()] *)
Definition strip (s : str) : str := rstrip (lstrip s).

(** [s.split()]: the maximal runs of non-whitespace characters, in order. *)
Fixpoint split_ws (s : str) : list str :=
  match s with
  | [] => []
  | c :: t =>
      if is_space c then split_ws t
      else
        match t with
        | [] => [[c]]
        | d :: _ =>
            if is_space d then [c] :: split_ws t
            else
              match split_ws t with
              | w :: ws => (c :: w) :: ws
              | [] => [[c]]
              end
        end
  end.

(** [s.split(sep)] for a one-character separator: never empty. *)
Fixpoint split_char (sep : char) (s : str) : list str :=
  match s with
  | [] => [[]]
  | c :: t =>
      if char_eqb c sep then [] :: split_char sep t
      else
        match split_char sep t with
        | w :: ws => (c :: w) :: ws
        | [] => [[c]]
        end
  end.

(** [re.match(r'([A-Za-z0-9]+)', s)]: the leading run of ASCII letters and
    digits when there is one. *)
Definition re_match_alnum (s : str) : option str :=
  match takewhile is_alnum s with
  | [] => None
  | m => Some m
  end.

(** ASCII lower-casing; [str.lower] agrees with it on ASCII text. *)
Definition ascii_lower_char (c : char) : char :=
  if ((65 <=? c) && (c <=? 90))%N then (c + 32)%N else c.
Definition ascii_lower (s : str) : str := map ascii_lower_char s.

(** The surrogate code points U+D800..U+DFFF. A Python [str] may hold them,
    but no codec encodes them: [s.encode('utf-8')] raises
    [UnicodeEncodeError] exactly when [encodable s] is [false]. *)
Definition is_surrogate (c : char) : bool :=
  ((55296 <=? c) && (c <=? 57343))%N.

Definition encodable (s : str) : bool :=
  forallb (fun c => negb (is_surrogate c)) s.

Fixpoint uint_digits (d : Decimal.uint) : str :=
  match d with
  | Decimal.Nil => []
  | Decimal.D0 d => 48%N :: uint_digits d
  | Decimal.D1 d => 49%N :: uint_digits d
  | Decimal.D2 d => 50%N :: uint_digits d
  | Decimal.D3 d => 51%N :: uint_digits d
  | Decimal.D4 d => 52%N :: uint_digits d
  | Decimal.D5 d => 53%N :: uint_digits d
  | Decimal.D6 d => 54%N :: uint_digits d
  | Decimal.D7 d => 55%N :: uint_digits d
  | Decimal.D8 d => 56%N :: uint_digits d
  | Decimal.D9 d => 57%N :: uint_digits d
  end.

(** [str(n)] *)
Definition decimal (n : nat) : str := uint_digits (Nat.to_uint n).

Definition hex_digit (n : N) : char :=
  (if n <? 10 then 48 + n else 87 + n)%N.

(** The four hexadecimal digits of a code point below U+10000. *)
Definition hex4 (c : char) : str :=
  [hex_digit (c / 4096); hex_digit ((c / 256) mod 16);
   hex_digit ((c / 16) mod 16); hex_digit (c mod 16)]%N.

(* ================================================================= *)
(** ** Exceptions and results *)

Inductive exn_kind :=
  | FetchError | IndexError | KeyError | AttributeError | TypeError
  | UnicodeEncodeError | OtherError.

(** An exception with the text [str(e)] gives. *)
Record exn := Exn { exn_type : exn_kind; exn_msg : str }.

Inductive result (A : Type) :=
  | Ok (a : A)
  | Raise (e : exn).
Arguments Ok {A} a.
Arguments Raise {A} e.

Definition rbind {A B} (r : result A) (f : A -> result B) : result B :=
  match r with
  | Ok a => f a
  | Raise e => Raise e
  end.

Declare Scope res_scope.
Delimit Scope res_scope with res.
Notation "x <- c ;; k" := (rbind c (fun x => k))
  (at level 61, c at next level, right associativity) : res_scope.

(** The exception [s.encode('utf-8')] raises for a text with a surrogate: its
    message names the first run of surrogates. *)
Definition surrogate_error (s : str) : exn :=
  let start := List.length (takewhile (fun c => negb (is_surrogate c)) s) in
  let run :=
    takewhile is_surrogate (dropwhile (fun c => negb (is_surrogate c)) s) in
  Exn UnicodeEncodeError
    (match run with
     | [c] =>
         u "'utf-8' codec can't encode character '\u" ++ hex4 c
           ++ u "' in position " ++ decimal start
     | _ =>
         u "'utf-8' codec can't encode characters in position "
           ++ decimal start ++ u "-"
           ++ decimal (start + List.length run - 1)
     end ++ u ": surrogates not allowed").

(** [l[i]] *)
Definition index {A} (l : list A) (i : nat) : result A :=
  match nth_error l i with
  | Some a => Ok a
  | None => Raise (Exn IndexError (u "list index out of range"))
  end.

Fixpoint mapM {A B} (f : A -> result B) (l : list A) : result (list B) :=
  match l with
  | [] => Ok []
  | a :: t =>
      (b <- f a ;; bs <- mapM f t ;; Ok (b :: bs))%res
  end.

(* ================================================================= *)
(** ** Python dictionaries *)

Section Dict.
Variables (K V : Type) (eqb : K -> K -> bool).

Definition dict := list (K * V).

(** [d.get(k)] *)
Fixpoint dict_get (k : K) (d : dict) : option V :=
  match d with
  | [] => None
  | (k', v) :: d' => if eqb k k' then Some v else dict_get k d'
  end.

(** [k in d] *)
Definition dict_has (k : K) (d : dict) : bool :=
  match dict_get k d with Some _ => true | None => false end.

(** [d[k] = v]: an existing key keeps its position, a new key goes last. *)
Fixpoint dict_set (k : K) (v : V) (d : dict) : dict :=
  match d with
  | [] => [(k, v)]
  | (k', v') :: d' =>
      if eqb k k' then (k', v) :: d' else (k', v') :: dict_set k v d'
  end.

(** [d[k]] *)
Definition dict_item (key_repr : K -> str) (k : K) (d : dict) : result V :=
  match dict_get k d with
  | Some v => Ok v
  | None => Raise (Exn KeyError (key_repr k))
  end.

Definition dict_keys (d : dict) : list K := map fst d.
Definition dict_values (d : dict) : list V := map snd d.
End Dict.

Definition sdict (V : Type) := dict str V.
Definition sget {V} (k : str) (d : sdict V) : option V := dict_get str_eqb k d.
Definition shas {V} (k : str) (d : sdict V) : bool := dict_has str_eqb k d.
Definition sset {V} (k : str) (v : V) (d : sdict V) : sdict V :=
  dict_set str_eqb k v d.

(* ================================================================= *)
(** ** Values exchanged with the caller (decoded JSON) *)

Inductive value :=
  | VNone
  | VBool (b : bool)
  | VNum (z : Z)
  | VStr (s : str)
  | VList (l : list value)
  | VDict (d : list (str * value)).

(** Python truthiness ([if v], [not v], [v or w]). *)
Definition truthy (v : value) : bool :=
  match v with
  | VNone => false
  | VBool b => b
  | VNum z => negb (Z.eqb z 0)
  | VStr s => match s with [] => false | _ => true end
  | VList l => match l with [] => false | _ => true end
  | VDict d => match d with [] => false | _ => true end
  end.

Definition str_truthy (s : str) : bool :=
  match s with [] => false | _ => true end.

(** [v == 'literal'] *)
Definition value_is_str (v : value) (s : str) : bool :=
  match v with
  | VStr t => str_eqb t s
  | _ => false
  end.

(** Lists and dictionaries cannot be dictionary keys. *)
Definition hashable (v : value) : bool :=
  match v with
  | VList _ | VDict _ => false
  | _ => true
  end.

(** [type(v).__name__] *)
Definition type_name (v : value) : str :=
  match v with
  | VNone => u "NoneType"
  | VBool _ => u "bool"
  | VNum _ => u "int"
  | VStr _ => u "str"
  | VList _ => u "list"
  | VDict _ => u "dict"
  end.

(** The [AttributeError] for a method the value does not have. *)
Definition no_attribute (v : value) (attr : str) : exn :=
  Exn AttributeError
    (u "'" ++ type_name v ++ u "' object has no attribute '" ++ attr ++ u "'").

(** [d.get(k, default)] on a decoded object. *)
Definition vget (k : str) (default : value) (d : sdict value) : value :=
  match sget k d with
  | Some v => v
  | None => default
  end.

(* ================================================================= *)
(** ** fetcher.py: data *)

Definition BASE_URL : str := u "https://4x.ant.design".
Definition OVERVIEW_PATH : str := u "/components/overview-cn/".

(** What the program reads from a parsed document: the result of each CSS
    selection it makes, with the text BeautifulSoup's [get_text] returns. *)

(** One element of [soup.select('.components-overview-card')]. *)
Record Card := {
  (** [card.select_one('.components-overview-title')] and its
      [get_text(strip=True)] *)
  card_title : option str;
  (** [card.find_parent('a')]: the anchor and its [href] attribute if any *)
  card_parent_a : option (option str);
  (** [card.select_one('a[href]')] *)
  card_inner_a : option str
}.

(** One element of [soup.select('ul.ant-menu li a[href*="/components/"]')]. *)
Record MenuLink := {
  (** [span.get_text(strip=True)] for each span of the anchor *)
  link_spans : list str;
  (** [li.get_text(strip=True)] *)
  link_text : str;
  (** [li.get('href')] *)
  link_href : option str
}.

(** One element of [soup.select('table')]. *)
Record Table := {
  (** [th.get_text(strip=True)] over ['thead tr th'] *)
  thead_th : list str;
  (** for each ['tbody tr'], [td.get_text('\n', strip=True)] over its ['td'] *)
  tbody_tr : list (list str)
}.

Record Soup := {
  overview_cards : list Card;
  menu_links : list MenuLink;
  (** [soup.select_one('h1')] with [get_text(strip=True)] *)
  first_h1 : option str;
  (** [p.get_text(strip=True)] over [soup.select('p')] *)
  paragraphs : list str;
  tables : list Table;
  (** [code.get_text('\n', strip=False)] over [soup.select('pre code')] *)
  pre_codes : list str
}.

(** A component summary: the dictionary with keys [name], [display_name],
    [url] and [description] built by [parse_overview]. *)
Record Summary := {
  name : str;
  display_name : str;
  url : option str;
  description : str
}.

(** A cell of a row dictionary: a text under a header label, or the list
    stored under ['cells']. *)
Inductive cellval :=
  | CStr (s : str)
  | CCells (l : list str).

Definition Row := sdict cellval.

(** A value of a normalized row. *)
Inductive nval :=
  | NRow (r : Row)
  | NStr (s : str)
  | NBool (b : bool)
  | NList (l : list str).

Definition NormRow := sdict nval.

Inductive Kind := Props | Events | Methods | Other.

(** [{'header': header, 'rows': rows_struct}] *)
Record TableObj := {
  header : list str;
  rows : list Row
}.

Record TableSummary := {
  n_props : nat;
  n_events : nat;
  n_methods : nat;
  n_other : nat
}.

(** The dictionary [parse_component] builds; [title] is set only when the page
    has a heading, [source_url] is added by [get_component_detail] and
    [detail_name] (key ['name']) by [export_all_components]. It never has a
    key ['error']. *)
Record ComponentDetail := {
  title : option str;
  intro : list str;
  props : list TableObj;
  events : list TableObj;
  methods : list TableObj;
  other_tables : list TableObj;
  table_summary : TableSummary;
  examples : list str;
  props_flat : list NormRow;
  source_url : option str;
  detail_name : option str
}.

(** An element of [all_details]: a detail, or [{'name': .., 'error': ..}]. *)
Inductive export_entry :=
  | EDetail (d : ComponentDetail)
  | EError (entry_name : str) (error : str).

(** ['error' in d] *)
Definition has_error (d : export_entry) : bool :=
  match d with
  | EDetail _ => false
  | EError _ _ => true
  end.

(** The object [json.dump] writes. *)
Record ExportRecord (Time : Type) := {
  generated_at : Time;
  rec_count : nat;
  components : list export_entry
}.

(** The dictionary [export_all_components] returns. *)
Record ExportReturn := {
  filepath : value;
  count : nat;
  errors : nat
}.

(* ================================================================= *)
(** ** The platform *)

Class Platform := {
  World : Type;
  Time : Type;
  (** [fetch_url(url, force=force)]: the cached HTTP fetch; it may raise and
      it changes the cache. *)
  fetch_url : str -> bool -> World -> result str * World;
  (** The text [fetch_url] returns was decoded from the UTF-8 cache file, or
      was encoded and written to it just before the return: it has no
      surrogate. *)
  fetch_url_encodable :
    forall target force w html w1,
      fetch_url target force w = (Ok html, w1) -> encodable html = true;
  (** The document [BeautifulSoup(html, 'lxml')] builds from a text it can
      encode. *)
  BeautifulSoup : str -> Soup;
  (** [str.lower] *)
  lower : str -> str;
  (** [str(v)] for numbers, lists and dictionaries *)
  py_repr : value -> str;
  (** [time.time()] *)
  time_time : World -> Time;
  (** [open(path, 'w')] followed by [json.dump] *)
  write_json : value -> ExportRecord Time -> World -> result unit * World;
  (** [str(EXPORT_DIR / 'antd_components_all.json')] *)
  default_export_path : str
}.

(* ================================================================= *)
(** ** fetcher.py: parse_overview *)

(** [normalize_name], local to [parse_overview]. *)
Definition normalize_name (raw : str) : result str :=
  let raw := strip raw in
  match re_match_alnum raw with
  | Some m => Ok m
  | None => if str_truthy raw then index (split_ws raw) 0 else Ok raw
  end.

(** [BASE_URL + href if href and href.startswith('/') else href] *)
Definition resolve_url (href : option str) : option str :=
  match href with
  | Some h =>
      if str_truthy h && startswith (u "/") h then Some (BASE_URL ++ h)
      else Some h
  | None => None
  end.

(** The body of the loop over the overview cards; [None] is [continue]. *)
Definition card_summary (card : Card) : result (option Summary) :=
  match card_title card with
  | None => Ok None
  | Some full_title =>
      (nm <- normalize_name full_title ;;
       let link_el :=
         match card_parent_a card with
         | Some a => Some a
         | None =>
             match card_inner_a card with
             | Some h => Some (Some h)
             | None => None
             end
         end in
       let href :=
         match link_el with
         | Some (Some h) => Some h
         | _ => None
         end in
       Ok (Some {| name := nm; display_name := full_title;
                   url := resolve_url href; description := [] |}))%res
  end.

(** The body of the loop over the menu anchors. *)
Definition menu_summary (li : MenuLink) : result Summary :=
  let spans_text :=
    match List.concat (link_spans li) with
    | [] => link_text li
    | joined => joined
    end in
  (eng_name <- normalize_name spans_text ;;
   Ok {| name := eng_name; display_name := spans_text;
         url := resolve_url (link_href li); description := [] |})%res.

(** [is_valid], local to [parse_overview]. *)
Definition is_valid (c : Summary) : bool :=
  match url c with
  | None => false
  | Some u_ =>
      if negb (str_truthy u_) || negb (contains (u "/components/") u_)
      then false
      else if negb (startswith (u "http://") u_
                    || startswith (u "https://") u_)
      then false
      else true
  end.

Fixpoint somes {A} (l : list (option A)) : list A :=
  match l with
  | [] => []
  | Some a :: t => a :: somes t
  | None :: t => somes t
  end.

(* ================================================================= *)
(** ** fetcher.py: parse_component *)

Definition event_keywords : list str :=
  [u "事件"; u "回调"; u "listener"; u "on"].
Definition method_keywords : list str :=
  [u "方法"; u "method"; u "函数"].
Definition prop_keywords : list str :=
  [u "参数"; u "属性"; u "属性名"; u "名称"; u "配置项"; u "参数名"; u "字段";
   u "Prop"; u "Property"; u "选项"; u "可配置项"].
Definition api_keywords_a : list str :=
  [u "类型"; u "默认"; u "必填"; u "必选"; u "可选值"].
Definition api_keywords_b : list str :=
  [u "类型"; u "默认"; u "参数"].

(** [classify], local to [parse_component]. *)
Definition classify (header : list str) : Kind :=
  let h_join := join (u " ") header in
  if any_in event_keywords h_join then Events
  else if any_in method_keywords h_join then Methods
  else if any_in prop_keywords h_join then Props
  else if any_in api_keywords_a h_join && contains (u "API") h_join
  then Props
  else if contains (u "API") h_join && any_in api_keywords_b h_join
  then Props
  else Other.

(** The row dictionary of one table row with cell texts [cells]:
    [{header[i]: cells[i] for i in range(len(header))}] when the lengths
    agree, [{'cells': cells}] otherwise. *)
Definition extract_row (header cells : list str) : result Row :=
  if match header with [] => false | _ => true end
     && Nat.eqb (List.length header) (List.length cells)
  then
    (pairs <- mapM (fun i => h <- index header i ;;
                             c <- index cells i ;;
                             Ok (h, c))
                   (seq 0 (List.length header)) ;;
     Ok (fold_left (fun d hc => sset (fst hc) (CStr (snd hc)) d) pairs []))%res
  else Ok [(u "cells", CCells cells)].

(** The loop over ['tbody tr']: rows without cells are skipped. *)
Fixpoint extract_rows (header : list str) (trs : list (list str))
  : result (list Row) :=
  match trs with
  | [] => Ok []
  | cells :: rest =>
      match cells with
      | [] => extract_rows header rest
      | _ =>
          (row_dict <- extract_row header cells ;;
           more <- extract_rows header rest ;;
           Ok (row_dict :: more))%res
      end
  end.

Definition header_synonyms : sdict str :=
  [(u "参数", u "name"); (u "属性", u "name"); (u "属性名", u "name");
   (u "名称", u "name"); (u "配置项", u "name"); (u "参数名", u "name");
   (u "字段", u "name"); (u "Prop", u "name"); (u "Property", u "name");
   (u "可配置项", u "name");
   (u "说明", u "description"); (u "描述", u "description");
   (u "备注", u "description"); (u "含义", u "description");
   (u "类型", u "type"); (u "Type", u "type"); (u "数据类型", u "type");
   (u "默认值", u "default"); (u "默认", u "default"); (u "缺省值", u "default");
   (u "版本", u "version"); (u "Since", u "version");
   (u "可选值", u "options"); (u "选项", u "options"); (u "可选", u "options");
   (u "枚举", u "options");
   (u "是否必填", u "required"); (u "必填", u "required");
   (u "必选", u "required"); (u "是否必选", u "required")].

(** [header_synonyms.get(h, h)] *)
Definition synonym (h : str) : str :=
  match sget h header_synonyms with
  | Some k => k
  | None => h
  end.

Definition affirmative_tokens : list str :=
  [u "是"; u "必填"; u "必选"; u "true"; u "必须"].
Definition negative_tokens : list str :=
  [u "否"; u "可选"; u "false"; u "选填"].

(** [len(cells)] and [cells[i]] for the object stored under ['cells']. *)
Definition cell_len (v : cellval) : nat :=
  match v with
  | CStr s => len s
  | CCells l => List.length l
  end.

Definition cell_at (v : cellval) (i : nat) : result nval :=
  match v with
  | CStr s => (c <- index s i ;; Ok (NStr [c]))%res
  | CCells l => (c <- index l i ;; Ok (NStr c))%res
  end.

Definition nval_of_cell (v : cellval) : nval :=
  match v with
  | CStr s => NStr s
  | CCells l => NList l
  end.

Definition nval_truthy (v : nval) : bool :=
  match v with
  | NRow r => match r with [] => false | _ => true end
  | NStr s => str_truthy s
  | NBool b => b
  | NList l => match l with [] => false | _ => true end
  end.

(** [for i, h in enumerate(header)] of the ['cells'] branch, from index [i]. *)
Fixpoint map_cells (row : Row) (i : nat) (header : list str)
  (normalized : NormRow) : result NormRow :=
  match header with
  | [] => Ok normalized
  | h :: rest =>
      let key := synonym h in
      (cells <- dict_item str_eqb (fun k => k) (u "cells") row ;;
       normalized' <-
         (if Nat.ltb i (cell_len cells)
          then (v <- cell_at cells i ;; Ok (sset key v normalized))
          else Ok normalized) ;;
       map_cells row (S i) rest normalized')%res
  end.

(** [for k, v in row.items()] of the other branch. *)
Definition map_items (row : Row) (normalized : NormRow) : NormRow :=
  fold_left (fun n kv => sset (synonym (fst kv)) (nval_of_cell (snd kv)) n)
            row normalized.

(** The first statements of [normalize_row], up to the name clean-up. *)
Definition map_fields (row : Row) (header : list str) : result NormRow :=
  let normalized : NormRow := [(u "raw", NRow row)] in
  if shas (u "cells") row then map_cells row 0 header normalized
  else Ok (map_items row normalized).

(** [if name: normalized['name'] = name.split('\n')[0].strip()] *)
Definition cleanup_name (normalized : NormRow) : result NormRow :=
  match sget (u "name") normalized with
  | None => Ok normalized
  | Some nm =>
      if nval_truthy nm then
        match nm with
        | NStr s =>
            (first <- index (split_char 10%N s) 0 ;;
             Ok (sset (u "name") (NStr (strip first)) normalized))%res
        | _ => Raise (Exn AttributeError (u "object has no attribute 'split'"))
        end
      else Ok normalized
  end.

(** The [required] flag. *)
Definition normalize_required (normalized : NormRow) : NormRow :=
  match sget (u "required") normalized with
  | Some (NStr req_val) =>
      if any_in affirmative_tokens req_val
      then sset (u "required") (NBool true) normalized
      else if any_in negative_tokens req_val
      then sset (u "required") (NBool false) normalized
      else normalized
  | _ => normalized
  end.

(** [normalize_row], local to [parse_component]. *)
Definition normalize_row (row : Row) (header : list str) : result NormRow :=
  (normalized <- map_fields row header ;;
   normalized <- cleanup_name normalized ;;
   Ok (normalize_required normalized))%res.

(** One table of the page: its object and its kind. *)
Definition table_object (tbl : Table) : result (TableObj * Kind) :=
  let header := thead_th tbl in
  (rows_struct <- extract_rows header (tbody_tr tbl) ;;
   Ok ({| header := header; rows := rows_struct |}, classify header))%res.

Definition of_kind (k : Kind) (l : list (TableObj * Kind)) : list TableObj :=
  map fst (filter (fun tk => match snd tk, k with
                             | Props, Props | Events, Events
                             | Methods, Methods | Other, Other => true
                             | _, _ => false
                             end) l).

(** The final loop over [props_tables]. *)
Definition flatten_props (props_tables : list TableObj)
  : result (list NormRow) :=
  (per_table <- mapM (fun tbl => mapM (fun row => normalize_row row (header tbl))
                                      (rows tbl))
                     props_tables ;;
   Ok (List.concat per_table))%res.

(** [parse_component] after [soup = BeautifulSoup(html, 'lxml')]. *)
Definition parse_component_soup (soup : Soup) : result ComponentDetail :=
  let intro_parts := filter str_truthy (firstn 5 (paragraphs soup)) in
  (classified <- mapM table_object (tables soup) ;;
   let props_tables := of_kind Props classified in
   let event_tables := of_kind Events classified in
   let method_tables := of_kind Methods classified in
   let other_tables := of_kind Other classified in
   let examples := filter str_truthy (pre_codes soup) in
   props_flat <- flatten_props props_tables ;;
   Ok {| title := first_h1 soup;
         intro := intro_parts;
         props := props_tables;
         events := event_tables;
         methods := method_tables;
         other_tables := other_tables;
         table_summary :=
           {| n_props := List.length props_tables;
              n_events := List.length event_tables;
              n_methods := List.length method_tables;
              n_other := List.length other_tables |};
         examples := examples;
         props_flat := props_flat;
         source_url := None;
         detail_name := None |})%res.

(* ================================================================= *)
(** ** server.py: data *)

(** The result of a tool: a list of summaries, a detail dictionary,
    [{'error': msg}], the [get_component_props] dictionary or the export
    summary. *)
Inductive tool_result :=
  | RSummaries (l : list Summary)
  | RDetail (d : ComponentDetail)
  | RError (msg : str)
  | RProps (component : value) (flat : list NormRow) (n : nat)
  | RExport (r : ExportReturn).

Record ToolMeta := {
  tool_description : str;
  input_schema : value
}.

(** [{'type': 'object', 'properties': {..}, 'required': [..]}] *)
Definition schema (properties : list (str * str)) (required : list str)
  : value :=
  VDict [(u "type", VStr (u "object"));
         (u "properties",
          VDict (map (fun pt => (fst pt, VDict [(u "type", VStr (snd pt))]))
                     properties));
         (u "required", VList (map VStr required))].

Definition TOOLS : sdict ToolMeta :=
  [(u "list_components",
    {| tool_description := u "List AntD components from overview page";
       input_schema := schema [(u "force", u "boolean")] [] |});
   (u "get_component",
    {| tool_description := u "Get detailed info for a component by name";
       input_schema := schema [(u "name", u "string"); (u "force", u "boolean")]
                              [u "name"] |});
   (u "search_components",
    {| tool_description :=
         u "Search components by substring in name or description";
       input_schema := schema [(u "query", u "string")] [u "query"] |});
   (u "export_all",
    {| tool_description :=
         u "Fetch all component pages and persist structured JSON locally";
       input_schema := schema [(u "force", u "boolean");
                               (u "filepath", u "string")] [] |});
   (u "get_component_props",
    {| tool_description :=
         u "Return flattened props list (props_flat) for a given component";
       input_schema := schema [(u "name", u "string"); (u "force", u "boolean")]
                              [u "name"] |})].

(** One element of [tools_meta]. *)
Record ToolInfo := {
  info_name : str;
  info_description : str;
  info_input_schema : value
}.

Inductive payload :=
  | PTools (tools : list ToolInfo)
  | PContent (content : tool_result).

(** [{'jsonrpc': .., 'id': .., 'result': ..}] and
    [{'jsonrpc': .., 'id': .., 'error': {'code': .., 'message': ..}}] *)
Inductive envelope :=
  | ResultEnvelope (jsonrpc : str) (id : value) (res : payload)
  | ErrorEnvelope (jsonrpc : str) (id : value) (code : Z) (message : str).

Definition rpc_result (id_ : value) (res : payload) : envelope :=
  ResultEnvelope (u "2.0") id_ res.

Definition rpc_error (id_ : value) (code : Z) (message : str) : envelope :=
  ErrorEnvelope (u "2.0") id_ code message.

(** The module-level caches. *)
Record ServerState := {
  _index_cache : option (list Summary);
  _details_cache : dict (option str) ComponentDetail
}.

Definition url_eqb (a b : option str) : bool :=
  match a, b with
  | Some x, Some y => str_eqb x y
  | None, None => true
  | _, _ => false
  end.

(** The keys of [TOOLS] are strings: no other value is equal to one. *)
Definition registered (tool_name : value) : bool :=
  match tool_name with
  | VStr s => shas s TOOLS
  | _ => false
  end.

(** [tool_name in TOOLS] raises for an unhashable name. *)
Definition in_TOOLS (tool_name : value) : result bool :=
  if hashable tool_name then Ok (registered tool_name)
  else Raise (Exn TypeError
                (u "unhashable type: '" ++ type_name tool_name ++ u "'")).

(** [params.get] needs a dictionary. *)
Definition as_dict (v : value) : result (sdict value) :=
  match v with
  | VDict d => Ok d
  | _ => Raise (no_attribute v (u "get"))
  end.

(* ================================================================= *)
(** ** The program over a platform *)

Section Program.
Context {P : Platform}.

(** *** fetcher.py *)

(** The body of the merge loop of [parse_overview]. *)
Definition merge_step (cleaned : sdict Summary) (c : Summary)
  : sdict Summary :=
  if negb (is_valid c) then cleaned
  else
    let key := lower (name c) in
    match sget key cleaned with
    | None => sset key c cleaned
    | Some kept =>
        if Nat.ltb (len (display_name kept)) (len (display_name c))
        then sset key c cleaned
        else cleaned
    end.

Definition merge (components : list Summary) : list Summary :=
  dict_values (fold_left merge_step components []).

Definition parse_overview (html : str) : result (list Summary) :=
  let soup := BeautifulSoup html in
  (cards <- mapM card_summary (overview_cards soup) ;;
   menu <- mapM menu_summary (menu_links soup) ;;
   let components := somes cards ++ menu in
   Ok (merge components))%res.

(** [BeautifulSoup(html, 'lxml')] encodes the markup for the parser and
    raises on a surrogate; [parse_component] has no handler. *)
Definition parse_component (html : str) : result ComponentDetail :=
  if encodable html then parse_component_soup (BeautifulSoup html)
  else Raise (surrogate_error html).

Definition build_component_index (force : bool) (w : World)
  : result (list Summary) * World :=
  let '(html, w1) := fetch_url (BASE_URL ++ OVERVIEW_PATH) force w in
  ((h <- html ;; parse_overview h)%res, w1).

(** [fetch_url(None)] fails on its first line, in [re.sub], before any
    request is made. *)
Definition get_component_detail (url_ : option str) (force : bool)
  (w : World) : result ComponentDetail * World :=
  match url_ with
  | None =>
      (Raise (Exn TypeError
                (u "expected string or bytes-like object, got 'NoneType'")),
       w)
  | Some target =>
      let '(html, w1) := fetch_url target force w in
      ((h <- html ;;
        data <- parse_component h ;;
        Ok {| title := title data; intro := intro data;
              props := props data; events := events data;
              methods := methods data;
              other_tables := other_tables data;
              table_summary := table_summary data;
              examples := examples data;
              props_flat := props_flat data;
              source_url := Some target;
              detail_name := detail_name data |})%res, w1)
  end.

(** [detail['name'] = comp['name']] *)
Definition with_name (detail : ComponentDetail) (nm : str)
  : ComponentDetail :=
  {| title := title detail; intro := intro detail;
     props := props detail; events := events detail;
     methods := methods detail; other_tables := other_tables detail;
     table_summary := table_summary detail;
     examples := examples detail; props_flat := props_flat detail;
     source_url := source_url detail;
     detail_name := Some nm |}.

(** The [try] block of the export loop for one component. *)
Definition try_detail (comp : Summary) (force : bool) (w : World)
  : result ComponentDetail * World :=
  match url comp with
  | Some target =>
      if str_truthy target then
        let '(r, w1) := get_component_detail (Some target) force w in
        ((detail <- r ;; Ok (with_name detail (name comp)))%res, w1)
      else (Raise (Exn FetchError (u "Missing URL")), w)
  | None => (Raise (Exn FetchError (u "Missing URL")), w)
  end.

(** The loop [for comp in index] with its [try]/[except]. *)
Fixpoint collect_details (index : list Summary) (force : bool) (w : World)
  : list export_entry * World :=
  match index with
  | [] => ([], w)
  | comp :: rest =>
      let '(r, w1) := try_detail comp force w in
      let entry :=
        match r with
        | Ok detail => EDetail detail
        | Raise e => EError (name comp) (exn_msg e)
        end in
      let '(more, w2) := collect_details rest force w1 in
      (entry :: more, w2)
  end.

Definition export_all_components (force : bool) (filepath_ : value)
  (validate : bool) (w : World) : result ExportReturn * World :=
  let '(r, w1) := build_component_index force w in
  match r with
  | Raise e => (Raise e, w1)
  | Ok index =>
      let '(all_details, w2) := collect_details index force w1 in
      let all_details :=
        if validate
        then filter (fun d => negb (has_error d)) all_details
        else all_details in
      let export_path :=
        if truthy filepath_ then filepath_ else VStr default_export_path in
      let '(written, w3) :=
        write_json export_path
          {| generated_at := time_time w2;
             rec_count := List.length all_details;
             components := all_details |} w2 in
      match written with
      | Raise e => (Raise e, w3)
      | Ok _ =>
          (Ok {| filepath := export_path;
                 count := List.length all_details;
                 errors := List.length (filter has_error all_details) |},
           w3)
      end
  end.

(** *** server.py *)

(** Computations over the caches and the world that may raise. *)
Definition M (A : Type) : Type :=
  ServerState -> World -> result A * ServerState * World.

Definition ret {A} (a : A) : M A := fun st w => (Ok a, st, w).
Definition raise {A} (e : exn) : M A := fun st w => (Raise e, st, w).
Definition bind {A B} (m : M A) (f : A -> M B) : M B :=
  fun st w =>
    match m st w with
    | (Ok a, st1, w1) => f a st1 w1
    | (Raise e, st1, w1) => (Raise e, st1, w1)
    end.
Definition lift {A} (r : result A) : M A :=
  fun st w => (r, st, w).

Notation "x <~ c ;; k" := (bind c (fun x => k))
  (at level 61, c at next level, right associativity).

Definition ensure_index (force : bool) : M (list Summary) :=
  fun st w =>
    match _index_cache st, force with
    | Some cached, false => (Ok cached, st, w)
    | _, _ =>
        let '(r, w1) := build_component_index force w in
        match r with
        | Ok idx =>
            (Ok idx,
             {| _index_cache := Some idx;
                _details_cache := _details_cache st |}, w1)
        | Raise e => (Raise e, st, w1)
        end
    end.

(** [str(v)] inside an f-string. *)
Definition format_value (v : value) : str :=
  match v with
  | VStr s => s
  | VNone => u "None"
  | VBool true => u "True"
  | VBool false => u "False"
  | other => py_repr other
  end.

(** [v.lower()] *)
Definition value_lower (v : value) : result str :=
  match v with
  | VStr s => Ok (lower s)
  | _ => Raise (no_attribute v (u "lower"))
  end.

(** [next((c for c in index if c['name'].lower() == name.lower()), None)]:
    [name.lower()] is evaluated once per entry visited. *)
Fixpoint find_target (index : list Summary) (nm : value)
  : result (option Summary) :=
  match index with
  | [] => Ok None
  | c :: rest =>
      (wanted <- value_lower nm ;;
       if str_eqb (lower (name c)) wanted then Ok (Some c)
       else find_target rest nm)%res
  end.

(** [if url not in _details_cache or force: _details_cache[url] = ...]
    followed by [_details_cache[url]]. *)
Definition cached_detail (url_ : option str) (force : bool)
  : M ComponentDetail :=
  fun st w =>
    match dict_get url_eqb url_ (_details_cache st), force with
    | Some detail, false => (Ok detail, st, w)
    | _, _ =>
        let '(r, w1) := get_component_detail url_ force w in
        match r with
        | Ok detail =>
            (Ok detail,
             {| _index_cache := _index_cache st;
                _details_cache :=
                  dict_set url_eqb url_ detail (_details_cache st) |}, w1)
        | Raise e => (Raise e, st, w1)
        end
    end.

Definition handle_list_components (arguments : value) : M tool_result :=
  params <~ lift (as_dict arguments) ;;
  let force := truthy (vget (u "force") (VBool false) params) in
  idx <~ ensure_index force ;;
  ret (RSummaries idx).

Definition not_provided : str :=
  u "Component name not provided in arguments".

Definition not_found (nm : value) : str :=
  u "Component " ++ format_value nm ++ u " not found".

Definition handle_get_component (arguments : value) : M tool_result :=
  params <~ lift (as_dict arguments) ;;
  let nm := vget (u "name") VNone params in
  if negb (truthy nm) then ret (RError not_provided)
  else
    let force := truthy (vget (u "force") (VBool false) params) in
    idx <~ ensure_index force ;;
    target <~ lift (find_target idx nm) ;;
    match target with
    | None => ret (RError (not_found nm))
    | Some t =>
        detail <~ cached_detail (url t) force ;;
        ret (RDetail detail)
    end.

Definition handle_search_components (arguments : value) : M tool_result :=
  match arguments with
  | VDict params =>
      match sget (u "query") params with
      | None => raise (Exn KeyError (u "'query'"))
      | Some q =>
          query <~ lift (value_lower q) ;;
          idx <~ ensure_index false ;;
          ret (RSummaries
                 (filter (fun c => contains query (lower (name c))
                                   || contains query (lower (description c)))
                         idx))
      end
  | VStr _ =>
      raise (Exn TypeError (u "string indices must be integers, not 'str'"))
  | VList _ =>
      raise (Exn TypeError
               (u "list indices must be integers or slices, not str"))
  | other =>
      raise (Exn TypeError
               (u "'" ++ type_name other ++ u "' object is not subscriptable"))
  end.

Definition handle_export_all (arguments : value) : M tool_result :=
  params <~ lift (as_dict arguments) ;;
  let force := truthy (vget (u "force") (VBool false) params) in
  let filepath_ := vget (u "filepath") VNone params in
  fun st w =>
    let '(r, w1) := export_all_components force filepath_ true w in
    match r with
    | Ok summary => (Ok (RExport summary), st, w1)
    | Raise e => (Raise e, st, w1)
    end.

Definition handle_get_component_props (arguments : value) : M tool_result :=
  params <~ lift (as_dict arguments) ;;
  let nm := vget (u "name") VNone params in
  if negb (truthy nm) then ret (RError not_provided)
  else
    let force := truthy (vget (u "force") (VBool false) params) in
    idx <~ ensure_index force ;;
    target <~ lift (find_target idx nm) ;;
    match target with
    | None => ret (RError (not_found nm))
    | Some t =>
        detail <~ cached_detail (url t) force ;;
        ret (RProps nm (props_flat detail) (List.length (props_flat detail)))
    end.

Definition process_tool_call (tool_name : value) (arguments : value)
  : M tool_result :=
  if value_is_str tool_name (u "list_components")
  then handle_list_components arguments
  else if value_is_str tool_name (u "get_component")
  then handle_get_component arguments
  else if value_is_str tool_name (u "search_components")
  then handle_search_components arguments
  else if value_is_str tool_name (u "export_all")
  then handle_export_all arguments
  else if value_is_str tool_name (u "get_component_props")
  then handle_get_component_props arguments
  else ret (RError (u "Tool " ++ format_value tool_name
                    ++ u " not implemented")).

Definition tools_meta : list ToolInfo :=
  map (fun nm => {| info_name := fst nm;
                    info_description := tool_description (snd nm);
                    info_input_schema := input_schema (snd nm) |}) TOOLS.

(** [process_request]; a [Raise] is an exception that reaches the caller. *)
Definition process_request (req : sdict value) : M envelope :=
  let method := vget (u "method") VNone req in
  let id_ := vget (u "id") VNone req in
  if value_is_str method (u "tools/list")
  then ret (rpc_result id_ (PTools tools_meta))
  else if value_is_str method (u "tools/call")
  then
    params <~ lift (as_dict (vget (u "params") (VDict []) req)) ;;
    let tool_name := vget (u "name") VNone params in
    let arguments :=
      let a := vget (u "arguments") (VDict []) params in
      if truthy a then a else VDict [] in
    known <~ lift (in_TOOLS tool_name) ;;
    if negb known
    then ret (rpc_error id_ (-32601)
                (u "Unknown tool " ++ format_value tool_name))
    else
      fun st w =>
        match process_tool_call tool_name arguments st w with
        | (Ok res, st1, w1) => (Ok (rpc_result id_ (PContent res)), st1, w1)
        | (Raise e, st1, w1) =>
            (Ok (rpc_error id_ (-32603) (u "Internal error: " ++ exn_msg e)),
             st1, w1)
        end
  else ret (rpc_error id_ (-32601)
              (u "Unknown method " ++ format_value method)).

End Program.

(* ================================================================= *)
(** ** A small platform for running the program

    The world is the log of the URLs requested. A page is identified by its
    URL: [fetch_url] returns the URL itself as markup unless the URL is in
    [failing] or cannot be written to the cache, and [BeautifulSoup] maps it
    to a document. *)

Definition demo_overview : Soup :=
  {| overview_cards :=
       [ {| card_title := Some (u "Button按钮");
            card_parent_a := Some (Some (u "/components/button-cn/"));
            card_inner_a := None |} ];
     menu_links :=
       [ {| link_spans := [u "Table"; u "表格"]; link_text := u "Table表格";
            link_href := Some (u "/components/table-cn/") |};
         {| link_spans := [u "Form"; u "表单"]; link_text := u "Form表单";
            link_href := Some (u "/components/form-cn/") |} ];
     first_h1 := None; paragraphs := []; tables := []; pre_codes := [] |}.

Definition empty_soup : Soup :=
  {| overview_cards := []; menu_links := []; first_h1 := None;
     paragraphs := []; tables := []; pre_codes := [] |}.

(** A component page with one property table that has a column labelled
    [raw] and a [required] column. *)
Definition demo_page : Soup :=
  {| overview_cards := []; menu_links := [];
     first_h1 := Some (u "Button");
     paragraphs := [u "A button."];
     tables :=
       [ {| thead_th := [u "参数"; u "raw"; u "必填"];
            tbody_tr := [[u "size"; u "b"; u ""]] |} ];
     pre_codes := [] |}.

Definition demo_soup (html : str) : Soup :=
  if str_eqb html (BASE_URL ++ OVERVIEW_PATH) then demo_overview
  else if str_eqb html (BASE_URL ++ u "/components/button-cn/") then demo_page
  else empty_soup.

Definition demo_fetch (failing : list str) (target : str) (force : bool)
  (w : list str) : result str * list str :=
  if existsb (str_eqb target) failing
  then (Raise (Exn FetchError (u "Failed " ++ target ++ u " status=404")),
        w ++ [target])
  else if encodable target then (Ok target, w ++ [target])
  else (Raise (surrogate_error target), w ++ [target]).

Lemma demo_fetch_encodable (failing : list str) (target : str)
  (force : bool) (w : list str) (html : str) (w1 : list str) :
  demo_fetch failing target force w = (Ok html, w1) -> encodable html = true.
Proof.
  unfold demo_fetch. destruct (existsb (str_eqb target) failing).
  - discriminate.
  - destruct (encodable target) eqn:E; [|discriminate].
    intros H. injection H as <- _. exact E.
Qed.

Definition demo_platform (failing : list str) : Platform :=
  {| World := list str;
     Time := nat;
     fetch_url := demo_fetch failing;
     fetch_url_encodable := demo_fetch_encodable failing;
     BeautifulSoup := demo_soup;
     lower := ascii_lower;
     py_repr := fun _ => u "<repr>";
     time_time := fun w => List.length w;
     write_json := fun _ _ w => (Ok tt, w);
     default_export_path := u "exports/antd_components_all.json" |}.

(** The second catalog entry cannot be fetched. *)
Definition table_fails : Platform :=
  demo_platform [BASE_URL ++ u "/components/table-cn/"].

Definition all_pages : Platform := demo_platform [].

(** The overview page itself cannot be fetched. *)
Definition overview_fails : Platform :=
  demo_platform [BASE_URL ++ OVERVIEW_PATH].

Definition fresh : ServerState :=
  {| _index_cache := None; _details_cache := [] |}.

(** The catalog of [demo_overview] and the server state once it is cached. *)
Definition demo_catalog : list Summary :=
  Eval vm_compute in
    match @parse_overview all_pages (BASE_URL ++ OVERVIEW_PATH) with
    | Ok l => l
    | Raise _ => []
    end.

Definition indexed : ServerState :=
  {| _index_cache := Some demo_catalog; _details_cache := [] |}.

(** Two summaries with one key, as the card and the menu patterns yield
    them. *)
Definition sample_long : Summary :=
  {| name := u "Button"; display_name := u "Button按钮";
     url := Some (u "https://4x.ant.design/components/button-cn/");
     description := [] |}.

Definition sample_short : Summary :=
  {| name := u "button"; display_name := u "Button";
     url := Some (u "https://4x.ant.design/components/button/");
     description := [] |}.

(** The longer summary of the pair, as a card without a link yields it. *)
Definition sample_long_unlinked : Summary :=
  {| name := u "Button"; display_name := u "Button按钮";
     url := None; description := [] |}.

(* ================================================================= *)
(** ** fetcher.py: fetch_url

    The cached fetch over its environment: the cache directory, the network
    and the clock. What the function does to the environment is recorded in
    order as a list of events, and the environment decides, from what has
    happened so far, what each call returns or raises: [cache_file.exists()]
    can raise [OSError], [read_text] returns the file decoded as UTF-8 with
    the line ends the text mode gives, [requests.get] can raise, and
    [write_text] can raise [OSError] or [UnicodeEncodeError]. *)

(** [re.sub(r'[^a-zA-Z0-9]+', '_', s)]: [in_run] tells that the characters
    just before belong to a run already replaced. *)
Fixpoint sub_non_alnum (in_run : bool) (s : str) : str :=
  match s with
  | [] => []
  | c :: t =>
      if is_alnum c then c :: sub_non_alnum false t
      else if in_run then sub_non_alnum true t
      else 95%N :: sub_non_alnum true t
  end.

(** The name of [cache_file] inside [CACHE_DIR]. *)
Definition cache_file_name (target : str) : str :=
  sub_non_alnum false target ++ u ".html".

Inductive event :=
  | EvExists (file : str)
  | EvRead (file : str)
  | EvGet (target : str)
  | EvWrite (file : str) (text : str)
  | EvSleep.

Record Environment := {
  (** [cache_file.exists()] *)
  path_exists : list event -> str -> result bool;
  (** [cache_file.read_text(encoding='utf-8', errors='ignore')] *)
  read_text : list event -> str -> result str;
  (** [requests.get(url, headers=HEADERS, timeout=15)]: the status code and
      the text of the response *)
  requests_get : list event -> str -> result (nat * str);
  (** [cache_file.write_text(text, encoding='utf-8')] *)
  write_text : list event -> str -> str -> result unit
}.

(** [fetch_url(url, force=force)] after the events [tr]. *)
Definition fetch_url_cached (env : Environment) (target : str) (force : bool)
  (tr : list event) : result str * list event :=
  let cache_file := cache_file_name target in
  let tr1 := tr ++ [EvExists cache_file] in
  match path_exists env tr cache_file with
  | Raise e => (Raise e, tr1)
  | Ok found =>
      if found && negb force
      then (read_text env tr1 cache_file, tr1 ++ [EvRead cache_file])
      else
        let tr2 := tr1 ++ [EvGet target] in
        match requests_get env tr1 target with
        | Raise e => (Raise e, tr2)
        | Ok (status_code, text) =>
            if negb (Nat.eqb status_code 200)
            then (Raise (Exn FetchError
                           (u "Failed " ++ target ++ u " status="
                            ++ decimal status_code)), tr2)
            else
              let tr3 := tr2 ++ [EvWrite cache_file text] in
              match write_text env tr2 cache_file text with
              | Raise e => (Raise e, tr3)
              | Ok _ => (Ok text, tr3 ++ [EvSleep])
              end
        end
  end.

(** A cache directory in memory: a file holds the text written to it last.
    The pages whose URL mentions [missing] answer 404 and every other page
    answers 200 with a body made from its URL. *)
Definition file_text (tr : list event) (file : str) : option str :=
  fold_left (fun found e =>
               match e with
               | EvWrite f text => if str_eqb f file then Some text else found
               | _ => found
               end) tr None.

Definition demo_env : Environment :=
  {| path_exists := fun tr file =>
       Ok (match file_text tr file with Some _ => true | None => false end);
     read_text := fun tr file =>
       match file_text tr file with
       | Some text =>
           if encodable text then Ok text
           else Raise (Exn OtherError (u "damaged file"))
       | None => Raise (Exn OtherError (u "No such file or directory"))
       end;
     requests_get := fun _ target =>
       if contains (u "missing") target then Ok (404, u "not found")
       else Ok (200, u "<html>" ++ target);
     write_text := fun _ _ text =>
       if encodable text then Ok tt else Raise (surrogate_error text) |}.

(* ================================================================= *)
(** ** server.py: main

    The request loop of [main] and its [--once] branch. The standard output
    is the list of the objects given to [emit]; [json.loads] is the
    parameter [loads]. The debug lines on the standard error are left out. *)

Section Main.
Context {P : Platform}.
Variable loads : str -> result value.

(** [process_request(req)] for any decoded request: [req.get] needs a
    dictionary. *)
Definition process_request_any (req : value) : M envelope :=
  match req with
  | VDict d => process_request d
  | _ => raise (no_attribute req (u "get"))
  end.

Definition parse_error (e : exn) : envelope :=
  rpc_error VNone (-32700) (u "Parse error: " ++ exn_msg e).

(** What the loop leaves behind: the objects emitted, the exception that
    ended the loop if one did, the caches and the world. *)
Record Run := {
  emitted : list envelope;
  crashed : option exn;
  final_state : ServerState;
  final_world : World
}.

Definition emit_first (e : envelope) (r : Run) : Run :=
  {| emitted := e :: emitted r; crashed := crashed r;
     final_state := final_state r; final_world := final_world r |}.

(** [for line in sys.stdin: ...] *)
Fixpoint serve_lines (lines : list str) (st : ServerState) (w : World) : Run :=
  match lines with
  | [] => {| emitted := []; crashed := None;
             final_state := st; final_world := w |}
  | raw_line :: rest =>
      let line := strip raw_line in
      if negb (str_truthy line) then serve_lines rest st w
      else
        match loads line with
        | Raise e => emit_first (parse_error e) (serve_lines rest st w)
        | Ok req =>
            match process_request_any req st w with
            | (Ok resp, st1, w1) => emit_first resp (serve_lines rest st1 w1)
            | (Raise e, st1, w1) =>
                {| emitted := []; crashed := Some e;
                   final_state := st1; final_world := w1 |}
            end
        end
  end.

(** The [if args.once:] branch: everything is inside one [try]. *)
Definition serve_once (once : str) (st : ServerState) (w : World) : Run :=
  match loads once with
  | Raise e => {| emitted := [parse_error e]; crashed := None;
                  final_state := st; final_world := w |}
  | Ok req =>
      match process_request_any req st w with
      | (Ok out, st1, w1) =>
          {| emitted := [out]; crashed := None;
             final_state := st1; final_world := w1 |}
      | (Raise e, st1, w1) =>
          {| emitted := [parse_error e]; crashed := None;
             final_state := st1; final_world := w1 |}
      end
  end.

End Main.

(** A decoder for running the loop: it knows the line [list], a
    [tools/list] request with id 7, and the line [bad], a [tools/call]
    request whose tool name is a list; every other line fails to decode. *)
Definition demo_loads (line : str) : result value :=
  if str_eqb line (u "list")
  then Ok (VDict [(u "id", VNum 7); (u "method", VStr (u "tools/list"))])
  else if str_eqb line (u "bad")
  then Ok (VDict [(u "id", VNum 8); (u "method", VStr (u "tools/call"));
                  (u "params", VDict [(u "name", VList [])])])
  else Raise (Exn OtherError (u "Expecting value")).

(* ================================================================= *)
(** ** Vocabulary of the properties *)

(** A keyword is free of the separator [join] inserts. *)
Definition no_space (k : str) : bool :=
  forallb (fun c => negb (char_eqb c 32%N)) k.

Definition keywords_ok (ks : list str) : bool :=
  forallb (fun k => str_truthy k && no_space k) ks.

(** The header is matched against a keyword table as the code does it: on the
    labels joined by a space. *)
Definition matches (ks : list str) (header : list str) : bool :=
  any_in ks (join (u " ") header).

Definition mentions_API (header : list str) : bool :=
  contains (u "API") (join (u " ") header).

Definition non_space (c : char) : bool := negb (is_space c).

(** The labels [normalize_name] is given. It is local to [parse_overview],
    which calls it on a [get_text(strip=True)] and on the concatenation of
    such texts: each is its pieces of text stripped, with the empty ones left
    out, joined without a separator, so it is empty or starts with a
    character that is not whitespace. *)
Definition label_text (L : str) : bool :=
  match L with
  | [] => true
  | c :: _ => non_space c
  end.

(** The catalog key of a summary is [k]. *)
Definition has_key {P : Platform} (k : str) (c : Summary) : bool :=
  str_eqb (lower (name c)) k.

(** A summary that enters the merge under the key [k]. *)
Definition candidate {P : Platform} (k : str) (c : Summary) : bool :=
  is_valid c && has_key k c.

(** What the merge loop does to the entry kept for the key [k]. *)
Definition pick {P : Platform} (k : str) (best : option Summary)
  (c : Summary) : option Summary :=
  if candidate k c then
    match best with
    | None => Some c
    | Some b =>
        if Nat.ltb (len (display_name b)) (len (display_name c))
        then Some c else Some b
    end
  else best.

(** The dictionary [cleaned]: distinct keys, each the lower-cased name of the
    valid summary stored under it. *)
Definition cleaned_ok {P : Platform} (d : sdict Summary) : Prop :=
  NoDup (dict_keys d) /\
  forall k v, In (k, v) d -> k = lower (name v) /\ is_valid v = true.

(** An absolute URL under the path marker. *)
Definition good_url (c : Summary) : Prop :=
  exists target,
    url c = Some target /\ target <> [] /\
    (startswith (u "http://") target = true
     \/ startswith (u "https://") target = true) /\
    contains (u "/components/") target = true.

(** The length of the display name. *)
Definition dlen (c : Summary) : nat := len (display_name c).

(** The row dictionary as a mapping from header label to cell text, and as
    the positional list of cell texts. *)
Definition mapping_row (header cells : list str) : Row :=
  fold_left (fun d hc => sset (fst hc) (CStr (snd hc)) d)
            (combine header cells) [].

Definition positional_row (cells : list str) : Row :=
  [(u "cells", CCells cells)].

(** Rows as [extract_row] builds them: a key ['cells'], or texts only. *)
Definition row_ok (r : Row) : Prop :=
  shas (u "cells") r = true \/
  Forall (fun kv => exists s, snd kv = CStr s) r.

(** Normalized rows while they are built: every value but the one under
    ['raw'] is a text. *)
Definition norm_ok (n : NormRow) : Prop :=
  Forall (fun kv => fst kv = u "raw" \/ exists s, snd kv = NStr s) n.

(** The [required] field for a source cell text [txt]. *)
Definition required_of (txt : str) : nval :=
  if any_in affirmative_tokens txt then NBool true
  else if any_in negative_tokens txt then NBool false
  else NStr txt.

(** The detail of a page without heading, paragraphs, tables and code. *)
Definition empty_detail : ComponentDetail :=
  {| title := None; intro := []; props := []; events := []; methods := [];
     other_tables := [];
     table_summary :=
       {| n_props := 0; n_events := 0; n_methods := 0; n_other := 0 |};
     examples := []; props_flat := []; source_url := None;
     detail_name := None |}.

(** The catalog entry [c] answers a request for the name [s]. *)
Definition matches_name {P : Platform} (s : str) (c : Summary) : bool :=
  str_eqb (lower (name c)) (lower s).

Definition rmap {A B} (f : A -> B) (r : result A) : result B :=
  match r with
  | Ok a => Ok (f a)
  | Raise e => Raise e
  end.

(** The result of [get_component_props] for the requested name [s]. *)
Definition props_of (s : str) (d : ComponentDetail) : tool_result :=
  RProps (VStr s) (props_flat d) (List.length (props_flat d)).

(** The first component of the triple a server computation returns. *)
Definition outcome {P : Platform} {A} (r : result A * ServerState * World)
  : result A := fst (fst r).

Definition kind_eqb (a b : Kind) : bool :=
  match a, b with
  | Props, Props | Events, Events | Methods, Methods | Other, Other => true
  | _, _ => false
  end.

(** The tables of one kind in a detail, and their count in its summary. *)
Definition tables_of (k : Kind) (d : ComponentDetail) : list TableObj :=
  match k with
  | Props => props d
  | Events => events d
  | Methods => methods d
  | Other => other_tables d
  end.

Definition count_of (k : Kind) (t : TableSummary) : nat :=
  match k with
  | Props => n_props t
  | Events => n_events t
  | Methods => n_methods t
  | Other => n_other t
  end.

Definition has_cells (cells : list str) : bool :=
  match cells with [] => false | _ => true end.

(** The row dictionary of a table row that has cells. *)
Definition row_of (header cells : list str) : Row :=
  if Nat.eqb (List.length header) (List.length cells)
  then mapping_row header cells
  else positional_row cells.

(** The events of one kind in a list of events. *)
Definition reads (evs : list event) : nat :=
  List.length (filter (fun e => match e with EvRead _ => true | _ => false end)
                      evs).
Definition requests (evs : list event) : nat :=
  List.length (filter (fun e => match e with EvGet _ => true | _ => false end)
                      evs).
Definition writes (evs : list event) : nat :=
  List.length (filter (fun e => match e with EvWrite _ _ => true | _ => false end)
                      evs).
Definition sleeps (evs : list event) : nat :=
  List.length (filter (fun e => match e with EvSleep => true | _ => false end)
                      evs).

(** The table object of a table of the page. *)
Definition object_of (tbl : Table) : TableObj :=
  {| header := thead_th tbl;
     rows := map (row_of (thead_th tbl)) (filter has_cells (tbody_tr tbl)) |}.

(** The tables of the page whose header classifies as [k], in document
    order. *)
Definition tables_classified (k : Kind) (tbls : list Table) : list Table :=
  filter (fun tbl => kind_eqb (classify (thead_th tbl)) k) tbls.

(** [ns] holds the normalized rows of the table [t], row by row. *)
Definition normalized_rows (t : TableObj) (ns : list NormRow) : Prop :=
  Forall2 (fun row n => normalize_row row (header t) = Ok n) (rows t) ns.

Definition not_newline (c : char) : bool := negb (char_eqb c 10%N).

(** The name kept for the text of a name cell. *)
Definition clean_name (txt : str) : str :=
  if str_truthy txt then strip (takewhile not_newline txt) else txt.

(** The entry the export loop records for one component. *)
Definition entry_for (comp : Summary) (entry : export_entry) : Prop :=
  match entry with
  | EDetail d =>
      detail_name d = Some (name comp) /\ source_url d = url comp /\
      exists target, url comp = Some target /\ target <> []
  | EError nm msg =>
      nm = name comp /\
      ((url comp = None \/ url comp = Some []) -> msg = u "Missing URL")
  end.

(** The caches of the server: a cached catalog has valid URLs and distinct
    keys, and a detail is cached under the URL it was fetched from. *)
Definition index_ok {P : Platform} (st : ServerState) : Prop :=
  forall idx, _index_cache st = Some idx ->
              Forall good_url idx /\
              NoDup (map (fun c => lower (name c)) idx).

Definition details_ok (st : ServerState) : Prop :=
  forall k d, In (k, d) (_details_cache st) ->
              source_url d = k /\ exists target, k = Some target.

Definition server_ok {P : Platform} (st : ServerState) : Prop :=
  index_ok st /\ details_ok st.

(** The state a server computation leaves. *)
Definition state_after {P : Platform} {A}
  (r : result A * ServerState * World) : ServerState := snd (fst r).

(** A server computation keeps the caches well formed. *)
Definition keeps_ok {P : Platform} {A} (m : M A) : Prop :=
  forall st w, server_ok st -> server_ok (state_after (m st w)).

Definition env_id (e : envelope) : value :=
  match e with
  | ResultEnvelope _ i _ => i
  | ErrorEnvelope _ i _ _ => i
  end.

Definition env_version (e : envelope) : str :=
  match e with
  | ResultEnvelope v _ _ => v
  | ErrorEnvelope v _ _ _ => v
  end.

(** The lines of the input that the loop does not skip. *)
Definition blank (line : str) : bool := negb (str_truthy (strip line)).

(** The five handlers of [process_tool_call]. *)
Definition handlers {P : Platform} : list (value -> M tool_result) :=
  [handle_list_components; handle_get_component; handle_search_components;
   handle_export_all; handle_get_component_props].

(* ================================================================= *)
(** * Properties *)

Unset Implicit Arguments.

(** ** Strings and dictionaries *)

(** Literals are decoded to code points: U+662F, and a length counted in
    characters, not bytes. *)
Example u_decodes_code_points :
  u "是" = [26159%N] /\ len (u "Button按钮") = 8.
Proof. split; vm_compute; reflexivity. Qed.

Example strip_and_split :
  strip (u "  Button 按钮 ") = u "Button 按钮" /\
  split_ws (u "  Button 按钮 ") = [u "Button"; u "按钮"] /\
  split_char 10%N [97%N; 10%N; 98%N] = [[97%N]; [98%N]].
Proof. repeat split; vm_compute; reflexivity. Qed.

Lemma char_eqb_eq (a b : char) : char_eqb a b = true <-> a = b.
Proof. unfold char_eqb. apply N.eqb_eq. Qed.

Lemma str_eqb_eq (a b : str) : str_eqb a b = true <-> a = b.
Proof.
  revert b. induction a as [|x a IH]; intros [|y b]; simpl;
    try (split; [discriminate | discriminate]); try tauto.
  rewrite andb_true_iff, char_eqb_eq, IH.
  split; [intros [-> ->]; reflexivity | intros [= -> ->]; auto].
Qed.

Lemma str_eqb_refl (a : str) : str_eqb a a = true.
Proof. apply str_eqb_eq. reflexivity. Qed.

Lemma str_eqb_neq (a b : str) : str_eqb a b = false <-> a <> b.
Proof.
  rewrite <- str_eqb_eq. destruct (str_eqb a b); split; congruence.
Qed.

Lemma str_eqb_sym (a b : str) : str_eqb a b = str_eqb b a.
Proof.
  destruct (str_eqb a b) eqn:E.
  - apply str_eqb_eq in E. subst. symmetry. apply str_eqb_refl.
  - symmetry. apply str_eqb_neq. apply str_eqb_neq in E. congruence.
Qed.

Lemma sget_sset {V} (k k' : str) (v : V) (d : sdict V) :
  sget k (sset k' v d) = if str_eqb k k' then Some v else sget k d.
Proof.
  unfold sget, sset. induction d as [|[k0 v0] d IH]; simpl.
  - reflexivity.
  - destruct (str_eqb k' k0) eqn:E0; simpl.
    + apply str_eqb_eq in E0. subst k0.
      destruct (str_eqb k k'); reflexivity.
    + destruct (str_eqb k k0) eqn:E1.
      * apply str_eqb_eq in E1. subst k0.
        rewrite str_eqb_sym, E0. reflexivity.
      * apply IH.
Qed.

Lemma sget_In {V} (k : str) (v : V) (d : sdict V) :
  sget k d = Some v -> In (k, v) d.
Proof.
  unfold sget. induction d as [|[k0 v0] d IH]; simpl; [discriminate|].
  destruct (str_eqb k k0) eqn:E.
  - apply str_eqb_eq in E. intros [= ->]. left. congruence.
  - auto.
Qed.

Lemma In_sset {V} (k k' : str) (v v' : V) (d : sdict V) :
  In (k, v) (sset k' v' d) -> (k = k' /\ v = v') \/ In (k, v) d.
Proof.
  unfold sset. induction d as [|[k0 v0] d IH]; simpl.
  - intros [[= <- <-]|[]]. auto.
  - destruct (str_eqb k' k0) eqn:E; simpl.
    + apply str_eqb_eq in E. subst k0.
      intros [[= <- <-]|H]; auto.
    + intros [H|H]; auto. destruct (IH H); auto.
Qed.

Lemma shas_sget {V} (k : str) (d : sdict V) :
  shas k d = true -> exists v, sget k d = Some v.
Proof.
  unfold shas, dict_has, sget. destruct (dict_get str_eqb k d); eauto.
  discriminate.
Qed.

Lemma mapM_total {A B} (f : A -> result B) (l : list A) :
  (forall a, In a l -> exists b, f a = Ok b) ->
  exists bs, mapM f l = Ok bs /\ List.length bs = List.length l.
Proof.
  induction l as [|a l IH]; simpl; intros H.
  - exists []. auto.
  - destruct (H a) as [b Hb]; auto.
    destruct IH as (bs & Hbs & Hlen); auto.
    exists (b :: bs). rewrite Hb, Hbs. simpl. auto.
Qed.

Lemma mapM_In {A B} (f : A -> result B) (l : list A) (bs : list B) :
  mapM f l = Ok bs ->
  forall b, In b bs -> exists a, In a l /\ f a = Ok b.
Proof.
  revert bs. induction l as [|a l IH]; simpl; intros bs.
  - intros [= <-] b [].
  - destruct (f a) as [b0|] eqn:Ea; simpl; [|discriminate].
    destruct (mapM f l) as [bs0|] eqn:El; simpl; [|discriminate].
    intros [= <-] b [<-|Hb]; eauto.
    destruct (IH _ eq_refl b Hb) as (a' & Ha' & Hf). eauto.
Qed.

(** ** Substrings of joined header labels *)

Lemma startswith_before_space (k a b : str) :
  no_space k = true ->
  startswith k (a ++ 32%N :: b) = startswith k a.
Proof.
  revert a. induction k as [|c k IH]; intros a Hk.
  - destruct a; reflexivity.
  - simpl in Hk. apply andb_true_iff in Hk. destruct Hk as [Hc Hk].
    destruct a as [|x a]; simpl.
    + apply negb_true_iff in Hc. rewrite Hc. reflexivity.
    + rewrite IH by assumption. reflexivity.
Qed.

Lemma contains_across_space (k a b : str) :
  k <> [] -> no_space k = true ->
  contains k (a ++ 32%N :: b) = contains k a || contains k b.
Proof.
  intros Hne Hk. induction a as [|x a IH].
  - destruct k as [|c k]; [congruence|].
    simpl in Hk. apply andb_true_iff in Hk. destruct Hk as [Hc _].
    apply negb_true_iff in Hc.
    change ([] ++ 32%N :: b) with (32%N :: b).
    cbn [contains startswith]. rewrite Hc. reflexivity.
  - change ((x :: a) ++ 32%N :: b) with (x :: (a ++ 32%N :: b)).
    cbn [contains]. rewrite IH.
    change (x :: (a ++ 32%N :: b)) with ((x :: a) ++ 32%N :: b).
    rewrite startswith_before_space by assumption.
    rewrite orb_assoc. reflexivity.
Qed.

(** A keyword without a space occurs in the joined header exactly when it
    occurs in one of the labels. *)
Lemma contains_join (k : str) (labels : list str) :
  k <> [] -> no_space k = true ->
  contains k (join (u " ") labels) = existsb (contains k) labels.
Proof.
  intros Hne Hk. induction labels as [|a [|b rest] IH].
  - destruct k; [congruence | reflexivity].
  - simpl. rewrite orb_false_r. reflexivity.
  - change (join (u " ") (a :: b :: rest))
      with (a ++ 32%N :: join (u " ") (b :: rest)).
    rewrite contains_across_space by assumption.
    rewrite IH. reflexivity.
Qed.

Lemma any_in_join (ks : list str) (labels : list str) :
  keywords_ok ks = true ->
  any_in ks (join (u " ") labels)
  = existsb (fun k => existsb (contains k) labels) ks.
Proof.
  unfold any_in. induction ks as [|k ks IH]; simpl; intros H; [reflexivity|].
  apply andb_true_iff in H. destruct H as [Hk Hks].
  apply andb_true_iff in Hk. destruct Hk as [Hne Hsp].
  rewrite contains_join; auto.
  - rewrite IH by assumption. reflexivity.
  - destruct k; [discriminate | congruence].
Qed.

Lemma existsb_same_members {A} (p : A -> bool) (l1 l2 : list A) :
  (forall x, In x l1 <-> In x l2) -> existsb p l1 = existsb p l2.
Proof.
  intros H.
  destruct (existsb p l1) eqn:E1; destruct (existsb p l2) eqn:E2; auto.
  - apply existsb_exists in E1. destruct E1 as (x & Hx & Hp).
    assert (existsb p l2 = true) by (apply existsb_exists; exists x;
                                     split; [apply H|]; assumption).
    congruence.
  - apply existsb_exists in E2. destruct E2 as (x & Hx & Hp).
    assert (existsb p l1 = true) by (apply existsb_exists; exists x;
                                     split; [apply H|]; assumption).
    congruence.
Qed.

Lemma any_in_join_members (ks : list str) (h1 h2 : list str) :
  keywords_ok ks = true ->
  (forall x, In x h1 <-> In x h2) ->
  any_in ks (join (u " ") h1) = any_in ks (join (u " ") h2).
Proof.
  intros Hks H. rewrite !any_in_join by assumption.
  induction ks as [|k ks IH]; simpl; [reflexivity|].
  simpl in Hks. apply andb_true_iff in Hks. destruct Hks as [_ Hks].
  rewrite (existsb_same_members (contains k) h1 h2 H), IH by assumption.
  reflexivity.
Qed.

(** C4. Table classification depends only on the set of header labels, and
    its rules apply in the order events, methods, props, other: a header
    matching an events keyword is [Events] whatever else it matches; one
    matching a methods keyword and no events keyword is [Methods] whatever
    props keywords it matches; one matching a props keyword (or [API] with a
    type, default or parameter keyword) and none of the former is [Props];
    one matching no rule is [Other]. *)
Theorem classify_deterministic_priority :
  (forall h1 h2 : list str,
      (forall x, In x h1 <-> In x h2) -> classify h1 = classify h2) /\
  (forall h, matches event_keywords h = true -> classify h = Events) /\
  (forall h, matches event_keywords h = false ->
             matches method_keywords h = true -> classify h = Methods) /\
  (forall h, matches event_keywords h = false ->
             matches method_keywords h = false ->
             matches prop_keywords h = true
             \/ (mentions_API h = true
                 /\ (matches api_keywords_a h = true
                     \/ matches api_keywords_b h = true)) ->
             classify h = Props) /\
  (forall h, matches event_keywords h = false ->
             matches method_keywords h = false ->
             matches prop_keywords h = false ->
             (mentions_API h = false
              \/ (matches api_keywords_a h = false
                  /\ matches api_keywords_b h = false)) ->
             classify h = Other).
Proof.
  unfold matches, mentions_API. repeat split.
  - intros h1 h2 H. unfold classify. cbv zeta.
    rewrite (any_in_join_members event_keywords h1 h2 eq_refl H).
    rewrite (any_in_join_members method_keywords h1 h2 eq_refl H).
    rewrite (any_in_join_members prop_keywords h1 h2 eq_refl H).
    rewrite (any_in_join_members api_keywords_a h1 h2 eq_refl H).
    rewrite (any_in_join_members api_keywords_b h1 h2 eq_refl H).
    assert (HA : contains (u "API") (join (u " ") h1)
                 = contains (u "API") (join (u " ") h2)).
    { rewrite !contains_join by (try reflexivity; discriminate).
      apply existsb_same_members, H. }
    rewrite HA. reflexivity.
  - intros h He. unfold classify. cbv zeta. rewrite He. reflexivity.
  - intros h He Hm. unfold classify. cbv zeta. rewrite He, Hm. reflexivity.
  - intros h He Hm Hp. unfold classify. cbv zeta. rewrite He, Hm.
    destruct Hp as [Hp|[HA [Ha|Hb]]].
    + rewrite Hp. reflexivity.
    + rewrite HA, Ha.
      destruct (any_in prop_keywords (join (u " ") h)); reflexivity.
    + rewrite HA, Hb.
      destruct (any_in prop_keywords (join (u " ") h)); [reflexivity|].
      destruct (any_in api_keywords_a (join (u " ") h)); reflexivity.
  - intros h He Hm Hp Hapi. unfold classify. cbv zeta. rewrite He, Hm, Hp.
    destruct Hapi as [HA|[Ha Hb]].
    + rewrite HA. rewrite andb_false_r. reflexivity.
    + rewrite Ha, Hb. rewrite andb_false_r. reflexivity.
Qed.

Lemma classify_deterministic_priority_witness :
  classify [u "事件名"; u "说明"] = Events /\
  classify [u "方法名"; u "说明"] = Methods /\
  classify [u "参数"; u "说明"; u "类型"; u "默认值"] = Props /\
  classify [u "示例"; u "效果"] = Other /\
  classify [u "说明"; u "事件名"] = classify [u "事件名"; u "说明"; u "说明"].
Proof.
  destruct classify_deterministic_priority as (Hdet & He & Hm & Hp & Ho).
  split; [apply He; reflexivity|].
  split; [apply Hm; reflexivity|].
  split; [apply Hp; [reflexivity | reflexivity | left; reflexivity]|].
  split; [apply Ho; [reflexivity | reflexivity | reflexivity
                     | left; reflexivity]|].
  apply Hdet. intros x. split.
  - intros [H|[H|[]]]; [right; left; exact H | left; exact H].
  - intros [H|[H|[H|[]]]]; [right; left; exact H | left; exact H
                            | left; exact H].
Defined.

(** The events rule wins over the others because its keyword [on] is matched
    as a substring: a property table with a column [Option] is an events
    table. *)
Example classify_on_substring :
  classify [u "参数"; u "Option"; u "说明"] = Events.
Proof. reflexivity. Qed.

(** ** normalize_name *)

Lemma alnum_not_space (c : char) : is_alnum c = true -> is_space c = false.
Proof.
  unfold is_alnum, is_space. intros H.
  repeat (apply orb_true_iff in H; destruct H as [H|H]);
    apply andb_true_iff in H; destruct H as [H1 H2];
    apply N.leb_le in H1; apply N.leb_le in H2;
    repeat (apply orb_false_iff; split);
    try (apply andb_false_iff;
         first [ left; apply N.leb_gt; lia | right; apply N.leb_gt; lia ]);
    try (apply N.eqb_neq; lia).
Qed.

Lemma dropwhile_head (p : char -> bool) (s : str) :
  dropwhile p s = [] \/
  exists c t, dropwhile p s = c :: t /\ p c = false.
Proof.
  induction s as [|c s IH]; simpl; auto.
  destruct (p c) eqn:E; auto. right. eauto.
Qed.

Lemma dropwhile_keep (p : char -> bool) (c : char) (s : str) :
  p c = false -> dropwhile p (c :: s) = c :: s.
Proof. intros H. simpl. rewrite H. reflexivity. Qed.

Lemma dropwhile_snoc (p : char -> bool) (s : str) (c : char) :
  p c = false -> exists s', dropwhile p (s ++ [c]) = s' ++ [c].
Proof.
  intros H. induction s as [|x s IH]; simpl.
  - rewrite H. exists []. reflexivity.
  - destruct (p x); auto. exists (x :: s). reflexivity.
Qed.

(** Stripping keeps a first character that is not whitespace. *)
Lemma rstrip_head (c : char) (t : str) :
  is_space c = false -> exists t', rstrip (c :: t) = c :: t'.
Proof.
  intros H. unfold rstrip. simpl rev.
  destruct (dropwhile_snoc is_space (rev t) c H) as [s' Hs'].
  rewrite Hs'. rewrite rev_app_distr. simpl. eauto.
Qed.

Lemma strip_head (s : str) :
  strip s = [] \/ exists c t, strip s = c :: t /\ is_space c = false.
Proof.
  unfold strip, lstrip.
  destruct (dropwhile_head is_space s) as [E|(c & t & E & Hc)]; rewrite E.
  - left. reflexivity.
  - right. destruct (rstrip_head c t Hc) as [t' Ht']. eauto.
Qed.

Lemma strip_nonempty (s : str) :
  existsb non_space s = true -> strip s <> [].
Proof.
  intros H. unfold strip, lstrip.
  assert (Hd : exists c t, dropwhile is_space s = c :: t /\ is_space c = false).
  { induction s as [|x s IH]; simpl in *; [discriminate|].
    unfold non_space in H at 1.
    destruct (is_space x) eqn:E; simpl in H; eauto. }
  destruct Hd as (c & t & E & Hc). rewrite E.
  destruct (rstrip_head c t Hc) as [t' Ht']. rewrite Ht'. discriminate.
Qed.

Lemma forallb_rev {A} (p : A -> bool) (l : list A) :
  forallb p (rev l) = forallb p l.
Proof.
  induction l as [|a l IH]; simpl; [reflexivity|].
  rewrite forallb_app, IH. simpl. rewrite andb_true_r. apply andb_comm.
Qed.

Lemma dropwhile_none (s : str) :
  forallb non_space s = true -> dropwhile is_space s = s.
Proof.
  destruct s as [|c s]; simpl; [reflexivity|].
  unfold non_space at 1. intros H. apply andb_true_iff in H.
  destruct H as [H _]. apply negb_true_iff in H. rewrite H. reflexivity.
Qed.

(** A string without whitespace is its own [strip]. *)
Lemma strip_none (s : str) : forallb non_space s = true -> strip s = s.
Proof.
  intros H. unfold strip, lstrip, rstrip.
  rewrite (dropwhile_none s H).
  rewrite dropwhile_none by (rewrite forallb_rev; assumption).
  apply rev_involutive.
Qed.

Lemma takewhile_all (p : char -> bool) (s : str) :
  forallb p (takewhile p s) = true.
Proof.
  induction s as [|c s IH]; simpl; [reflexivity|].
  destruct (p c) eqn:E; simpl; [rewrite E, IH|]; reflexivity.
Qed.

Lemma takewhile_id (p : char -> bool) (s : str) :
  forallb p s = true -> takewhile p s = s.
Proof.
  induction s as [|c s IH]; simpl; [reflexivity|].
  intros H. apply andb_true_iff in H. destruct H as [Hc Hs].
  rewrite Hc, IH by assumption. reflexivity.
Qed.

Lemma forallb_impl {A} (p q : A -> bool) (l : list A) :
  (forall a, p a = true -> q a = true) ->
  forallb p l = true -> forallb q l = true.
Proof.
  intros Hpq. induction l as [|a l IH]; simpl; [reflexivity|].
  intros H. apply andb_true_iff in H. destruct H as [Ha Hl].
  rewrite (Hpq a Ha), IH by assumption. reflexivity.
Qed.

Lemma split_ws_cons (c d : char) (t : str) :
  split_ws (c :: d :: t)
  = if is_space c then split_ws (d :: t)
    else if is_space d then [c] :: split_ws (d :: t)
    else match split_ws (d :: t) with
         | w :: ws => (c :: w) :: ws
         | [] => [[c]]
         end.
Proof. reflexivity. Qed.

(** The first token of a string that starts with a non-space character. *)
Lemma split_ws_first (c : char) (t : str) :
  is_space c = false ->
  exists ws, split_ws (c :: t) = (c :: takewhile non_space t) :: ws.
Proof.
  revert c. induction t as [|d t IH]; intros c Hc.
  - simpl. rewrite Hc. eauto.
  - rewrite split_ws_cons, Hc. cbn [takewhile]. unfold non_space at 1.
    destruct (is_space d) eqn:Hd; simpl negb; cbv iota.
    + eauto.
    + destruct (IH d Hd) as [ws Hws]. rewrite Hws. eauto.
Qed.

(** A non-empty string without whitespace is a single token. *)
Lemma split_ws_single (s : str) :
  s <> [] -> forallb non_space s = true -> split_ws s = [s].
Proof.
  induction s as [|c s IH]; [congruence|]. intros _ H.
  simpl in H. apply andb_true_iff in H. destruct H as [Hc Hs].
  apply negb_true_iff in Hc.
  destruct s as [|d s]; [simpl; rewrite Hc; reflexivity|].
  assert (Hd : is_space d = false).
  { simpl in Hs. apply andb_true_iff in Hs. destruct Hs as [Hd _].
    apply negb_true_iff in Hd. exact Hd. }
  rewrite split_ws_cons, Hc, Hd.
  rewrite IH by (congruence || assumption). reflexivity.
Qed.

(** [normalize_name] returns a result for every label. *)
Lemma normalize_name_cases (L : str) :
  exists r,
    normalize_name L = Ok r /\
    (strip L = [] -> r = []) /\
    (strip L <> [] ->
     r <> [] /\ forallb non_space r = true /\
     (forallb is_alnum r = true
      \/ exists c t, r = c :: t /\ is_alnum c = false)).
Proof.
  unfold normalize_name, re_match_alnum.
  destruct (takewhile is_alnum (strip L)) as [|m0 m] eqn:Em.
  - destruct (strip_head L) as [E|(c & t & E & Hc)]; rewrite E in *.
    + exists []. simpl. repeat split; auto; congruence.
    + simpl str_truthy. cbv iota.
      destruct (split_ws_first c t Hc) as [ws Hws]. rewrite Hws.
      exists (c :: takewhile non_space t). unfold index. simpl.
      split; [reflexivity|]. split; [discriminate|]. intros _.
      split; [discriminate|]. split.
      * unfold non_space at 1. rewrite Hc. simpl. apply takewhile_all.
      * right. exists c, (takewhile non_space t). split; [reflexivity|].
        simpl in Em. destruct (is_alnum c); [discriminate | reflexivity].
  - exists (m0 :: m). split; [reflexivity|].
    assert (Hall : forallb is_alnum (m0 :: m) = true)
      by (rewrite <- Em; apply takewhile_all).
    split.
    + intros E. rewrite E in Em. discriminate.
    + intros _. split; [discriminate|]. split; [|left; exact Hall].
      revert Hall. apply forallb_impl. intros a Ha. unfold non_space.
      rewrite (alnum_not_space a Ha). reflexivity.
Qed.

(** The canonical name of every string is defined and idempotent, and it is
    non-empty whenever the string has a character that is not whitespace. *)
Lemma normalize_name_idempotent (L : str) :
  exists r,
    normalize_name L = Ok r /\
    normalize_name r = Ok r /\
    (existsb non_space L = true -> r <> []).
Proof.
  destruct (normalize_name_cases L) as (r & Hr & Hempty & Hfull).
  exists r. split; [exact Hr|]. split.
  - destruct (strip L) as [|c0 t0] eqn:ES.
    + rewrite (Hempty eq_refl). reflexivity.
    + destruct Hfull as (Hne & Hns & Hshape); [discriminate|].
      unfold normalize_name, re_match_alnum.
      rewrite (strip_none r Hns).
      destruct Hshape as [Hal|(c & t & -> & Hc)].
      * rewrite (takewhile_id is_alnum r Hal).
        destruct r; [congruence | reflexivity].
      * simpl takewhile. rewrite Hc. simpl str_truthy. cbv iota.
        rewrite (split_ws_single _ Hne Hns). reflexivity.
  - intros H. apply Hfull. apply strip_nonempty. exact H.
Qed.

(** The text of the spans of a menu anchor, joined, is a label as well. *)
Lemma concat_label_text (parts : list str) :
  Forall (fun part => label_text part = true) parts ->
  label_text (List.concat parts) = true.
Proof.
  induction 1 as [|part parts Hpart _ IH]; [reflexivity|].
  cbn [List.concat]. destruct part as [|c t]; [exact IH | exact Hpart].
Qed.

Lemma menu_label_text (li : MenuLink) (s : Summary) :
  Forall (fun part => label_text part = true) (link_spans li) ->
  label_text (link_text li) = true ->
  menu_summary li = Ok s -> label_text (display_name s) = true.
Proof.
  intros Hspans Htext. unfold menu_summary.
  pose proof (concat_label_text (link_spans li) Hspans) as Hjoin.
  destruct (List.concat (link_spans li)) as [|c t].
  - destruct (normalize_name (link_text li)); cbn [rbind]; [|discriminate].
    intros [= <-]. exact Htext.
  - destruct (normalize_name (c :: t)); cbn [rbind]; [|discriminate].
    intros [= <-]. exact Hjoin.
Qed.

(** C3. For every label [L] given to [normalize_name], the canonical name
    is defined, it is non-empty whenever [L] is non-empty, and it is
    idempotent: the canonical name of the canonical name is the canonical
    name. Idempotence holds for every string. *)
Theorem normalize_name_of_label (L : str) :
  exists r,
    normalize_name L = Ok r /\
    normalize_name r = Ok r /\
    (label_text L = true -> L <> [] -> r <> []).
Proof.
  destruct (normalize_name_idempotent L) as (r & Hr & Hidem & Hne).
  exists r. split; [exact Hr|]. split; [exact Hidem|].
  intros Hlabel HL. apply Hne.
  destruct L as [|c t]; [congruence|].
  cbn [label_text] in Hlabel. cbn [existsb]. rewrite Hlabel. reflexivity.
Qed.

Lemma normalize_name_of_label_witness :
  exists r,
    normalize_name (u "按钮 Button") = Ok r /\
    normalize_name r = Ok r /\ r <> [].
Proof.
  destruct (normalize_name_of_label (u "按钮 Button"))
    as (r & H1 & H2 & H3).
  exists r. split; [exact H1|]. split; [exact H2|].
  apply H3; [reflexivity | discriminate].
Defined.

(** A string made of whitespace, which is not a label, has the empty
    canonical name. *)
Example normalize_name_blank :
  label_text (u " ") = false /\ normalize_name (u " ") = Ok [].
Proof. split; reflexivity. Qed.

(** ** The catalog *)

Section Catalog.
Context {P : Platform}.

Lemma is_valid_good_url (c : Summary) : is_valid c = true -> good_url c.
Proof.
  unfold is_valid, good_url. destruct (url c) as [t|]; [|discriminate].
  destruct (str_truthy t) eqn:Et; cbn [negb orb]; [|discriminate].
  destruct (contains (u "/components/") t) eqn:Ec; cbn [negb]; [|discriminate].
  destruct (startswith (u "http://") t || startswith (u "https://") t) eqn:E;
    cbn [negb]; [|discriminate].
  intros _. exists t. split; [reflexivity|]. split.
  - intros ->. discriminate.
  - split; [|exact Ec]. apply orb_true_iff. exact E.
Qed.

Lemma keys_sset {V} (k : str) (v : V) (d : sdict V) (x : str) :
  In x (dict_keys (sset k v d)) -> x = k \/ In x (dict_keys d).
Proof.
  unfold dict_keys, sset. induction d as [|[k0 v0] d IH]; simpl.
  - intros [<-|[]]. auto.
  - destruct (str_eqb k k0) eqn:E; simpl.
    + intros [<-|H]; auto.
    + intros [<-|H]; auto. destruct (IH H); auto.
Qed.

Lemma nodup_sset {V} (k : str) (v : V) (d : sdict V) :
  NoDup (dict_keys d) -> NoDup (dict_keys (sset k v d)).
Proof.
  unfold dict_keys, sset. induction d as [|[k0 v0] d IH]; simpl; intros H.
  - constructor; [intros []|constructor].
  - inversion H as [|? ? Hnot Hrest]; subst.
    destruct (str_eqb k k0) eqn:E; simpl.
    + constructor; assumption.
    + constructor; [|apply IH; assumption].
      intros Hin. destruct (keys_sset k v d k0 Hin) as [->|Hd].
      * rewrite str_eqb_refl in E. discriminate.
      * contradiction.
Qed.

Lemma cleaned_ok_sset (d : sdict Summary) (c : Summary) :
  cleaned_ok d -> is_valid c = true ->
  cleaned_ok (sset (lower (name c)) c d).
Proof.
  intros [Hnd Hall] Hc. split.
  - apply nodup_sset. exact Hnd.
  - intros k v Hin. destruct (In_sset _ _ _ _ _ Hin) as [[-> ->]|Hd]; auto.
Qed.

Lemma cleaned_ok_step (d : sdict Summary) (c : Summary) :
  cleaned_ok d -> cleaned_ok (merge_step d c).
Proof.
  intros Hd. unfold merge_step.
  destruct (is_valid c) eqn:Hc; simpl; [|exact Hd].
  destruct (sget (lower (name c)) d) as [kept|].
  - destruct (Nat.ltb _ _); [apply cleaned_ok_sset|]; assumption.
  - apply cleaned_ok_sset; assumption.
Qed.

Lemma cleaned_ok_fold (l : list Summary) (d : sdict Summary) :
  cleaned_ok d -> cleaned_ok (fold_left merge_step l d).
Proof.
  revert d. induction l as [|c l IH]; simpl; intros d Hd; [exact Hd|].
  apply IH, cleaned_ok_step, Hd.
Qed.

Lemma cleaned_ok_empty : cleaned_ok [].
Proof. split; [constructor | intros k v []]. Qed.

Lemma merge_step_get (k : str) (d : sdict Summary) (c : Summary) :
  sget k (merge_step d c) = pick k (sget k d) c.
Proof.
  unfold merge_step, pick, candidate, has_key.
  destruct (is_valid c); simpl; [|reflexivity].
  destruct (str_eqb (lower (name c)) k) eqn:E.
  - apply str_eqb_eq in E. subst k.
    destruct (sget (lower (name c)) d) as [kept|] eqn:G.
    + destruct (Nat.ltb _ _); [|exact G].
      rewrite sget_sset, str_eqb_refl. reflexivity.
    + rewrite sget_sset, str_eqb_refl. reflexivity.
  - rewrite str_eqb_sym in E.
    destruct (sget (lower (name c)) d) as [kept|].
    + destruct (Nat.ltb _ _); [|reflexivity].
      rewrite sget_sset, E. reflexivity.
    + rewrite sget_sset, E. reflexivity.
Qed.

Lemma fold_merge_get (k : str) (l : list Summary) (d : sdict Summary) :
  sget k (fold_left merge_step l d) = fold_left (pick k) l (sget k d).
Proof.
  revert d. induction l as [|c l IH]; simpl; intros d; [reflexivity|].
  rewrite IH, merge_step_get. reflexivity.
Qed.

(** The values stored in [cleaned] for one key. *)
Lemma values_by_key (k : str) (d : sdict Summary) :
  cleaned_ok d ->
  filter (has_key k) (dict_values d)
  = match sget k d with Some v => [v] | None => [] end.
Proof.
  unfold dict_values, sget.
  induction d as [|[k0 v0] d IH]; intros [Hnd Hall]; simpl; [reflexivity|].
  assert (Hk0 : k0 = lower (name v0)) by (apply (Hall k0 v0); left; reflexivity).
  inversion Hnd as [|? ? Hnot Hrest]; subst.
  assert (Hd : cleaned_ok d).
  { split; [exact Hrest|]. intros k' v' Hin. apply Hall. right. exact Hin. }
  unfold has_key at 1. rewrite (str_eqb_sym k (lower (name v0))).
  destruct (str_eqb (lower (name v0)) k) eqn:E.
  - apply str_eqb_eq in E. subst k. f_equal.
    rewrite IH by exact Hd.
    destruct (dict_get str_eqb (lower (name v0)) d) as [v|] eqn:G;
      [|reflexivity].
    exfalso. apply Hnot. apply sget_In in G.
    apply (in_map fst) in G. exact G.
  - apply IH. exact Hd.
Qed.

Lemma pick_fold_some (k : str) (l : list Summary) (b : Summary) :
  exists e,
    fold_left (pick k) l (Some b) = Some e /\
    ((e = b /\ forall x, In x l -> candidate k x = true -> dlen x <= dlen b)
     \/ exists pre post,
         l = pre ++ e :: post /\ candidate k e = true /\ dlen b < dlen e /\
         (forall x, In x pre -> candidate k x = true -> dlen x < dlen e) /\
         (forall x, In x post -> candidate k x = true -> dlen x <= dlen e)).
Proof.
  revert b. induction l as [|x l IH]; intros b; simpl.
  - exists b. split; [reflexivity|]. left. split; [reflexivity|]. intros x [].
  - unfold pick at 2. destruct (candidate k x) eqn:Cx.
    + fold (dlen b) (dlen x). destruct (Nat.ltb (dlen b) (dlen x)) eqn:Lt.
      * apply Nat.ltb_lt in Lt.
        destruct (IH x) as (e & He & [[-> Hle]|(pre & post & -> & Ce & Hlt & Hpre & Hpost)]).
        -- exists x. split; [exact He|]. right. exists [], l.
           repeat split; auto. intros y [].
        -- exists e. split; [exact He|]. right. exists (x :: pre), post.
           repeat split; auto; try lia.
           intros y [<-|Hy] Cy; [lia | auto].
      * apply Nat.ltb_ge in Lt.
        destruct (IH b) as (e & He & [[-> Hle]|(pre & post & -> & Ce & Hlt & Hpre & Hpost)]).
        -- exists b. split; [exact He|]. left. split; [reflexivity|].
           intros y [<-|Hy] Cy; [lia | auto].
        -- exists e. split; [exact He|]. right. exists (x :: pre), post.
           repeat split; auto.
           intros y [<-|Hy] Cy; [lia | auto].
    + destruct (IH b) as (e & He & [[-> Hle]|(pre & post & -> & Ce & Hlt & Hpre & Hpost)]).
      * exists b. split; [exact He|]. left. split; [reflexivity|].
        intros y [<-|Hy] Cy; [congruence | auto].
      * exists e. split; [exact He|]. right. exists (x :: pre), post.
        repeat split; auto.
        intros y [<-|Hy] Cy; [congruence | auto].
Qed.

Lemma pick_fold_none (k : str) (l : list Summary) :
  (fold_left (pick k) l None = None /\
   forall x, In x l -> candidate k x = false)
  \/ exists e pre post,
      fold_left (pick k) l None = Some e /\
      l = pre ++ e :: post /\ candidate k e = true /\
      (forall x, In x pre -> candidate k x = true -> dlen x < dlen e) /\
      (forall x, In x post -> candidate k x = true -> dlen x <= dlen e).
Proof.
  induction l as [|x l IH]; simpl.
  - left. split; [reflexivity|]. intros x [].
  - assert (E : pick k None x = if candidate k x then Some x else None)
      by reflexivity.
    rewrite E. clear E. destruct (candidate k x) eqn:Cx.
    + right.
      destruct (pick_fold_some k l x)
        as (e & He & [[-> Hle]|(pre & post & -> & Ce & Hlt & Hpre & Hpost)]).
      * exists x, [], l. split; [exact He|]. split; [reflexivity|].
        split; [exact Cx|]. split; [intros y []|exact Hle].
      * exists e, (x :: pre), post. split; [exact He|].
        split; [reflexivity|]. split; [exact Ce|]. split; [|exact Hpost].
        intros y [<-|Hy] Cy; [lia | auto].
    + destruct IH as [[Hn Hall]|(e & pre & post & He & -> & Ce & Hpre & Hpost)].
      * left. split; [exact Hn|]. intros y [<-|Hy]; auto.
      * right. exists e, (x :: pre), post. split; [exact He|].
        split; [reflexivity|]. split; [exact Ce|]. split; [|exact Hpost].
        intros y [<-|Hy] Cy; [congruence | auto].
Qed.

(** The catalog has at most one entry per key: the summary picked for it. *)
Lemma merge_by_key (k : str) (components : list Summary) :
  filter (has_key k) (merge components)
  = match fold_left (pick k) components None with
    | Some e => [e]
    | None => []
    end.
Proof.
  unfold merge. rewrite values_by_key.
  - rewrite fold_merge_get. reflexivity.
  - apply cleaned_ok_fold, cleaned_ok_empty.
Qed.




(** C6 (amended). Among the raw summaries that pass the URL validation, those
    with one lower-cased name leave exactly one entry in the catalog: the one
    with the longest display name, the first seen among the longest. *)
Theorem merge_keeps_longest_first_seen
  (components : list Summary) (c1 c2 : Summary) :
  In c1 components -> In c2 components ->
  is_valid c1 = true -> is_valid c2 = true ->
  lower (name c1) = lower (name c2) ->
  exists e pre post,
    filter (has_key (lower (name c1))) (merge components) = [e] /\
    components = pre ++ e :: post /\
    is_valid e = true /\ lower (name e) = lower (name c1) /\
    dlen c1 <= dlen e /\ dlen c2 <= dlen e /\
    (forall x, In x pre -> is_valid x = true ->
               lower (name x) = lower (name c1) -> dlen x < dlen e) /\
    (forall x, In x post -> is_valid x = true ->
               lower (name x) = lower (name c1) -> dlen x <= dlen e).
Proof.
  intros In1 In2 V1 V2 Hk. set (k := lower (name c1)).
  assert (Cand : forall x, is_valid x = true -> lower (name x) = k ->
                           candidate k x = true).
  { intros x Vx Kx. unfold candidate, has_key. rewrite Vx, Kx.
    apply str_eqb_refl. }
  assert (C1 : candidate k c1 = true) by (apply Cand; auto).
  assert (C2 : candidate k c2 = true) by (apply Cand; auto).
  rewrite merge_by_key.
  destruct (pick_fold_none k components)
    as [[_ Hnone]|(e & pre & post & He & Hsplit & Ce & Hpre & Hpost)].
  - rewrite (Hnone c1 In1) in C1. discriminate.
  - assert (Bound : forall x, In x components -> candidate k x = true ->
                              dlen x <= dlen e).
    { intros x Hin Cx. rewrite Hsplit in Hin. apply in_app_or in Hin.
      destruct Hin as [Hin|[<-|Hin]]; [|lia|auto].
      specialize (Hpre x Hin Cx). lia. }
    exists e, pre, post. rewrite He.
    unfold candidate, has_key in Ce. apply andb_true_iff in Ce.
    destruct Ce as [Ve Ke]. apply str_eqb_eq in Ke.
    split; [reflexivity|]. split; [exact Hsplit|]. split; [exact Ve|].
    split; [exact Ke|]. split; [auto|]. split; [auto|]. split.
    + intros x Hin Vx Kx. auto.
    + intros x Hin Vx Kx. auto.
Qed.

(** Two valid summaries with one key: the second replaces the first only if
    its display name is strictly longer. *)
Lemma merge_pair (c1 c2 : Summary) :
  is_valid c1 = true -> is_valid c2 = true ->
  lower (name c1) = lower (name c2) ->
  merge [c1; c2] = [if Nat.ltb (dlen c1) (dlen c2) then c2 else c1].
Proof.
  intros V1 V2 Hk. unfold merge. cbn [fold_left].
  assert (E1 : merge_step [] c1 = [(lower (name c1), c1)]).
  { unfold merge_step. rewrite V1. reflexivity. }
  rewrite E1. unfold merge_step. rewrite V2. cbn [negb].
  unfold sget, sset. cbn [dict_get dict_set]. rewrite <- Hk, str_eqb_refl.
  fold (dlen c1) (dlen c2).
  destruct (Nat.ltb (dlen c1) (dlen c2)); reflexivity.
Qed.

End Catalog.

Lemma merge_keeps_longest_first_seen_witness :
  exists e pre post,
    filter (@has_key all_pages (u "button"))
           (@merge all_pages [sample_short; sample_long]) = [e] /\
    [sample_short; sample_long] = pre ++ e :: post /\
    dlen sample_short <= dlen e /\ dlen sample_long <= dlen e.
Proof.
  destruct (@merge_keeps_longest_first_seen all_pages
              [sample_short; sample_long] sample_short sample_long)
    as (e & pre & post & H1 & H2 & _ & _ & H5 & H6 & _);
    [left; reflexivity | right; left; reflexivity
     | vm_compute; reflexivity | vm_compute; reflexivity
     | vm_compute; reflexivity |].
  exists e, pre, post. auto.
Defined.

(** C6 as stated fails when the longer summary of the pair has no valid URL:
    the catalog keeps the shorter one. *)
Lemma merge_drops_longer_invalid :
  @lower all_pages (name sample_long_unlinked)
  = @lower all_pages (name sample_short) /\
  dlen sample_short < dlen sample_long_unlinked /\
  @merge all_pages [sample_long_unlinked; sample_short] = [sample_short].
Proof.
  split; [vm_compute; reflexivity|].
  split; [vm_compute; lia | vm_compute; reflexivity].
Qed.

(** ** Rows of a table *)

Lemma index_nth {A} (l : list A) (i : nat) (a : A) :
  nth_error l i = Some a -> index l i = Ok a.
Proof. unfold index. intros ->. reflexivity. Qed.

Lemma mapM_map {A B C} (f : B -> result C) (g : A -> B) (l : list A) :
  mapM f (map g l) = mapM (fun a => f (g a)) l.
Proof.
  induction l as [|a l IH]; simpl; [reflexivity|]. rewrite IH. reflexivity.
Qed.

Lemma mapM_ext {A B} (f g : A -> result B) (l : list A) :
  (forall a, f a = g a) -> mapM f l = mapM g l.
Proof.
  intros H. induction l as [|a l IH]; simpl; [reflexivity|].
  rewrite H, IH. reflexivity.
Qed.

(** The comprehension over [range(len(header))] pairs labels and cells. *)
Lemma zip_by_index (header cells : list str) :
  List.length header = List.length cells ->
  mapM (fun i => h <- index header i ;; c <- index cells i ;; Ok (h, c))%res
       (seq 0 (List.length header))
  = Ok (combine header cells).
Proof.
  revert cells. induction header as [|h header IH]; intros [|c cells] Hlen;
    try discriminate; [reflexivity|].
  simpl in Hlen. injection Hlen as Hlen.
  cbn [List.length seq mapM]. rewrite <- seq_shift, mapM_map.
  rewrite (mapM_ext _ (fun i => h' <- index header i ;;
                                c' <- index cells i ;; Ok (h', c'))%res)
    by reflexivity.
  rewrite (IH cells Hlen). reflexivity.
Qed.

Lemma extract_row_shape (header cells : list str) :
  cells <> [] ->
  extract_row header cells
  = Ok (if Nat.eqb (List.length header) (List.length cells)
        then mapping_row header cells
        else positional_row cells).
Proof.
  intros Hne. unfold extract_row.
  destruct (Nat.eqb (List.length header) (List.length cells)) eqn:E.
  - apply Nat.eqb_eq in E.
    destruct header as [|h header].
    + destruct cells; [congruence | discriminate].
    + cbn [andb]. rewrite (zip_by_index (h :: header) cells E). reflexivity.
  - rewrite andb_false_r. reflexivity.
Qed.

Lemma Forall_sset {V} (Q : str * V -> Prop) (k : str) (v : V) (d : sdict V) :
  (forall k', Q (k', v)) -> Forall Q d -> Forall Q (sset k v d).
Proof.
  intros Hv Hd. apply Forall_forall. intros [k0 v0] Hin.
  destruct (In_sset _ _ _ _ _ Hin) as [[-> ->]|Hold]; [apply Hv|].
  rewrite Forall_forall in Hd. apply (Hd _ Hold).
Qed.

Lemma mapping_row_texts (header cells : list str) :
  Forall (fun kv => exists s, snd kv = CStr s) (mapping_row header cells).
Proof.
  unfold mapping_row.
  generalize (combine header cells). intros pairs.
  assert (H : Forall (fun kv : str * cellval => exists s, snd kv = CStr s) [])
    by constructor.
  revert H. generalize (@nil (str * cellval)).
  induction pairs as [|[h c] pairs IH]; intros d Hd; simpl; [exact Hd|].
  apply IH. apply Forall_sset; [intros k'; simpl; eauto | exact Hd].
Qed.

Lemma extract_row_ok (header cells : list str) :
  cells <> [] ->
  exists r, extract_row header cells = Ok r /\ row_ok r.
Proof.
  intros Hne. rewrite (extract_row_shape header cells Hne).
  eexists. split; [reflexivity|].
  destruct (Nat.eqb _ _).
  - right. apply mapping_row_texts.
  - left. unfold positional_row, shas, dict_has. cbn [dict_get].
    rewrite str_eqb_refl. reflexivity.
Qed.

Lemma extract_rows_ok (header : list str) (trs : list (list str)) :
  exists rs, extract_rows header trs = Ok rs /\ Forall row_ok rs.
Proof.
  induction trs as [|cells trs IH].
  - exists []. split; [reflexivity | constructor].
  - destruct IH as (rs & Hrs & Hok). destruct cells as [|c cells].
    + exists rs. split; assumption.
    + destruct (extract_row_ok header (c :: cells)) as (r & Hr & Hrok);
        [discriminate|].
      exists (r :: rs). cbn [extract_rows]. rewrite Hr, Hrs.
      split; [reflexivity | constructor; assumption].
Qed.

(** ** normalize_row *)

Lemma norm_ok_sset (k : str) (s : str) (n : NormRow) :
  norm_ok n -> norm_ok (sset k (NStr s) n).
Proof.
  intros H. apply Forall_sset; [|exact H]. intros k'. right. simpl. eauto.
Qed.

Lemma cell_at_text (v : cellval) (i : nat) :
  i < cell_len v -> exists s, cell_at v i = Ok (NStr s).
Proof.
  destruct v as [s|l]; unfold cell_len, len, cell_at; intros Hi.
  - destruct (nth_error s i) as [c|] eqn:E.
    + rewrite (index_nth s i c E). simpl. eauto.
    + apply nth_error_None in E. lia.
  - destruct (nth_error l i) as [c|] eqn:E.
    + rewrite (index_nth l i c E). simpl. eauto.
    + apply nth_error_None in E. lia.
Qed.

Lemma map_cells_cons (row : Row) (v : cellval) (i : nat) (h : str)
  (rest : list str) (n : NormRow) :
  sget (u "cells") row = Some v ->
  map_cells row i (h :: rest) n
  = (n' <- (if Nat.ltb i (cell_len v)
            then (x <- cell_at v i ;; Ok (sset (synonym h) x n))
            else Ok n) ;;
     map_cells row (S i) rest n')%res.
Proof.
  intros Hv. cbn [map_cells]. unfold dict_item. unfold sget in Hv.
  rewrite Hv. reflexivity.
Qed.

Lemma map_cells_total (row : Row) (v : cellval) (header : list str) :
  sget (u "cells") row = Some v ->
  forall i n, norm_ok n ->
  exists n', map_cells row i header n = Ok n' /\ norm_ok n'.
Proof.
  intros Hv. induction header as [|h rest IH]; intros i n Hn.
  - exists n. split; [reflexivity | exact Hn].
  - rewrite (map_cells_cons row v i h rest n Hv).
    destruct (Nat.ltb i (cell_len v)) eqn:Lt.
    + apply Nat.ltb_lt in Lt. destruct (cell_at_text v i Lt) as [s Hs].
      rewrite Hs. cbn [rbind]. apply IH. apply norm_ok_sset, Hn.
    + cbn [rbind]. apply IH, Hn.
Qed.

Lemma map_items_norm_ok (row : Row) (n : NormRow) :
  Forall (fun kv => exists s, snd kv = CStr s) row ->
  norm_ok n -> norm_ok (map_items row n).
Proof.
  unfold map_items. revert n.
  induction row as [|[k v] row IH]; intros n Hrow Hn; [exact Hn|].
  inversion Hrow as [|? ? [s Hs] Hrest]; subst. simpl in Hs. subst v.
  cbn [fold_left fst snd nval_of_cell]. apply IH; [exact Hrest|].
  apply norm_ok_sset, Hn.
Qed.

Lemma map_fields_total (row : Row) (header : list str) :
  row_ok row ->
  exists n, map_fields row header = Ok n /\ norm_ok n.
Proof.
  intros Hrow. unfold map_fields.
  assert (H0 : norm_ok [(u "raw", NRow row)]).
  { constructor; [left; reflexivity | constructor]. }
  destruct (shas (u "cells") row) eqn:Hc.
  - destruct (shas_sget _ _ Hc) as [v Hv].
    apply (map_cells_total row v header Hv 0 _ H0).
  - destruct Hrow as [Hhas|Htexts]; [congruence|].
    eexists. split; [reflexivity|]. apply map_items_norm_ok; assumption.
Qed.

Lemma split_char_nonempty (sep : char) (s : str) :
  exists w ws, split_char sep s = w :: ws.
Proof.
  induction s as [|c s IH]; simpl; [eauto|].
  destruct (char_eqb c sep); [eauto|].
  destruct IH as (w & ws & ->). eauto.
Qed.

Lemma name_is_not_raw : u "name" <> u "raw".
Proof. vm_compute. discriminate. Qed.

Lemma cleanup_name_total (n : NormRow) :
  norm_ok n -> exists n', cleanup_name n = Ok n' /\ norm_ok n'.
Proof.
  intros Hn. unfold cleanup_name.
  destruct (sget (u "name") n) as [nm|] eqn:G; [|eauto].
  destruct (nval_truthy nm) eqn:T; [|eauto].
  apply sget_In in G. unfold norm_ok in Hn. rewrite Forall_forall in Hn.
  destruct (Hn _ G) as [Hraw|[s Hs]].
  - exfalso. apply name_is_not_raw. exact Hraw.
  - simpl in Hs. subst nm.
    destruct (split_char_nonempty 10%N s) as (w & ws & Hw). rewrite Hw.
    unfold index. cbn [nth_error rbind]. eexists. split; [reflexivity|].
    apply norm_ok_sset. apply Forall_forall. exact Hn.
Qed.

(** [normalize_row] does not raise on the rows [extract_row] builds. *)
Lemma normalize_row_total (row : Row) (header : list str) :
  row_ok row -> exists n, normalize_row row header = Ok n.
Proof.
  intros Hrow. unfold normalize_row.
  destruct (map_fields_total row header Hrow) as (n0 & H0 & Hok0).
  destruct (cleanup_name_total n0 Hok0) as (n1 & H1 & _).
  rewrite H0. cbn [rbind]. rewrite H1. cbn [rbind]. eauto.
Qed.

(** ** parse_component *)

Lemma table_object_ok (tbl : Table) :
  exists t k, table_object tbl = Ok (t, k) /\ Forall row_ok (rows t).
Proof.
  unfold table_object.
  destruct (extract_rows_ok (thead_th tbl) (tbody_tr tbl)) as (rs & Hrs & Hok).
  rewrite Hrs. cbn [rbind]. eexists. eexists. split; [reflexivity|]. exact Hok.
Qed.

Lemma of_kind_In (k : Kind) (l : list (TableObj * Kind)) (t : TableObj) :
  In t (of_kind k l) -> exists k', In (t, k') l.
Proof.
  unfold of_kind. intros H. apply in_map_iff in H.
  destruct H as ([t' k'] & <- & Hin). apply filter_In in Hin.
  destruct Hin as [Hin _]. exists k'. exact Hin.
Qed.

Lemma flatten_props_total (props_tables : list TableObj) :
  Forall (fun t => Forall row_ok (rows t)) props_tables ->
  exists flat, flatten_props props_tables = Ok flat.
Proof.
  intros Hok. unfold flatten_props.
  destruct (mapM_total
              (fun tbl => mapM (fun row => normalize_row row (header tbl))
                               (rows tbl)) props_tables)
    as (per & Hper & _).
  - intros t Ht. rewrite Forall_forall in Hok. specialize (Hok t Ht).
    destruct (mapM_total (fun row => normalize_row row (header t)) (rows t))
      as (ns & Hns & _); [|eauto].
    intros r Hr. rewrite Forall_forall in Hok.
    apply normalize_row_total, Hok, Hr.
  - rewrite Hper. cbn [rbind]. eauto.
Qed.

Lemma parse_component_soup_total (soup : Soup) :
  exists d, parse_component_soup soup = Ok d.
Proof.
  unfold parse_component_soup.
  destruct (mapM_total table_object (tables soup)) as (cl & Hcl & _).
  { intros tbl _. destruct (table_object_ok tbl) as (t & k & Ht & _). eauto. }
  rewrite Hcl. cbn [rbind].
  destruct (flatten_props_total (of_kind Props cl)) as (flat & Hflat).
  { apply Forall_forall. intros t Ht.
    destruct (of_kind_In Props cl t Ht) as [k Hin].
    destruct (mapM_In table_object (tables soup) cl Hcl (t, k) Hin)
      as (tbl & _ & Htbl).
    destruct (table_object_ok tbl) as (t' & k' & Ht' & Hok).
    rewrite Ht' in Htbl. injection Htbl as <- <-. exact Hok. }
  rewrite Hflat. cbn [rbind]. eauto.
Qed.

Lemma parse_component_soup_empty (soup : Soup) :
  first_h1 soup = None -> paragraphs soup = [] ->
  tables soup = [] -> pre_codes soup = [] ->
  parse_component_soup soup = Ok empty_detail.
Proof.
  intros H1 H2 H3 H4. unfold parse_component_soup.
  rewrite H1, H2, H3, H4. reflexivity.
Qed.

Section Detail.
Context {P : Platform}.

(** C8 as stated fails: the markup [<p>], U+D800, [</p>] is a Python [str],
    and [parse_component] raises [UnicodeEncodeError] on it. *)
Lemma parse_component_surrogate_markup :
  exists e,
    @parse_component all_pages
      [60; 112; 62; 55296; 60; 47; 112; 62]%N = Raise e /\
    exn_type e = UnicodeEncodeError.
Proof. eexists. split; vm_compute; reflexivity. Qed.

(** C8 (amended). For every markup without a surrogate code point, which is
    every text [fetch_url] returns, [parse_component] returns a detail and
    does not raise; when the page has no heading, no paragraph, no table and
    no code block the detail has an empty intro, no tables of any kind, zero
    table counts, no examples and an empty [props_flat]. On a markup with a
    surrogate it raises the [UnicodeEncodeError] of the parser. *)
Theorem parse_component_raises_only_on_surrogates (html : str) :
  (encodable html = true ->
   (exists d, parse_component html = Ok d) /\
   (first_h1 (BeautifulSoup html) = None ->
    paragraphs (BeautifulSoup html) = [] ->
    tables (BeautifulSoup html) = [] ->
    pre_codes (BeautifulSoup html) = [] ->
    parse_component html = Ok empty_detail)) /\
  (encodable html = false ->
   exists e, parse_component html = Raise e /\
             exn_type e = UnicodeEncodeError).
Proof.
  unfold parse_component. split; intros E; rewrite E.
  - split.
    + apply parse_component_soup_total.
    + apply parse_component_soup_empty.
  - eexists. split; reflexivity.
Qed.

End Detail.

Lemma parse_component_raises_only_on_surrogates_witness :
  @parse_component all_pages (u "<html></html>") = Ok empty_detail.
Proof.
  apply (@parse_component_raises_only_on_surrogates all_pages
           (u "<html></html>"));
    vm_compute; reflexivity.
Defined.

(** ** Fields of a normalized row *)

Lemma map_cells_other (row : Row) (v : cellval) (key : str)
  (header : list str) :
  sget (u "cells") row = Some v ->
  (forall h, In h header -> synonym h <> key) ->
  forall i n n', map_cells row i header n = Ok n' -> sget key n' = sget key n.
Proof.
  intros Hv. induction header as [|h rest IH]; intros Hother i n n'.
  - intros [= <-]. reflexivity.
  - rewrite (map_cells_cons row v i h rest n Hv).
    assert (Hrest : forall h', In h' rest -> synonym h' <> key)
      by (intros h' Hin; apply Hother; right; exact Hin).
    destruct (Nat.ltb i (cell_len v)).
    + destruct (cell_at v i) as [x|e]; cbn [rbind]; [|discriminate].
      intros Hn'. rewrite (IH Hrest _ _ _ Hn'), sget_sset.
      assert (E : str_eqb key (synonym h) = false).
      { apply str_eqb_neq. intros ->. apply (Hother h); [left|]; reflexivity. }
      rewrite E. reflexivity.
    + cbn [rbind]. apply IH, Hrest.
Qed.


Lemma map_cells_at (row : Row) (cells : list str) (lbl txt : str)
  (post : list str) :
  sget (u "cells") row = Some (CCells cells) ->
  (forall h, In h post -> synonym h <> synonym lbl) ->
  forall pre i n n',
    map_cells row i (pre ++ lbl :: post) n = Ok n' ->
    nth_error cells (i + List.length pre) = Some txt ->
    sget (synonym lbl) n' = Some (NStr txt).
Proof.
  intros Hv Hpost. induction pre as [|h pre IH]; intros i n n'.
  - cbn [app List.length]. rewrite Nat.add_0_r.
    rewrite (map_cells_cons row (CCells cells) i lbl post n Hv).
    intros Hn' Hnth.
    assert (Lt : Nat.ltb i (cell_len (CCells cells)) = true).
    { apply Nat.ltb_lt. cbn [cell_len]. apply nth_error_Some. congruence. }
    rewrite Lt in Hn'. cbn [cell_at] in Hn'.
    rewrite (index_nth cells i txt Hnth) in Hn'. cbn [rbind] in Hn'.
    rewrite (map_cells_other row (CCells cells) (synonym lbl) post Hv Hpost
               _ _ _ Hn').
    rewrite sget_sset, str_eqb_refl. reflexivity.
  - cbn [app List.length].
    rewrite (map_cells_cons row (CCells cells) i h (pre ++ lbl :: post) n Hv).
    intros Hn' Hnth. rewrite <- Nat.add_succ_comm in Hnth.
    destruct (Nat.ltb i (cell_len (CCells cells))).
    + destruct (cell_at (CCells cells) i) as [x|e]; cbn [rbind] in Hn';
        [|discriminate].
      apply (IH _ _ _ Hn' Hnth).
    + cbn [rbind] in Hn'. apply (IH _ _ _ Hn' Hnth).
Qed.

Lemma map_items_other (key : str) (row : Row) (n : NormRow) :
  (forall kv, In kv row -> synonym (fst kv) <> key) ->
  sget key (map_items row n) = sget key n.
Proof.
  unfold map_items. revert n.
  induction row as [|[k v] row IH]; intros n Hother; [reflexivity|].
  cbn [fold_left fst snd]. rewrite IH.
  - rewrite sget_sset.
    assert (E : str_eqb key (synonym k) = false).
    { apply str_eqb_neq. intros ->.
      apply (Hother (k, v)); [left|]; reflexivity. }
    rewrite E. reflexivity.
  - intros kv Hin. apply Hother. right. exact Hin.
Qed.

Lemma map_items_at (lbl : str) (v : cellval) (pre post : Row) (n : NormRow) :
  (forall kv, In kv post -> synonym (fst kv) <> synonym lbl) ->
  sget (synonym lbl) (map_items (pre ++ (lbl, v) :: post) n)
  = Some (nval_of_cell v).
Proof.
  intros Hpost. unfold map_items. rewrite fold_left_app.
  cbn [fold_left fst snd].
  change (fold_left _ post ?a) with (map_items post a).
  rewrite (map_items_other (synonym lbl) post _ Hpost).
  rewrite sget_sset, str_eqb_refl. reflexivity.
Qed.

Lemma cleanup_name_other (key : str) (n n' : NormRow) :
  key <> u "name" -> cleanup_name n = Ok n' -> sget key n' = sget key n.
Proof.
  intros Hkey. unfold cleanup_name.
  destruct (sget (u "name") n) as [nm|]; [|intros [= <-]; reflexivity].
  destruct (nval_truthy nm); [|intros [= <-]; reflexivity].
  destruct nm as [r|s|b|l]; try discriminate.
  destruct (index (split_char 10%N s) 0) as [first|e]; cbn [rbind];
    [|discriminate].
  intros [= <-]. rewrite sget_sset.
  apply str_eqb_neq in Hkey. rewrite Hkey. reflexivity.
Qed.

Lemma normalize_required_other (key : str) (n : NormRow) :
  key <> u "required" ->
  sget key (normalize_required n) = sget key n.
Proof.
  intros Hkey. apply str_eqb_neq in Hkey. unfold normalize_required.
  destruct (sget (u "required") n) as [[r|s|b|l]|]; try reflexivity.
  destruct (any_in affirmative_tokens s).
  - rewrite sget_sset, Hkey. reflexivity.
  - destruct (any_in negative_tokens s); [|reflexivity].
    rewrite sget_sset, Hkey. reflexivity.
Qed.


(** ** Mapping rows *)

Lemma combine_nth_error {A B} (l1 : list A) (l2 : list B) (a : A) (b : B) :
  In (a, b) (combine l1 l2) <->
  exists j, nth_error l1 j = Some a /\ nth_error l2 j = Some b.
Proof.
  revert l2. induction l1 as [|x l1 IH]; intros [|y l2]; simpl.
  - split; [intros [] | intros ([|j] & H & _); discriminate].
  - split; [intros [] | intros ([|j] & H & _); discriminate].
  - split; [intros [] | intros ([|j] & _ & H); discriminate].
  - rewrite IH. split.
    + intros [[= <- <-]|(j & H1 & H2)]; [exists 0 | exists (S j)]; auto.
    + intros ([|j] & H1 & H2); simpl in *.
      * left. congruence.
      * right. eauto.
Qed.

Lemma fold_row_In (pairs : list (str * str)) (d : Row) (k : str)
  (v : cellval) :
  In (k, v) (fold_left (fun d hc => sset (fst hc) (CStr (snd hc)) d) pairs d) ->
  In (k, v) d \/ exists c, v = CStr c /\ In (k, c) pairs.
Proof.
  revert d. induction pairs as [|[h c] pairs IH]; intros d; simpl; [auto|].
  intros H. destruct (IH _ H) as [Hd|(c' & -> & Hin)].
  - destruct (In_sset _ _ _ _ _ Hd) as [[-> ->]|Hold]; [right|left]; eauto.
  - right. eauto.
Qed.

Lemma keys_sset_mono {V} (k : str) (v : V) (d : sdict V) (x : str) :
  x = k \/ In x (dict_keys d) -> In x (dict_keys (sset k v d)).
Proof.
  unfold dict_keys, sset. induction d as [|[k0 v0] d IH]; simpl.
  - intros [->|[]]. auto.
  - destruct (str_eqb k k0) eqn:E; simpl.
    + apply str_eqb_eq in E. subst k0. intros [->|[<-|H]]; auto.
    + intros [->|[<-|H]]; auto.
Qed.

Lemma fold_row_keys (pairs : list (str * str)) (d : Row) (k : str) :
  In k (map fst pairs) \/ In k (dict_keys d) ->
  In k (dict_keys
          (fold_left (fun d hc => sset (fst hc) (CStr (snd hc)) d) pairs d)).
Proof.
  revert d. induction pairs as [|[h c] pairs IH]; intros d; simpl.
  - intros [[]|H]. exact H.
  - intros [[<-|H]|H]; apply IH; auto; right; apply keys_sset_mono; auto.
Qed.

Lemma mapping_row_In (header cells : list str) (k : str) (v : cellval) :
  In (k, v) (mapping_row header cells) ->
  exists c j, v = CStr c /\ nth_error header j = Some k
              /\ nth_error cells j = Some c.
Proof.
  unfold mapping_row. intros H.
  destruct (fold_row_In _ _ _ _ H) as [[]|(c & -> & Hin)].
  apply combine_nth_error in Hin. destruct Hin as (j & H1 & H2). eauto.
Qed.

Lemma mapping_row_has (header cells : list str) (j : nat) (k c : str) :
  nth_error header j = Some k -> nth_error cells j = Some c ->
  exists v, In (k, v) (mapping_row header cells).
Proof.
  intros H1 H2.
  assert (Hin : In (k, c) (combine header cells))
    by (apply combine_nth_error; eauto).
  assert (Hk : In k (dict_keys (mapping_row header cells))).
  { apply fold_row_keys. left. apply (in_map fst) in Hin. exact Hin. }
  unfold dict_keys in Hk. apply in_map_iff in Hk.
  destruct Hk as ([k' v] & Hfst & Hin'). simpl in Hfst. subst k'. eauto.
Qed.

Lemma last_split {A} (p : A -> bool) (l : list A) :
  existsb p l = true ->
  exists pre x post,
    l = pre ++ x :: post /\ p x = true /\
    forall y, In y post -> p y = false.
Proof.
  induction l as [|a l IH]; simpl; [discriminate|].
  destruct (existsb p l) eqn:E.
  - intros _. destruct (IH eq_refl) as (pre & x & post & -> & Hx & Hpost).
    exists (a :: pre), x, post. auto.
  - rewrite orb_false_r. intros Ha. exists [], a, l.
    split; [reflexivity|]. split; [exact Ha|].
    intros y Hy. destruct (p y) eqn:Ey; [|reflexivity].
    assert (existsb p l = true) by (apply existsb_exists; eauto). congruence.
Qed.

Lemma positional_has_cells (cells : list str) :
  sget (u "cells") (positional_row cells) = Some (CCells cells).
Proof.
  unfold positional_row, sget. cbn [dict_get]. rewrite str_eqb_refl.
  reflexivity.
Qed.

Lemma mapping_row_no_cells (header cells : list str) :
  ~ In (u "cells") header ->
  shas (u "cells") (mapping_row header cells) = false.
Proof.
  intros Hno. unfold shas, dict_has.
  destruct (dict_get str_eqb (u "cells") (mapping_row header cells))
    as [v|] eqn:G; [|reflexivity].
  exfalso. apply Hno. apply sget_In in G.
  destruct (mapping_row_In _ _ _ _ G) as (c & j & _ & Hj & _).
  apply (nth_error_In _ _ Hj).
Qed.

(** ** The required flag *)

Lemma required_is_not_name : u "required" <> u "name".
Proof. vm_compute. discriminate. Qed.








Example required_of_yes : required_of (u "是") = NBool true.
Proof. vm_compute. reflexivity. Qed.

Example required_of_no : required_of (u "否") = NBool false.
Proof. vm_compute. reflexivity. Qed.

(** Affirmative tokens are looked for first. *)
Example required_of_both : required_of (u "是否") = NBool true.
Proof. vm_compute. reflexivity. Qed.

Example required_of_unrecognized : required_of (u "视情况") = NStr (u "视情况").
Proof. vm_compute. reflexivity. Qed.


(** ** The raw field *)

Lemma synonym_raw (h : str) : synonym h = u "raw" -> h = u "raw".
Proof.
  unfold synonym. destruct (sget h header_synonyms) as [k|] eqn:G; [|auto].
  intros ->. exfalso. apply sget_In in G.
  assert (F : forallb (fun kv : str * str => negb (str_eqb (snd kv) (u "raw")))
                      header_synonyms = true) by (vm_compute; reflexivity).
  rewrite forallb_forall in F. specialize (F _ G). cbn [snd] in F.
  rewrite str_eqb_refl in F. discriminate.
Qed.

Lemma raw_is_not_name : u "raw" <> u "name".
Proof. vm_compute. discriminate. Qed.

Lemma raw_is_not_required : u "raw" <> u "required".
Proof. vm_compute. discriminate. Qed.

(** Normalization keeps the row under ['raw'] when no column is labelled
    [raw]. *)
Lemma raw_kept (header cells : list str) (row : Row) (n : NormRow) :
  cells <> [] -> ~ In (u "raw") header ->
  extract_row header cells = Ok row ->
  normalize_row row header = Ok n ->
  sget (u "raw") n = Some (NRow row).
Proof.
  intros Hne Hnoraw. rewrite (extract_row_shape header cells Hne).
  intros [= Hrow]. unfold normalize_row.
  destruct (map_fields row header) as [n0|e] eqn:H0; cbn [rbind];
    [|discriminate].
  destruct (cleanup_name n0) as [n1|e] eqn:H1; cbn [rbind]; [|discriminate].
  intros [= <-].
  rewrite (normalize_required_other (u "raw") n1 raw_is_not_required).
  rewrite (cleanup_name_other (u "raw") n0 n1 raw_is_not_name H1).
  assert (Hsyn : forall h, In h header -> synonym h <> u "raw").
  { intros h Hin Heq. apply synonym_raw in Heq. congruence. }
  assert (Hinit : sget (u "raw") [(u "raw", NRow row)] = Some (NRow row)).
  { unfold sget. cbn [dict_get]. rewrite str_eqb_refl. reflexivity. }
  unfold map_fields in H0. destruct (shas (u "cells") row) eqn:Hc.
  - destruct (shas_sget _ _ Hc) as [v Hv].
    rewrite (map_cells_other row v (u "raw") header Hv Hsyn _ _ _ H0).
    exact Hinit.
  - injection H0 as <-. rewrite map_items_other; [exact Hinit|].
    intros [k v] Hin. cbn [fst]. apply Hsyn.
    destruct (Nat.eqb (List.length header) (List.length cells)).
    + subst row. destruct (mapping_row_In _ _ _ _ Hin) as (c & j & _ & Hj & _).
      apply (nth_error_In _ _ Hj).
    + subst row. unfold shas, dict_has in Hc.
      pose proof (positional_has_cells cells) as Hp. unfold sget in Hp.
      rewrite Hp in Hc. discriminate.
Qed.

(** C5 at a property table with a column labelled [raw]: the cell of that
    column replaces the row under ['raw']. *)
Theorem raw_column_overwrites_raw :
  classify [u "参数"; u "raw"] = Props /\
  extract_row [u "参数"; u "raw"] [u "size"; u "b"]
  = Ok [(u "参数", CStr (u "size")); (u "raw", CStr (u "b"))] /\
  normalize_row [(u "参数", CStr (u "size")); (u "raw", CStr (u "b"))]
                [u "参数"; u "raw"]
  = Ok [(u "raw", NStr (u "b")); (u "name", NStr (u "size"))].
Proof.
  split; [vm_compute; reflexivity|].
  split; vm_compute; reflexivity.
Qed.

(** ** The export *)

Lemma no_error_left (l : list export_entry) :
  filter has_error (filter (fun d => negb (has_error d)) l) = [].
Proof.
  induction l as [|d l IH]; simpl; [reflexivity|].
  destruct (has_error d) eqn:E; simpl; [exact IH|]. rewrite E. exact IH.
Qed.

Section Exporter.
Context {P : Platform}.

Lemma collect_details_length (index : list Summary) (force : bool)
  (w : World) :
  List.length (fst (collect_details index force w)) = List.length index.
Proof.
  revert w. induction index as [|comp rest IH]; intros w; [reflexivity|].
  cbn [collect_details]. destruct (try_detail comp force w) as [r w1].
  specialize (IH w1). destruct (collect_details rest force w1) as [more w2].
  simpl in *. rewrite IH. reflexivity.
Qed.

(** With [validate] the reported number of errors is always zero. *)
Lemma export_errors_validated (force : bool) (path : value) (w w' : World)
  (r : ExportReturn) :
  export_all_components force path true w = (Ok r, w') -> errors r = 0.
Proof.
  unfold export_all_components.
  destruct (build_component_index force w) as [[index|e] w1];
    [|discriminate].
  destruct (collect_details index force w1) as [all w2].
  destruct (write_json _ _ w2) as [[[]|e] w3]; [|discriminate].
  intros [= <- _]. cbn [errors]. rewrite no_error_left. reflexivity.
Qed.

(** Without [validate] every catalog entry is counted and the errors are the
    entries whose detail could not be built. *)
Lemma export_counts_unvalidated (force : bool) (path : value) (w w' : World)
  (r : ExportReturn) :
  export_all_components force path false w = (Ok r, w') ->
  exists index w1,
    build_component_index force w = (Ok index, w1) /\
    count r = List.length index /\
    errors r
    = List.length (filter has_error (fst (collect_details index force w1))).
Proof.
  unfold export_all_components.
  destruct (build_component_index force w) as [[index|e] w1] eqn:B;
    [|discriminate].
  pose proof (collect_details_length index force w1) as Hlen.
  destruct (collect_details index force w1) as [all w2] eqn:C.
  destruct (write_json _ _ w2) as [[[]|e] w3]; [|discriminate].
  intros [= <- _]. exists index, w1. rewrite C. cbn [count errors fst] in *.
  split; [reflexivity|]. split; [exact Hlen | reflexivity].
Qed.

End Exporter.

(** C1 on a catalog of three components where the detail of the second
    cannot be fetched: one entry carries an error; with [validate] the export
    returns [count = 2] and [errors = 0], without it [count = 3] and
    [errors = 1]. *)
Theorem export_with_validate_reports_no_error :
  (exists index w1,
      @build_component_index table_fails false [] = (Ok index, w1) /\
      map name index = [u "Button"; u "Table"; u "Form"] /\
      map has_error (fst (@collect_details table_fails index false w1))
      = [false; true; false]) /\
  fst (@export_all_components table_fails false VNone true [])
  = Ok {| filepath := VStr (u "exports/antd_components_all.json");
          count := 2; errors := 0 |} /\
  fst (@export_all_components table_fails false VNone false [])
  = Ok {| filepath := VStr (u "exports/antd_components_all.json");
          count := 3; errors := 1 |}.
Proof.
  split.
  - eexists. eexists. split; [vm_compute; reflexivity|].
    split; vm_compute; reflexivity.
  - split; vm_compute; reflexivity.
Qed.

(** ** The tool server *)

Section Server.
Context {P : Platform}.

Lemma find_target_str (index : list Summary) (s : str) :
  find_target index (VStr s) = Ok (find (matches_name s) index).
Proof.
  induction index as [|c rest IH]; [reflexivity|].
  cbn [find_target find value_lower rbind]. unfold matches_name at 1.
  destruct (str_eqb (lower (name c)) (lower s)); [reflexivity | exact IH].
Qed.

Lemma str_truthy_nonempty (s : str) : s <> [] -> truthy (VStr s) = true.
Proof. destruct s; [congruence | reflexivity]. Qed.

(** The two lookup handlers up to the catalog lookup. *)
Lemma handle_get_component_found (params : sdict value) (s : str)
  (st st1 : ServerState) (w w1 : World) (index : list Summary) :
  vget (u "name") VNone params = VStr s -> s <> [] ->
  ensure_index (truthy (vget (u "force") (VBool false) params)) st w
  = (Ok index, st1, w1) ->
  handle_get_component (VDict params) st w
  = match find (matches_name s) index with
    | None => (Ok (RError (u "Component " ++ s ++ u " not found")), st1, w1)
    | Some target =>
        let '(r, st2, w2) :=
          cached_detail (url target)
            (truthy (vget (u "force") (VBool false) params)) st1 w1 in
        (rmap RDetail r, st2, w2)
    end.
Proof.
  intros Hname Hne Hidx. unfold handle_get_component, bind, lift, ret.
  cbn [as_dict]. rewrite Hname, (str_truthy_nonempty s Hne). cbn [negb].
  rewrite Hidx, find_target_str.
  destruct (find (matches_name s) index) as [target|]; [|reflexivity].
  destruct (cached_detail _ _ st1 w1) as [[[d|e] st2] w2]; reflexivity.
Qed.

Lemma handle_get_component_props_found (params : sdict value) (s : str)
  (st st1 : ServerState) (w w1 : World) (index : list Summary) :
  vget (u "name") VNone params = VStr s -> s <> [] ->
  ensure_index (truthy (vget (u "force") (VBool false) params)) st w
  = (Ok index, st1, w1) ->
  handle_get_component_props (VDict params) st w
  = match find (matches_name s) index with
    | None => (Ok (RError (u "Component " ++ s ++ u " not found")), st1, w1)
    | Some target =>
        let '(r, st2, w2) :=
          cached_detail (url target)
            (truthy (vget (u "force") (VBool false) params)) st1 w1 in
        (rmap (props_of s) r, st2, w2)
    end.
Proof.
  intros Hname Hne Hidx. unfold handle_get_component_props, bind, lift, ret.
  cbn [as_dict]. rewrite Hname, (str_truthy_nonempty s Hne). cbn [negb].
  rewrite Hidx, find_target_str.
  destruct (find (matches_name s) index) as [target|]; [|reflexivity].
  destruct (cached_detail _ _ st1 w1) as [[[d|e] st2] w2]; reflexivity.
Qed.

Lemma find_none_iff (s : str) (index : list Summary) :
  find (matches_name s) index = None <->
  forall c, In c index -> lower (name c) <> lower s.
Proof.
  split.
  - intros H c Hin Heq. pose proof (find_none _ _ H c Hin) as Hc.
    unfold matches_name in Hc. rewrite Heq, str_eqb_refl in Hc. discriminate.
  - intros H. destruct (find (matches_name s) index) as [c|] eqn:F;
      [|reflexivity].
    apply find_some in F. destruct F as [Hin Hm]. unfold matches_name in Hm.
    apply str_eqb_eq in Hm. exfalso. apply (H c Hin Hm).
Qed.

(** C10 (amended). A request without a name, or with an empty one, gets
    [{'error': 'Component name not provided in arguments'}]. For a non-empty
    name [s], [get_component] and [get_component_props] select the first
    catalog entry whose lower-cased name equals the lower-cased [s] and work
    on the detail of its URL; they return
    [{'error': 'Component <s> not found'}] exactly when the catalog has no
    such entry. *)
Theorem component_lookup_by_lowercase_name :
  (forall (params : sdict value) (st : ServerState) (w : World),
      truthy (vget (u "name") VNone params) = false ->
      handle_get_component (VDict params) st w
      = (Ok (RError (u "Component name not provided in arguments")), st, w) /\
      handle_get_component_props (VDict params) st w
      = (Ok (RError (u "Component name not provided in arguments")), st, w)) /\
  (forall (params : sdict value) (s : str) (st st1 : ServerState)
          (w w1 : World) (index : list Summary),
      vget (u "name") VNone params = VStr s -> s <> [] ->
      ensure_index (truthy (vget (u "force") (VBool false) params)) st w
      = (Ok index, st1, w1) ->
      (forall target,
          find (matches_name s) index = Some target ->
          In target index /\ lower (name target) = lower s /\
          exists r st2 w2,
            cached_detail (url target)
              (truthy (vget (u "force") (VBool false) params)) st1 w1
            = (r, st2, w2) /\
            handle_get_component (VDict params) st w
            = (rmap RDetail r, st2, w2) /\
            handle_get_component_props (VDict params) st w
            = (rmap (props_of s) r, st2, w2)) /\
      (outcome (handle_get_component (VDict params) st w)
       = Ok (RError (u "Component " ++ s ++ u " not found"))
       <-> forall c, In c index -> lower (name c) <> lower s) /\
      (outcome (handle_get_component_props (VDict params) st w)
       = Ok (RError (u "Component " ++ s ++ u " not found"))
       <-> forall c, In c index -> lower (name c) <> lower s)).
Proof.
  split.
  - intros params st w Hfalse.
    unfold handle_get_component, handle_get_component_props, bind, lift, ret.
    cbn [as_dict]. rewrite Hfalse. cbn [negb]. split; reflexivity.
  - intros params s st st1 w w1 index Hname Hne Hidx.
    pose proof (handle_get_component_found params s st st1 w w1 index
                  Hname Hne Hidx) as Hget.
    pose proof (handle_get_component_props_found params s st st1 w w1 index
                  Hname Hne Hidx) as Hprops.
    split; [|split].
    + intros target Hfind. rewrite Hfind in Hget, Hprops.
      pose proof (find_some _ _ Hfind) as [Hin Hm].
      unfold matches_name in Hm. apply str_eqb_eq in Hm.
      split; [exact Hin|]. split; [exact Hm|].
      destruct (cached_detail (url target) _ st1 w1) as [[r st2] w2].
      exists r, st2, w2. auto.
    + rewrite <- find_none_iff. rewrite Hget. unfold outcome.
      destruct (find (matches_name s) index) as [target|].
      * destruct (cached_detail (url target) _ st1 w1) as [[[d|e] st2] w2];
          cbn [fst rmap]; split; discriminate.
      * cbn [fst]. split; reflexivity.
    + rewrite <- find_none_iff. rewrite Hprops. unfold outcome.
      destruct (find (matches_name s) index) as [target|].
      * destruct (cached_detail (url target) _ st1 w1) as [[[d|e] st2] w2];
          cbn [fst rmap]; split; discriminate.
      * cbn [fst]. split; reflexivity.
Qed.

End Server.

Lemma component_lookup_by_lowercase_name_witness :
  outcome (@handle_get_component all_pages
             (VDict [(u "name", VStr (u "Select"))]) fresh [])
  = Ok (RError (u "Component " ++ u "Select" ++ u " not found")) /\
  outcome (@handle_get_component all_pages (VDict []) fresh [])
  = Ok (RError (u "Component name not provided in arguments")).
Proof.
  destruct (@component_lookup_by_lowercase_name all_pages) as [Hnone Hsome].
  split.
  - destruct (Hsome [(u "name", VStr (u "Select"))] (u "Select") fresh
                indexed [] [BASE_URL ++ OVERVIEW_PATH] demo_catalog)
      as (_ & Hiff & _).
    + vm_compute. reflexivity.
    + discriminate.
    + vm_compute. reflexivity.
    + apply Hiff.
      intros c [<-|[<-|[<-|[]]]]; vm_compute; discriminate.
  - destruct (Hnone [] fresh []) as [H _]; [reflexivity|].
    rewrite H. reflexivity.
Defined.

(** C10 as stated fails for the empty name: no catalog entry has it, and the
    answer is not the not-found error. *)
Lemma lookup_of_empty_name :
  exists index,
    outcome (@ensure_index all_pages false fresh []) = Ok index /\
    (forall c, In c index ->
               @lower all_pages (name c) <> @lower all_pages (u "")) /\
    outcome (@handle_get_component all_pages
               (VDict [(u "name", VStr (u ""))]) fresh [])
    = Ok (RError (u "Component name not provided in arguments")) /\
    u "Component name not provided in arguments"
    <> u "Component " ++ u "" ++ u " not found".
Proof.
  eexists. split; [vm_compute; reflexivity|]. split.
  - intros c [<-|[<-|[<-|[]]]]; vm_compute; discriminate.
  - split; [vm_compute; reflexivity | vm_compute; discriminate].
Qed.

(** ** Dispatch *)

Section Dispatch.
Context {P : Platform}.

Lemma tools_call_is_not_tools_list (method : value) :
  value_is_str method (u "tools/call") = true ->
  value_is_str method (u "tools/list") = false.
Proof.
  destruct method as [| | |t| |]; try discriminate. cbn [value_is_str].
  intros H. apply str_eqb_eq in H. subst t. vm_compute. reflexivity.
Qed.

(** The three envelopes of [tools/call], for a request whose [params] is an
    object (or is missing) and whose tool name is hashable (a string, a
    number, a boolean or null): a name that is not registered yields the
    error envelope with code -32601 and no exception; an exception raised by
    the handler of a registered tool yields the error envelope with code
    -32603; a result yields [{jsonrpc, id, result: {content: result}}]. *)
Lemma tools_call_envelopes (req params : sdict value) (st : ServerState)
  (w : World) :
  value_is_str (vget (u "method") VNone req) (u "tools/call") = true ->
  vget (u "params") (VDict []) req = VDict params ->
  hashable (vget (u "name") VNone params) = true ->
  let id_ := vget (u "id") VNone req in
  let tool_name := vget (u "name") VNone params in
  let arguments :=
    if truthy (vget (u "arguments") (VDict []) params)
    then vget (u "arguments") (VDict []) params else VDict [] in
  (registered tool_name = false ->
   process_request req st w
   = (Ok (ErrorEnvelope (u "2.0") id_ (-32601)
            (u "Unknown tool " ++ format_value tool_name)), st, w)) /\
  (registered tool_name = true ->
   forall e st1 w1,
     process_tool_call tool_name arguments st w = (Raise e, st1, w1) ->
     process_request req st w
     = (Ok (ErrorEnvelope (u "2.0") id_ (-32603)
              (u "Internal error: " ++ exn_msg e)), st1, w1)) /\
  (registered tool_name = true ->
   forall res st1 w1,
     process_tool_call tool_name arguments st w = (Ok res, st1, w1) ->
     process_request req st w
     = (Ok (ResultEnvelope (u "2.0") id_ (PContent res)), st1, w1)).
Proof.
  intros Hcall Hparams Hhash id_ tool_name arguments.
  assert (E : process_request req st w
              = if registered tool_name then
                  match process_tool_call tool_name arguments st w with
                  | (Ok res, st1, w1) =>
                      (Ok (rpc_result id_ (PContent res)), st1, w1)
                  | (Raise e, st1, w1) =>
                      (Ok (rpc_error id_ (-32603)
                             (u "Internal error: " ++ exn_msg e)), st1, w1)
                  end
                else
                  (Ok (rpc_error id_ (-32601)
                         (u "Unknown tool " ++ format_value tool_name)),
                   st, w)).
  { unfold process_request.
    rewrite (tools_call_is_not_tools_list _ Hcall), Hcall, Hparams.
    unfold bind, lift, ret. cbn [as_dict].
    unfold in_TOOLS. rewrite Hhash. fold tool_name.
    destruct (registered tool_name); reflexivity. }
  rewrite E. split; [|split].
  - intros ->. reflexivity.
  - intros -> e st1 w1 ->. reflexivity.
  - intros -> res st1 w1 ->. reflexivity.
Qed.

(** The registered names. *)
Lemma registered_names (v : value) :
  registered v = true <->
  exists s, v = VStr s /\
            In s [u "list_components"; u "get_component";
                  u "search_components"; u "export_all";
                  u "get_component_props"].
Proof.
  split.
  - destruct v as [| | |s| |]; try discriminate. intros H. exists s.
    split; [reflexivity|]. apply shas_sget in H. destruct H as [m Hm].
    apply sget_In in Hm. apply (in_map fst) in Hm.
    assert (E : map fst TOOLS
                = [u "list_components"; u "get_component";
                   u "search_components"; u "export_all";
                   u "get_component_props"]) by (vm_compute; reflexivity).
    rewrite E in Hm. exact Hm.
  - intros (s & -> & Hin). cbn [registered].
    destruct Hin as [<-|[<-|[<-|[<-|[<-|[]]]]]]; vm_compute; reflexivity.
Qed.

End Dispatch.

Lemma tools_call_envelopes_witness :
  @process_request all_pages
    [(u "id", VNum 3); (u "method", VStr (u "tools/call"));
     (u "params", VDict [(u "name", VStr (u "nope"))])] fresh []
  = (Ok (ErrorEnvelope (u "2.0") (VNum 3) (-32601) (u "Unknown tool nope")),
     fresh, []).
Proof.
  destruct (@tools_call_envelopes all_pages
              [(u "id", VNum 3); (u "method", VStr (u "tools/call"));
               (u "params", VDict [(u "name", VStr (u "nope"))])]
              [(u "name", VStr (u "nope"))] fresh [])
    as (Hunknown & _ & _).
  - vm_compute. reflexivity.
  - vm_compute. reflexivity.
  - vm_compute. reflexivity.
  - rewrite Hunknown; vm_compute; reflexivity.
Defined.

(** C9. The code at a [tools/call] request whose tool name is a list, which
    no registered tool has: the membership test [tool_name not in TOOLS],
    meant to answer every unknown name with the code -32601, raises
    [TypeError] outside the [try] block. No envelope is returned and the
    exception reaches the caller of [process_request]. *)
Theorem unhashable_tool_name_raises :
  registered (VList []) = false /\
  @process_request all_pages
    [(u "jsonrpc", VStr (u "2.0")); (u "id", VNum 1);
     (u "method", VStr (u "tools/call"));
     (u "params", VDict [(u "name", VList [])])] fresh []
  = (Raise (Exn TypeError (u "unhashable type: 'list'")), fresh, []).
Proof. split; vm_compute; reflexivity. Qed.

(** A [params] that is not an object is not handled either. *)
Example null_params_raise :
  outcome (@process_request all_pages
             [(u "id", VNum 2); (u "method", VStr (u "tools/call"));
              (u "params", VNone)] fresh [])
  = Raise (Exn AttributeError
             (u "'NoneType' object has no attribute 'get'")).
Proof. vm_compute. reflexivity. Qed.

Example unknown_tool_envelope :
  outcome (@process_request all_pages
             [(u "id", VNum 3); (u "method", VStr (u "tools/call"));
              (u "params", VDict [(u "name", VStr (u "nope"))])] fresh [])
  = Ok (ErrorEnvelope (u "2.0") (VNum 3) (-32601) (u "Unknown tool nope")).
Proof. vm_compute. reflexivity. Qed.

(** A handler that raises: [search_components] without a query. *)
Example internal_error_envelope :
  outcome (@process_request all_pages
             [(u "id", VNum 4); (u "method", VStr (u "tools/call"));
              (u "params", VDict [(u "name", VStr (u "search_components"))])]
             fresh [])
  = Ok (ErrorEnvelope (u "2.0") (VNum 4) (-32603)
          (u "Internal error: 'query'")).
Proof. vm_compute. reflexivity. Qed.

Example successful_call_envelope :
  outcome (@process_request all_pages
             [(u "id", VNum 5); (u "method", VStr (u "tools/call"));
              (u "params", VDict [(u "name", VStr (u "list_components"))])]
             fresh [])
  = Ok (ResultEnvelope (u "2.0") (VNum 5)
          (PContent (RSummaries demo_catalog))).
Proof. vm_compute. reflexivity. Qed.

(** ** fetch_url *)

Lemma underscore_not_alnum : is_alnum 95%N = false.
Proof. reflexivity. Qed.

Lemma sub_non_alnum_fixed (s : str) :
  (forall b, sub_non_alnum false (sub_non_alnum b s) = sub_non_alnum b s) /\
  sub_non_alnum true (sub_non_alnum true s) = sub_non_alnum true s.
Proof.
  induction s as [|c t [IH1 IH2]]; [split; [intros b|]; reflexivity|].
  split.
  - intros b. cbn [sub_non_alnum]. destruct (is_alnum c) eqn:Ec.
    + cbn [sub_non_alnum]. rewrite Ec, (IH1 false). reflexivity.
    + destruct b.
      * apply IH1.
      * cbn [sub_non_alnum]. rewrite underscore_not_alnum, IH2. reflexivity.
  - cbn [sub_non_alnum]. destruct (is_alnum c) eqn:Ec.
    + cbn [sub_non_alnum]. rewrite Ec, (IH1 false). reflexivity.
    + apply IH2.
Qed.

Lemma sub_non_alnum_alphabet (b : bool) (s : str) :
  forallb (fun c => is_alnum c || N.eqb c 95) (sub_non_alnum b s) = true.
Proof.
  revert b. induction s as [|c t IH]; intros b; [reflexivity|].
  cbn [sub_non_alnum]. destruct (is_alnum c) eqn:Ec.
  - cbn [forallb]. rewrite Ec, IH. reflexivity.
  - destruct b; [apply IH|]. cbn [forallb]. rewrite IH. reflexivity.
Qed.

(** X1. The substitution that names the cache file keeps only ASCII letters,
    digits and underscores, and applying it twice changes nothing more. *)
Theorem cache_key_idempotent (target : str) :
  forallb (fun c => is_alnum c || N.eqb c 95) (sub_non_alnum false target)
  = true /\
  sub_non_alnum false (sub_non_alnum false target)
  = sub_non_alnum false target.
Proof.
  split; [apply sub_non_alnum_alphabet|].
  apply (proj1 (sub_non_alnum_fixed target)).
Qed.

Section Fetch.
Variable env : Environment.

(** What a call of [fetch_url] adds to the events, by the way it ends. *)
Lemma fetch_url_cached_cases (target : str) (force : bool)
  (tr : list event) :
  let file := cache_file_name target in
  let tr1 := tr ++ [EvExists file] in
  let tr2 := tr1 ++ [EvGet target] in
  (exists e, path_exists env tr file = Raise e /\
             fetch_url_cached env target force tr = (Raise e, tr1)) \/
  (path_exists env tr file = Ok true /\ force = false /\
   fetch_url_cached env target force tr
   = (read_text env tr1 file, tr1 ++ [EvRead file])) \/
  (exists found, path_exists env tr file = Ok found /\
                 found && negb force = false /\
     ((exists e, requests_get env tr1 target = Raise e /\
                 fetch_url_cached env target force tr = (Raise e, tr2)) \/
      (exists code body,
          requests_get env tr1 target = Ok (code, body) /\ code <> 200 /\
          fetch_url_cached env target force tr
          = (Raise (Exn FetchError
                      (u "Failed " ++ target ++ u " status="
                       ++ decimal code)), tr2)) \/
      (exists body e,
          requests_get env tr1 target = Ok (200, body) /\
          write_text env tr2 file body = Raise e /\
          fetch_url_cached env target force tr
          = (Raise e, tr2 ++ [EvWrite file body])) \/
      (exists body,
          requests_get env tr1 target = Ok (200, body) /\
          write_text env tr2 file body = Ok tt /\
          fetch_url_cached env target force tr
          = (Ok body, tr2 ++ [EvWrite file body; EvSleep])))).
Proof.
  intros file tr1 tr2. unfold fetch_url_cached. fold file. fold tr1. fold tr2.
  destruct (path_exists env tr file) as [found|e]; [|left; eauto].
  right. destruct (found && negb force) eqn:Hit.
  - left. apply andb_true_iff in Hit. destruct Hit as [-> Hf].
    apply negb_true_iff in Hf. auto.
  - right. exists found. split; [reflexivity|]. split; [exact Hit|].
    destruct (requests_get env tr1 target) as [[code body]|e] eqn:G;
      [|left; eauto].
    right. destruct (Nat.eqb code 200) eqn:Ecode; cbn [negb].
    + apply Nat.eqb_eq in Ecode. subst code. right.
      destruct (write_text env tr2 file body) as [[]|e] eqn:W.
      * right. exists body. rewrite <- app_assoc.
        split; [reflexivity|]. split; [exact W | reflexivity].
      * left. exists body, e.
        split; [reflexivity|]. split; [exact W | reflexivity].
    + apply Nat.eqb_neq in Ecode. left. exists code, body.
      split; [reflexivity|]. split; [exact Ecode | reflexivity].
Qed.

(** X2. When the cache file exists and [force] is not set, [fetch_url]
    returns what reading the file gives (or raises what reading raises): it
    makes no request, writes nothing and does not sleep. When the file does
    not exist, or [force] is set, it does not read the file and makes
    exactly one request. *)
Theorem fetch_cache_hit (target : str) (force : bool) (tr : list event)
  (found : bool) :
  path_exists env tr (cache_file_name target) = Ok found ->
  let file := cache_file_name target in
  let r := fst (fetch_url_cached env target force tr) in
  exists evs,
    snd (fetch_url_cached env target force tr) = tr ++ EvExists file :: evs /\
    (found = true -> force = false ->
     r = read_text env (tr ++ [EvExists file]) file /\ evs = [EvRead file]) /\
    (found = false \/ force = true ->
     reads evs = 0 /\ requests evs = 1 /\
     exists rest, evs = EvGet target :: rest).
Proof.
  intros Hex file r. subst r file.
  destruct (fetch_url_cached_cases target force tr)
    as [(e & He & _)|[(Hfound & Hforce & ->)
                     |(found' & Hfound & Hmiss & Hlive)]].
  - congruence.
  - exists [EvRead (cache_file_name target)]. cbn [fst snd].
    rewrite <- app_assoc. split; [reflexivity|]. split; [auto|].
    intros [->| ->]; congruence.
  - assert (found' = found) by congruence. subst found'.
    assert (Hnot : found = true -> force = false -> False).
    { intros -> ->. discriminate. }
    destruct Hlive as [(e & _ & ->)|[(code & body & _ & _ & ->)
                      |[(body & e & _ & _ & ->)|(body & _ & _ & ->)]]];
      cbn [fst snd]; rewrite <- ?app_assoc; cbn [app];
      eexists; (split; [reflexivity|]);
      (split; [intros Hf Hn; destruct (Hnot Hf Hn)|]);
      intros _; (split; [reflexivity|]); (split; [reflexivity|]); eauto.
Qed.

(** X3. [fetch_url] returns a text in two ways only: the text read from
    the cache file, after no request; or the text of a response with status
    200, after it has written that very text to the cache file and slept
    once. A response with another status raises the [FetchError] that names
    the URL and the status, and then nothing is written. A call that raises
    never sleeps. *)
Theorem fetch_results (target : str) (force : bool) (tr : list event) :
  let file := cache_file_name target in
  let tr1 := tr ++ [EvExists file] in
  exists evs,
    snd (fetch_url_cached env target force tr) = tr ++ evs /\
    match fst (fetch_url_cached env target force tr) with
    | Ok text =>
        (force = false /\ read_text env tr1 file = Ok text /\
         evs = [EvExists file; EvRead file]) \/
        (requests_get env tr1 target = Ok (200, text) /\
         evs = [EvExists file; EvGet target; EvWrite file text; EvSleep])
    | Raise e =>
        sleeps evs = 0 /\
        forall code body,
          requests evs = 1 ->
          requests_get env tr1 target = Ok (code, body) -> code <> 200 ->
          writes evs = 0 /\
          e = Exn FetchError
                (u "Failed " ++ target ++ u " status=" ++ decimal code)
    end.
Proof.
  intros file tr1. subst tr1 file.
  destruct (fetch_url_cached_cases target force tr)
    as [(e & _ & ->)|[(_ & Hforce & ->)|(found & _ & _ & Hlive)]];
    cbn [fst snd].
  - eexists. split; [reflexivity|].
    split; [reflexivity|]. intros code body Hreq. discriminate.
  - exists [EvExists (cache_file_name target);
            EvRead (cache_file_name target)].
    rewrite <- app_assoc. split; [reflexivity|].
    destruct (read_text env _ _) as [text|e] eqn:R.
    + left. auto.
    + split; [reflexivity|]. intros code body Hreq. discriminate.
  - destruct Hlive as [(e & Hget & ->)|[(code & body & Hget & Hcode & ->)
                      |[(body & e & Hget & _ & ->)|(body & Hget & _ & ->)]]];
      cbn [fst snd]; rewrite <- ?app_assoc; cbn [app]; eexists;
      (split; [reflexivity|]).
    + split; [reflexivity|]. intros code body _ Hreq. congruence.
    + split; [reflexivity|]. intros code' body' _ Hreq _.
      rewrite Hget in Hreq. injection Hreq as <- <-.
      split; reflexivity.
    + split; [reflexivity|]. intros code' body' _ Hreq Hne.
      rewrite Hget in Hreq. injection Hreq as <- <-. congruence.
    + right. auto.
Qed.

(** X4. A call of [fetch_url] first asks whether the cache file exists and
    then reads the file or makes a request, never both and never twice; it
    writes at most once and only after a request; it sleeps at most once and
    only after a write; and a forced call never reads the cache file. *)
Theorem fetch_effects (target : str) (force : bool) (tr : list event) :
  exists evs,
    snd (fetch_url_cached env target force tr)
    = tr ++ EvExists (cache_file_name target) :: evs /\
    reads evs + requests evs <= 1 /\
    writes evs <= requests evs /\
    sleeps evs <= writes evs /\
    (force = true -> reads evs = 0).
Proof.
  destruct (fetch_url_cached_cases target force tr)
    as [(e & _ & ->)|[(_ & Hforce & ->)|(found & _ & _ & Hlive)]];
    cbn [fst snd].
  - exists []. split; [reflexivity|]. cbn. repeat split; auto.
  - exists [EvRead (cache_file_name target)]. rewrite <- app_assoc.
    split; [reflexivity|]. cbn. repeat split; auto. congruence.
  - destruct Hlive as [(e & _ & ->)|[(code & body & _ & _ & ->)
                      |[(body & e & _ & _ & ->)|(body & _ & _ & ->)]]];
      cbn [fst snd]; rewrite <- ?app_assoc; cbn [app]; eexists;
      (split; [reflexivity|]); cbn; repeat split; auto.
Qed.

(** X29. The text [fetch_url] returns has no surrogate code point, and so
    can be given to the parser: the text read from a file decoded as UTF-8
    has none, and a text with one cannot be written to the cache file, which
    comes before the return. *)
Theorem fetch_url_cached_encodable (target : str) (force : bool)
  (tr tr' : list event) (text : str) :
  (forall h file t, read_text env h file = Ok t -> encodable t = true) ->
  (forall h file t, write_text env h file t = Ok tt -> encodable t = true) ->
  fetch_url_cached env target force tr = (Ok text, tr') ->
  encodable text = true.
Proof.
  intros Hread Hwrite.
  destruct (fetch_url_cached_cases target force tr)
    as [(e & _ & ->)|[(_ & _ & ->)|(found & _ & _ & Hlive)]].
  - discriminate.
  - intros [= H _]. apply (Hread _ _ _ H).
  - destruct Hlive as [(e & _ & ->)|[(code & body & _ & _ & ->)
                      |[(body & e & _ & _ & ->)|(body & _ & Hw & ->)]]];
      try discriminate.
    intros [= <- _]. apply (Hwrite _ _ _ Hw).
Qed.

End Fetch.

Lemma fetch_cache_hit_witness :
  exists evs,
    snd (fetch_url_cached demo_env (u "https://4x.ant.design/a") false
           [EvWrite (u "https_4x_ant_design_a.html") (u "cached")])
    = [EvWrite (u "https_4x_ant_design_a.html") (u "cached")]
      ++ EvExists (cache_file_name (u "https://4x.ant.design/a")) :: evs /\
    evs = [EvRead (cache_file_name (u "https://4x.ant.design/a"))].
Proof.
  destruct (fetch_cache_hit demo_env (u "https://4x.ant.design/a") false
              [EvWrite (u "https_4x_ant_design_a.html") (u "cached")] true)
    as (evs & Hevs & Hhit & _); [vm_compute; reflexivity|].
  exists evs. split; [exact Hevs|].
  apply (Hhit eq_refl eq_refl).
Defined.

Lemma fetch_url_cached_encodable_witness :
  encodable (u "<html>https://4x.ant.design/a") = true.
Proof.
  apply (fetch_url_cached_encodable demo_env (u "https://4x.ant.design/a")
           false []
           [EvExists (u "https_4x_ant_design_a.html");
            EvGet (u "https://4x.ant.design/a");
            EvWrite (u "https_4x_ant_design_a.html")
                    (u "<html>https://4x.ant.design/a");
            EvSleep]).
  - intros h file t. cbn [demo_env read_text].
    destruct (file_text h file) as [text|]; [|discriminate].
    destruct (encodable text) eqn:E; [|discriminate].
    intros [= <-]. exact E.
  - intros h file t. cbn [demo_env write_text].
    destruct (encodable t) eqn:E; [reflexivity | discriminate].
  - vm_compute. reflexivity.
Defined.

(** A first fetch stores the page and a second one reads it back. *)
Example fetch_twice :
  exists tr,
    fetch_url_cached demo_env (u "https://4x.ant.design/a") false []
    = (Ok (u "<html>https://4x.ant.design/a"), tr) /\
    requests tr = 1 /\
    exists tr',
      fetch_url_cached demo_env (u "https://4x.ant.design/a") false tr
      = (Ok (u "<html>https://4x.ant.design/a"), tr') /\
      requests tr' = 1.
Proof.
  eexists. split; [vm_compute; reflexivity|]. split; [reflexivity|].
  eexists. split; [vm_compute; reflexivity | reflexivity].
Qed.

Example fetch_missing_page :
  fetch_url_cached demo_env (u "https://4x.ant.design/missing") false []
  = (Raise (Exn FetchError
              (u "Failed https://4x.ant.design/missing status=404")),
     [EvExists (u "https_4x_ant_design_missing.html");
      EvGet (u "https://4x.ant.design/missing")]).
Proof. vm_compute. reflexivity. Qed.

(** ** More on the catalog *)

Lemma startswith_app (p s : str) : startswith p (p ++ s) = true.
Proof.
  induction p as [|c p IH]; [reflexivity|].
  cbn [app startswith]. unfold char_eqb. rewrite N.eqb_refl. exact IH.
Qed.

Lemma startswith_prefix (p q s : str) :
  startswith (p ++ q) s = true -> startswith p s = true.
Proof.
  revert s. induction p as [|c p IH]; intros s; [reflexivity|].
  destruct s as [|x s]; cbn [app startswith]; [discriminate|].
  intros H. apply andb_true_iff in H. destruct H as [Hc Hs].
  rewrite Hc. apply (IH s Hs).
Qed.

Lemma contains_app_r (k a b : str) :
  contains k b = true -> contains k (a ++ b) = true.
Proof.
  intros H. induction a as [|x a IH]; [exact H|].
  cbn [app contains]. rewrite IH. apply orb_true_r.
Qed.

(** X5. A root-relative href that contains [/components/] is resolved
    against the site and gives a valid summary; an href that starts neither
    with [/] nor with [http://] or [https://] gives a summary that is
    dropped, and so does a missing href. *)
Theorem href_resolution (nm dn : str) :
  (forall h,
      startswith (u "/") h = true -> contains (u "/components/") h = true ->
      resolve_url (Some h) = Some (BASE_URL ++ h) /\
      is_valid {| name := nm; display_name := dn;
                  url := resolve_url (Some h); description := [] |} = true) /\
  (forall h,
      startswith (u "/") h = false ->
      startswith (u "http://") h = false ->
      startswith (u "https://") h = false ->
      is_valid {| name := nm; display_name := dn;
                  url := resolve_url (Some h); description := [] |} = false) /\
  is_valid {| name := nm; display_name := dn;
              url := resolve_url None; description := [] |} = false.
Proof.
  split; [|split].
  - intros h Hslash Hmark.
    assert (Hres : resolve_url (Some h) = Some (BASE_URL ++ h)).
    { unfold resolve_url. rewrite Hslash.
      destruct h; [discriminate | reflexivity]. }
    split; [exact Hres|]. unfold is_valid. cbn [url]. rewrite Hres.
    rewrite (contains_app_r (u "/components/") BASE_URL h Hmark).
    assert (Hs : startswith (u "https://") (BASE_URL ++ h) = true).
    { assert (E : BASE_URL = u "https://" ++ u "4x.ant.design")
        by (vm_compute; reflexivity).
      apply (startswith_prefix (u "https://") (u "4x.ant.design")).
      rewrite <- E. apply (startswith_app BASE_URL h). }
    rewrite Hs, orb_true_r. reflexivity.
  - intros h H0 H1 H2. unfold is_valid, resolve_url. rewrite H0.
    rewrite andb_false_r. cbn [url]. rewrite H1, H2.
    destruct (negb (str_truthy h) || negb (contains (u "/components/") h));
      reflexivity.
  - reflexivity.
Qed.

Lemma href_resolution_witness :
  is_valid {| name := u "Button"; display_name := u "Button按钮";
              url := resolve_url (Some (u "/components/button-cn/"));
              description := [] |} = true /\
  is_valid {| name := u "Button"; display_name := u "Button按钮";
              url := resolve_url (Some (u "components/button-cn/"));
              description := [] |} = false.
Proof.
  destruct (href_resolution (u "Button") (u "Button按钮")) as (Hok & Hbad & _).
  split.
  - apply Hok; vm_compute; reflexivity.
  - apply Hbad; vm_compute; reflexivity.
Defined.

Section CatalogMore.
Context {P : Platform}.

Lemma fold_merge_from (l : list Summary) (d : sdict Summary) (k : str)
  (v : Summary) :
  In (k, v) (fold_left merge_step l d) -> In (k, v) d \/ In v l.
Proof.
  revert d. induction l as [|c l IH]; intros d; cbn [fold_left]; [auto|].
  intros H. destruct (IH _ H) as [Hd|Hl]; [|right; right; exact Hl].
  unfold merge_step in Hd. destruct (negb (is_valid c)); [auto|].
  destruct (sget (lower (name c)) d) as [kept|].
  - destruct (Nat.ltb _ _); [|auto].
    destruct (In_sset _ _ _ _ _ Hd) as [[_ ->]|Hold]; [right; left|]; auto.
  - destruct (In_sset _ _ _ _ _ Hd) as [[_ ->]|Hold]; [right; left|]; auto.
Qed.

Lemma keys_of_values (d : sdict Summary) :
  cleaned_ok d ->
  map (fun c => lower (name c)) (dict_values d) = dict_keys d.
Proof.
  unfold dict_values, dict_keys. intros [_ Hall].
  induction d as [|[k v] d IH]; [reflexivity|]. cbn [map fst snd].
  rewrite IH by (intros k' v' Hin; apply Hall; right; exact Hin).
  destruct (Hall k v) as [-> _]; [left; reflexivity|]. reflexivity.
Qed.

(** X6. The catalog only has summaries that were extracted and pass the URL
    validation, no two of its entries have the same lower-cased name, and
    every valid extracted summary is represented by an entry of its key
    whose display name is at least as long. *)
Theorem catalog_sound_distinct_complete (components : list Summary) :
  (forall e, In e (merge components) ->
             In e components /\ is_valid e = true) /\
  NoDup (map (fun c => lower (name c)) (merge components)) /\
  (forall c, In c components -> is_valid c = true ->
             exists e, In e (merge components) /\
                       lower (name e) = lower (name c) /\
                       dlen c <= dlen e).
Proof.
  pose proof (cleaned_ok_fold components [] cleaned_ok_empty) as Hok.
  split; [|split].
  - intros e He. unfold merge, dict_values in He. apply in_map_iff in He.
    destruct He as ([k v] & <- & Hin). cbn [snd]. split.
    + destruct (fold_merge_from _ _ _ _ Hin) as [[]|H]. exact H.
    + apply (proj2 Hok k v Hin).
  - unfold merge. rewrite (keys_of_values _ Hok). apply (proj1 Hok).
  - intros c Hin Hv.
    assert (Cc : candidate (lower (name c)) c = true).
    { unfold candidate, has_key. rewrite Hv, str_eqb_refl. reflexivity. }
    pose proof (merge_by_key (lower (name c)) components) as Hkey.
    destruct (pick_fold_none (lower (name c)) components)
      as [[_ Hnone]|(e & pre & post & He & Hsplit & Ce & Hpre & Hpost)].
    + rewrite (Hnone c Hin) in Cc. discriminate.
    + rewrite He in Hkey. exists e.
      assert (Hine : In e (filter (has_key (lower (name c)))
                             (merge components)))
        by (rewrite Hkey; left; reflexivity).
      apply filter_In in Hine. destruct Hine as [Hine Hk].
      unfold has_key in Hk. apply str_eqb_eq in Hk.
      split; [exact Hine|]. split; [exact Hk|].
      rewrite Hsplit in Hin. apply in_app_or in Hin.
      destruct Hin as [Hin|[<-|Hin]]; [|lia|auto].
      specialize (Hpre c Hin Cc). lia.
Qed.

Lemma sget_absent {V} (k : str) (d : sdict V) :
  ~ In k (dict_keys d) -> sget k d = None.
Proof.
  intros Hno. destruct (sget k d) as [v|] eqn:G; [|reflexivity].
  exfalso. apply Hno. apply sget_In in G. apply (in_map fst) in G. exact G.
Qed.

Lemma sset_new {V} (k : str) (v : V) (d : sdict V) :
  sget k d = None -> sset k v d = d ++ [(k, v)].
Proof.
  unfold sget, sset. induction d as [|[k0 v0] d IH]; [reflexivity|].
  cbn [dict_get dict_set app]. destruct (str_eqb k k0); [discriminate|].
  intros H. rewrite (IH H). reflexivity.
Qed.

Lemma merge_values_again (d2 d1 : sdict Summary) :
  cleaned_ok (d1 ++ d2) ->
  fold_left merge_step (dict_values d2) d1 = d1 ++ d2.
Proof.
  revert d1. induction d2 as [|[k v] d2 IH]; intros d1 Hok.
  - rewrite app_nil_r. reflexivity.
  - cbn [dict_values map snd fold_left].
    destruct Hok as [Hnd Hall].
    destruct (Hall k v) as [Hk Hv]; [apply in_or_app; right; left; reflexivity|].
    assert (Habs : sget k d1 = None).
    { apply sget_absent. unfold dict_keys in *. rewrite map_app in Hnd.
      cbn [map fst] in Hnd. intros Hin.
      apply NoDup_remove_2 in Hnd. apply Hnd. apply in_or_app. left. exact Hin. }
    assert (Hstep : merge_step d1 v = d1 ++ [(k, v)]).
    { unfold merge_step. rewrite Hv. cbn [negb]. rewrite <- Hk, Habs.
      apply sset_new, Habs. }
    rewrite Hstep. change (dict_values d2) with (map snd d2).
    fold (dict_values d2). rewrite IH.
    + rewrite <- app_assoc. reflexivity.
    + rewrite <- app_assoc. split; assumption.
Qed.

(** X7. Merging a catalog again gives the same catalog, in the same
    order. *)
Theorem merge_idempotent (components : list Summary) :
  merge (merge components) = merge components.
Proof.
  unfold merge.
  rewrite (merge_values_again (fold_left merge_step components []) []).
  - reflexivity.
  - apply cleaned_ok_fold, cleaned_ok_empty.
Qed.

End CatalogMore.

(** ** More on parse_component *)

Lemma mapM_pointwise {A B} (f : A -> result B) (l : list A) (bs : list B) :
  mapM f l = Ok bs -> Forall2 (fun a b => f a = Ok b) l bs.
Proof.
  revert bs. induction l as [|a l IH]; intros bs; cbn [mapM].
  - intros [= <-]. constructor.
  - destruct (f a) as [b|e] eqn:Ea; cbn [rbind]; [|discriminate].
    destruct (mapM f l) as [bs0|e] eqn:El; cbn [rbind]; [|discriminate].
    intros [= <-]. constructor; [exact Ea | apply IH; reflexivity].
Qed.

Lemma extract_rows_spec (header : list str) (trs : list (list str)) :
  extract_rows header trs
  = Ok (map (row_of header) (filter has_cells trs)).
Proof.
  induction trs as [|cells trs IH]; [reflexivity|].
  destruct cells as [|c cells].
  - cbn [extract_rows filter has_cells]. exact IH.
  - cbn [extract_rows filter has_cells map].
    rewrite (extract_row_shape header (c :: cells)) by discriminate.
    rewrite IH. reflexivity.
Qed.

(** X8. The table object of a table keeps the header labels, and its rows
    are the rows of the table body that have cells, in order: a mapping from
    label to text when the cell count equals the header length, the
    positional list otherwise; rows without cells are skipped. *)
Theorem table_object_rows (tbl : Table) :
  table_object tbl
  = Ok ({| header := thead_th tbl;
           rows := map (row_of (thead_th tbl))
                       (filter has_cells (tbody_tr tbl)) |},
        classify (thead_th tbl)).
Proof.
  unfold table_object. rewrite extract_rows_spec. reflexivity.
Qed.

Lemma of_kind_objects (k : Kind) (cl : list (TableObj * Kind))
  (tbls : list Table) :
  Forall2 (fun tbl tk => table_object tbl = Ok tk) tbls cl ->
  of_kind k cl = map object_of (tables_classified k tbls).
Proof.
  unfold of_kind, tables_classified.
  induction 1 as [|tbl [t k'] tbls cl Hd _ IH]; [reflexivity|].
  unfold table_object in Hd. rewrite extract_rows_spec in Hd.
  cbn [rbind] in Hd. injection Hd as <- <-.
  cbn [filter map snd fst].
  change (match classify (thead_th tbl) with
          | Props => match k with Props => true | _ => false end
          | Events => match k with Events => true | _ => false end
          | Methods => match k with Methods => true | _ => false end
          | Other => match k with Other => true | _ => false end
          end) with (kind_eqb (classify (thead_th tbl)) k).
  destruct (kind_eqb (classify (thead_th tbl)) k); cbn [map fst];
    rewrite IH; reflexivity.
Qed.

Lemma of_kind_headers (k : Kind) (cl : list (TableObj * Kind))
  (tbls : list Table) :
  Forall2 (fun tbl tk => table_object tbl = Ok tk) tbls cl ->
  map header (of_kind k cl)
  = filter (fun h => kind_eqb (classify h) k) (map thead_th tbls).
Proof.
  intros H. rewrite (of_kind_objects k cl tbls H). unfold tables_classified.
  clear H. induction tbls as [|tbl tbls IH]; [reflexivity|].
  cbn [filter map].
  destruct (kind_eqb (classify (thead_th tbl)) k); cbn [map object_of header];
    rewrite IH; reflexivity.
Qed.

Lemma kinds_partition {A} (f : A -> Kind) (l : list A) :
  List.length (filter (fun a => kind_eqb (f a) Props) l)
  + List.length (filter (fun a => kind_eqb (f a) Events) l)
  + List.length (filter (fun a => kind_eqb (f a) Methods) l)
  + List.length (filter (fun a => kind_eqb (f a) Other) l)
  = List.length l.
Proof.
  induction l as [|a l IH]; [reflexivity|].
  cbn [filter]. destruct (f a); cbn [kind_eqb List.length]; lia.
Qed.

Lemma parse_component_soup_fields (soup : Soup) (d : ComponentDetail) :
  parse_component_soup soup = Ok d ->
  exists cl,
    Forall2 (fun tbl tk => table_object tbl = Ok tk) (tables soup) cl /\
    (forall k, tables_of k d = of_kind k cl) /\
    (forall k, count_of k (table_summary d) = List.length (of_kind k cl)) /\
    flatten_props (of_kind Props cl) = Ok (props_flat d) /\
    intro d = filter str_truthy (firstn 5 (paragraphs soup)) /\
    examples d = filter str_truthy (pre_codes soup) /\
    title d = first_h1 soup.
Proof.
  unfold parse_component_soup.
  destruct (mapM table_object (tables soup)) as [cl|e] eqn:Hcl;
    cbn [rbind]; [|discriminate].
  destruct (flatten_props (of_kind Props cl)) as [flat|e] eqn:Hflat;
    cbn [rbind]; [|discriminate].
  intros [= <-]. exists cl. split; [apply mapM_pointwise, Hcl|].
  split; [intros []; reflexivity|]. split; [intros []; reflexivity|].
  cbn. repeat split; reflexivity || exact Hflat.
Qed.

(** X9. Every table of the page goes to exactly one of the four lists of
    the detail: the list of a kind holds, in document order, the table
    objects (header and rows) of the tables whose header classifies as that
    kind, and nothing else; [table_summary] holds the lengths of the four
    lists, and they add up to the number of tables. *)
Theorem tables_partitioned (soup : Soup) (d : ComponentDetail) :
  parse_component_soup soup = Ok d ->
  (forall k,
      tables_of k d = map object_of (tables_classified k (tables soup)) /\
      map header (tables_of k d)
      = filter (fun h => kind_eqb (classify h) k)
               (map thead_th (tables soup)) /\
      count_of k (table_summary d) = List.length (tables_of k d)) /\
  n_props (table_summary d) + n_events (table_summary d)
  + n_methods (table_summary d) + n_other (table_summary d)
  = List.length (tables soup).
Proof.
  intros Hd.
  destruct (parse_component_soup_fields soup d Hd)
    as (cl & Hcl & Htab & Hcount & _).
  assert (Hk : forall k,
             tables_of k d = map object_of (tables_classified k (tables soup))
             /\
             map header (tables_of k d)
             = filter (fun h => kind_eqb (classify h) k)
                      (map thead_th (tables soup)) /\
             count_of k (table_summary d) = List.length (tables_of k d)).
  { intros k. rewrite Htab, Hcount. split; [apply of_kind_objects, Hcl|].
    split; [apply of_kind_headers, Hcl | reflexivity]. }
  split; [exact Hk|].
  pose proof (kinds_partition classify (map thead_th (tables soup))) as Hsum.
  rewrite length_map in Hsum. rewrite <- Hsum.
  destruct (Hk Props) as (_ & Hp & Hp'), (Hk Events) as (_ & He & He'),
    (Hk Methods) as (_ & Hm & Hm'), (Hk Other) as (_ & Ho & Ho').
  cbn [count_of] in *. rewrite Hp', He', Hm', Ho'.
  rewrite <- Hp, <- He, <- Hm, <- Ho. rewrite !length_map. reflexivity.
Qed.

Lemma tables_partitioned_witness :
  exists d,
    parse_component_soup demo_page = Ok d /\
    props d = map object_of (tables_classified Props (tables demo_page)) /\
    n_props (table_summary d) + n_events (table_summary d)
    + n_methods (table_summary d) + n_other (table_summary d) = 1.
Proof.
  destruct (parse_component_soup_total demo_page) as [d Hd].
  exists d. split; [exact Hd|].
  destruct (tables_partitioned demo_page d Hd) as [Hk Hsum].
  split; [apply (Hk Props) | exact Hsum].
Defined.

Lemma filter_length_le {A} (p : A -> bool) (l : list A) :
  List.length (filter p l) <= List.length l.
Proof.
  induction l as [|a l IH]; [apply Nat.le_refl|].
  cbn [filter]. destruct (p a); cbn [List.length]; lia.
Qed.

Lemma filter_all {A} (p : A -> bool) (l : list A) :
  forallb p l = true -> filter p l = l.
Proof.
  induction l as [|a l IH]; [reflexivity|]. cbn [forallb filter].
  intros H. apply andb_true_iff in H. destruct H as [Ha Hl].
  rewrite Ha, (IH Hl). reflexivity.
Qed.

(** X10. The intro is the texts of the first five paragraphs with the
    empty ones left out, in order: it has at most five entries, none of them
    empty, and when the first five paragraphs are all non-empty it is
    exactly them. The examples are the code block texts with the empty ones
    left out, in order and with their repetitions. *)
Theorem intro_bounded (soup : Soup) (d : ComponentDetail) :
  parse_component_soup soup = Ok d ->
  intro d = filter str_truthy (firstn 5 (paragraphs soup)) /\
  examples d = filter str_truthy (pre_codes soup) /\
  List.length (intro d) <= 5 /\
  (forall p, In p (intro d) ->
             p <> [] /\ In p (firstn 5 (paragraphs soup))) /\
  (forallb str_truthy (firstn 5 (paragraphs soup)) = true ->
   intro d = firstn 5 (paragraphs soup)) /\
  (forall c, In c (examples d) <-> In c (pre_codes soup) /\ c <> []).
Proof.
  intros Hd.
  destruct (parse_component_soup_fields soup d Hd)
    as (cl & _ & _ & _ & _ & Hintro & Hex & _).
  rewrite Hintro, Hex. split; [reflexivity|]. split; [reflexivity|].
  split; [|split; [|split]].
  - eapply Nat.le_trans; [apply filter_length_le|]. apply firstn_le_length.
  - intros p Hp. apply filter_In in Hp. destruct Hp as [Hin Ht].
    split; [intros ->; discriminate | exact Hin].
  - apply filter_all.
  - intros c. rewrite filter_In. split; intros [Hin Hc]; split; auto.
    + intros ->. discriminate.
    + destruct c; [congruence | reflexivity].
Qed.

Lemma intro_bounded_witness :
  exists d,
    parse_component_soup demo_page = Ok d /\
    intro d = filter str_truthy (firstn 5 (paragraphs demo_page)) /\
    List.length (intro d) <= 5.
Proof.
  destruct (parse_component_soup_total demo_page) as [d Hd].
  exists d. split; [exact Hd|].
  destruct (intro_bounded demo_page d Hd) as (Hi & _ & Hl & _).
  split; [exact Hi | exact Hl].
Defined.

Lemma mapM_length {A B} (f : A -> result B) (l : list A) (bs : list B) :
  mapM f l = Ok bs -> List.length bs = List.length l.
Proof.
  intros H. apply mapM_pointwise in H.
  induction H; cbn [List.length]; auto.
Qed.

Lemma flatten_props_spec (tbls : list TableObj) (flat : list NormRow) :
  flatten_props tbls = Ok flat ->
  List.length flat = list_sum (map (fun t => List.length (rows t)) tbls) /\
  forall n, In n flat ->
            exists t row, In t tbls /\ In row (rows t) /\
                          normalize_row row (header t) = Ok n.
Proof.
  unfold flatten_props.
  destruct (mapM _ tbls) as [per|e] eqn:Hper; cbn [rbind]; [|discriminate].
  intros [= <-]. pose proof (mapM_pointwise _ _ _ Hper) as H2.
  clear Hper. induction H2 as [|t ns tbls per Hns _ IH].
  - split; [reflexivity | intros n []].
  - destruct IH as [IHlen IHin]. cbn [List.concat map list_sum]. split.
    + rewrite length_app, IHlen, (mapM_length _ _ _ Hns). reflexivity.
    + intros n Hin. apply in_app_or in Hin. destruct Hin as [Hin|Hin].
      * destruct (mapM_In _ _ _ Hns n Hin) as (row & Hrow & Hn).
        exists t, row. split; [left; reflexivity | auto].
      * destruct (IHin n Hin) as (t' & row & Ht & Hrow & Hn).
        exists t', row. split; [right; exact Ht | auto].
Qed.

Lemma flatten_props_rows (tbls : list TableObj) (flat : list NormRow) :
  flatten_props tbls = Ok flat ->
  exists per, Forall2 normalized_rows tbls per /\ flat = List.concat per.
Proof.
  unfold flatten_props.
  destruct (mapM _ tbls) as [per|e] eqn:Hper; cbn [rbind]; [|discriminate].
  intros [= <-]. exists per. split; [|reflexivity].
  pose proof (mapM_pointwise _ _ _ Hper) as H2. clear Hper.
  induction H2 as [|t ns tbls per Hns _ IH]; constructor; [|exact IH].
  apply mapM_pointwise in Hns. exact Hns.
Qed.

(** X11. [props_flat] is the concatenation, over the props tables in
    order, of the normalized rows of each table in row order: every row of
    every props table is represented exactly once, by [normalize_row] of the
    row with the header of its table, and nothing else is in it. Its length
    is the number of rows of the props tables. *)
Theorem props_flat_rows (soup : Soup) (d : ComponentDetail) :
  parse_component_soup soup = Ok d ->
  (exists per,
      Forall2 normalized_rows (props d) per /\
      props_flat d = List.concat per) /\
  Forall (fun t => classify (header t) = Props) (props d) /\
  List.length (props_flat d)
  = list_sum (map (fun t => List.length (rows t)) (props d)) /\
  forall n, In n (props_flat d) ->
            exists t row, In t (props d) /\ In row (rows t) /\
                          classify (header t) = Props /\
                          normalize_row row (header t) = Ok n.
Proof.
  intros Hd.
  destruct (parse_component_soup_fields soup d Hd)
    as (cl & Hcl & Htab & _ & Hflat & _).
  specialize (Htab Props). cbn [tables_of] in Htab. rewrite <- Htab in Hflat.
  assert (Hkind : Forall (fun t => classify (header t) = Props) (props d)).
  { apply Forall_forall. intros t Ht.
    pose proof (of_kind_headers Props cl (tables soup) Hcl) as Hh.
    rewrite <- Htab in Hh.
    assert (Hin' : In (header t) (map header (props d)))
      by (apply in_map; exact Ht).
    rewrite Hh in Hin'. apply filter_In in Hin'. destruct Hin' as [_ Hk].
    destruct (classify (header t)); try discriminate. reflexivity. }
  destruct (flatten_props_spec _ _ Hflat) as [Hlen Hin].
  split; [apply flatten_props_rows, Hflat|]. split; [exact Hkind|].
  split; [exact Hlen|]. intros n Hn.
  destruct (Hin n Hn) as (t & row & Ht & Hrow & Hnorm).
  exists t, row. split; [exact Ht|]. split; [exact Hrow|].
  split; [|exact Hnorm]. rewrite Forall_forall in Hkind. apply Hkind, Ht.
Qed.

Lemma props_flat_rows_witness :
  exists d,
    parse_component_soup demo_page = Ok d /\
    (exists per,
        Forall2 normalized_rows (props d) per /\
        props_flat d = List.concat per) /\
    List.length (props_flat d)
    = list_sum (map (fun t => List.length (rows t)) (props d)).
Proof.
  destruct (parse_component_soup_total demo_page) as [d Hd].
  exists d. split; [exact Hd|].
  destruct (props_flat_rows demo_page d Hd) as (Hper & _ & Hlen & _).
  split; [exact Hper | exact Hlen].
Defined.

(** ** Columns of a normalized row *)

Lemma dropwhile_idempotent (p : char -> bool) (s : str) :
  dropwhile p (dropwhile p s) = dropwhile p s.
Proof.
  destruct (dropwhile_head p s) as [E|(c & t & E & Hc)]; rewrite E.
  - reflexivity.
  - apply dropwhile_keep, Hc.
Qed.

Lemma strip_idempotent (s : str) : strip (strip s) = strip s.
Proof.
  assert (Hl : lstrip (strip s) = strip s).
  { unfold lstrip. destruct (strip_head s) as [E|(c & t & E & Hc)]; rewrite E.
    - reflexivity.
    - apply dropwhile_keep, Hc. }
  unfold strip at 1. rewrite Hl. unfold strip, rstrip.
  rewrite rev_involutive, dropwhile_idempotent. reflexivity.
Qed.

Lemma dropwhile_In (p : char -> bool) (s : str) (c : char) :
  In c (dropwhile p s) -> In c s.
Proof.
  induction s as [|x s IH]; cbn [dropwhile]; [auto|].
  destruct (p x); [intros H; right; apply IH, H | auto].
Qed.

Lemma strip_In (s : str) (c : char) : In c (strip s) -> In c s.
Proof.
  unfold strip, rstrip, lstrip. intros H. apply in_rev in H.
  apply dropwhile_In in H. apply in_rev in H. apply dropwhile_In in H.
  exact H.
Qed.

Lemma takewhile_In (p : char -> bool) (s : str) (c : char) :
  In c (takewhile p s) -> p c = true.
Proof.
  induction s as [|x s IH]; cbn [takewhile]; [intros []|].
  destruct (p x) eqn:E; [|intros []]. intros [<-|H]; auto.
Qed.

Lemma split_char_first (sep : char) (s : str) :
  exists ws,
    split_char sep s = takewhile (fun c => negb (char_eqb c sep)) s :: ws.
Proof.
  induction s as [|c s [ws IH]]; cbn [split_char takewhile]; [eauto|].
  destruct (char_eqb c sep); cbn [negb]; [eauto|]. rewrite IH. eauto.
Qed.

Lemma clean_name_tidy (txt : str) :
  ~ In 10%N (clean_name txt) /\ strip (clean_name txt) = clean_name txt.
Proof.
  unfold clean_name. destruct txt as [|c t]; cbn [str_truthy].
  - split; [intros [] | reflexivity].
  - split; [|apply strip_idempotent].
    intros H. apply strip_In, takewhile_In in H. discriminate.
Qed.

Lemma cleanup_name_spec (n n' : NormRow) (txt : str) :
  sget (u "name") n = Some (NStr txt) -> cleanup_name n = Ok n' ->
  sget (u "name") n' = Some (NStr (clean_name txt)).
Proof.
  intros G. unfold cleanup_name, clean_name. rewrite G. cbn [nval_truthy].
  destruct (str_truthy txt).
  - destruct (split_char_first 10%N txt) as [ws Hw]. rewrite Hw.
    unfold index. cbn [nth_error rbind]. intros [= <-].
    rewrite sget_sset, str_eqb_refl. reflexivity.
  - intros [= <-]. exact G.
Qed.

(** The value the header mapping leaves under the field of column [i] when
    no other column maps to that field. *)
Lemma map_fields_column (header cells : list str) (i : nat)
  (lbl txt : str) :
  nth_error header i = Some lbl -> nth_error cells i = Some txt ->
  (forall j l, nth_error header j = Some l ->
               synonym l = synonym lbl -> j = i) ->
  ~ In (u "cells") header ->
  exists row n0,
    extract_row header cells = Ok row /\
    map_fields row header = Ok n0 /\ norm_ok n0 /\
    sget (synonym lbl) n0 = Some (NStr txt).
Proof.
  intros Hlbl Htxt Huniq Hnocells.
  assert (Hne : cells <> []) by (intros ->; destruct i; discriminate).
  rewrite (extract_row_shape header cells Hne).
  assert (H0 : norm_ok [(u "raw", NRow (positional_row cells))]).
  { constructor; [left; reflexivity | constructor]. }
  destruct (Nat.eqb (List.length header) (List.length cells)) eqn:E.
  - exists (mapping_row header cells). eexists.
    split; [reflexivity|]. unfold map_fields.
    rewrite (mapping_row_no_cells header cells Hnocells).
    split; [reflexivity|]. split.
    { apply map_items_norm_ok; [apply mapping_row_texts|].
      constructor; [left; reflexivity | constructor]. }
    set (p := fun kv : str * cellval =>
                str_eqb (synonym (fst kv)) (synonym lbl)).
    destruct (mapping_row_has header cells i lbl txt Hlbl Htxt) as [v Hv].
    assert (Hex : existsb p (mapping_row header cells) = true).
    { apply existsb_exists. exists (lbl, v). split; [exact Hv|].
      unfold p. cbn [fst]. apply str_eqb_refl. }
    destruct (last_split p _ Hex) as (pre & [k x] & post & Hsplit & Hp & Hpost).
    unfold p in Hp. cbn [fst] in Hp. apply str_eqb_eq in Hp.
    assert (Hin : In (k, x) (mapping_row header cells))
      by (rewrite Hsplit; apply in_or_app; right; left; reflexivity).
    destruct (mapping_row_In _ _ _ _ Hin) as (c & j & -> & Hj & Hc).
    assert (j = i) by (apply (Huniq j k Hj Hp)). subst j.
    assert (c = txt) by congruence. subst c.
    rewrite Hsplit, <- Hp. rewrite map_items_at; [reflexivity|].
    intros kv Hkv. specialize (Hpost kv Hkv). unfold p in Hpost.
    apply str_eqb_neq in Hpost. congruence.
  - exists (positional_row cells).
    assert (Hv := positional_has_cells cells).
    destruct (map_cells_total (positional_row cells) (CCells cells) header
                Hv 0 _ H0) as (n0 & Hn0 & Hok).
    exists n0. split; [reflexivity|]. unfold map_fields.
    assert (Hhas : shas (u "cells") (positional_row cells) = true).
    { unfold shas, dict_has. unfold sget in Hv. rewrite Hv. reflexivity. }
    rewrite Hhas. split; [exact Hn0|]. split; [exact Hok|].
    destruct (nth_error_split header i Hlbl) as (pre & post & Hsplit & Hlen).
    rewrite Hsplit in Hn0.
    apply (map_cells_at (positional_row cells) cells lbl txt post Hv)
      with (pre := pre) (i := 0) (n := [(u "raw", NRow (positional_row cells))]).
    + intros h Hh Heq. apply In_nth_error in Hh. destruct Hh as [m Hm].
      assert (Hj : nth_error header (List.length pre + S m) = Some h).
      { rewrite Hsplit. rewrite nth_error_app2 by lia.
        replace (List.length pre + S m - List.length pre) with (S m) by lia.
        exact Hm. }
      assert (List.length pre + S m = i) by (apply (Huniq _ h Hj); congruence).
      lia.
    + exact Hn0.
    + simpl. rewrite Hlen. exact Htxt.
Qed.

(** X12. In the normalized row of a table whose column [i] is the only one
    that maps to its field (and that has no column labelled [cells]): a
    field other than [name] and [required] holds the cell text of the column
    unchanged; the field [name] holds the first line of the cell text,
    stripped, so it has no line break and no surrounding whitespace (an
    empty cell stays empty). *)
Theorem normalized_column (header cells : list str) (i : nat)
  (lbl txt : str) :
  nth_error header i = Some lbl -> nth_error cells i = Some txt ->
  (forall j l, nth_error header j = Some l ->
               synonym l = synonym lbl -> j = i) ->
  ~ In (u "cells") header ->
  exists row n,
    extract_row header cells = Ok row /\
    normalize_row row header = Ok n /\
    (synonym lbl <> u "name" -> synonym lbl <> u "required" ->
     sget (synonym lbl) n = Some (NStr txt)) /\
    (synonym lbl = u "name" ->
     sget (u "name") n
     = Some (NStr (if str_truthy txt
                   then strip (takewhile not_newline txt) else txt)) /\
     forall s, sget (u "name") n = Some (NStr s) ->
               ~ In 10%N s /\ strip s = s).
Proof.
  intros Hlbl Htxt Huniq Hnocells.
  destruct (map_fields_column header cells i lbl txt Hlbl Htxt Huniq Hnocells)
    as (row & n0 & Hrow & Hn0 & Hok & Hget).
  destruct (cleanup_name_total n0 Hok) as (n1 & H1 & _).
  exists row, (normalize_required n1). split; [exact Hrow|]. split.
  { unfold normalize_row. rewrite Hn0. cbn [rbind]. rewrite H1. reflexivity. }
  split.
  - intros Hname Hreq.
    rewrite (normalize_required_other _ n1 Hreq).
    rewrite (cleanup_name_other _ n0 n1 Hname H1). exact Hget.
  - intros Hname. rewrite Hname in Hget.
    assert (Hfinal : sget (u "name") (normalize_required n1)
                     = Some (NStr (clean_name txt))).
    { rewrite normalize_required_other
        by (intros E; symmetry in E; apply required_is_not_name, E).
      apply (cleanup_name_spec n0 n1 txt Hget H1). }
    split; [exact Hfinal|]. intros s Hs. rewrite Hfinal in Hs.
    injection Hs as <-. apply clean_name_tidy.
Qed.

Lemma normalized_column_witness :
  exists row n,
    extract_row [u "参数"; u "说明"] [u " size"; u "The size"] = Ok row /\
    normalize_row row [u "参数"; u "说明"] = Ok n /\
    sget (u "description") n = Some (NStr (u "The size")).
Proof.
  destruct (normalized_column [u "参数"; u "说明"] [u " size"; u "The size"]
              1 (u "说明") (u "The size"))
    as (row & n & A & B & C & _).
  - reflexivity.
  - reflexivity.
  - intros [|[|[|j]]] l; cbn [nth_error]; intros [= <-] Hs;
      try reflexivity; vm_compute in Hs; discriminate.
  - intros [H|[H|[]]]; vm_compute in H; discriminate.
  - exists row, n. split; [exact A|]. split; [exact B|].
    assert (E : synonym (u "说明") = u "description")
      by (vm_compute; reflexivity).
    rewrite <- E. apply C; rewrite E; vm_compute; discriminate.
Defined.

(** ** Lookup in a mapping row *)

Lemma fold_row_other (k : str) (pairs : list (str * str)) (d : Row) :
  (forall hc, In hc pairs -> fst hc <> k) ->
  sget k (fold_left (fun d hc => sset (fst hc) (CStr (snd hc)) d) pairs d)
  = sget k d.
Proof.
  revert d. induction pairs as [|[h c] pairs IH]; intros d Hother;
    [reflexivity|].
  cbn [fold_left fst snd]. rewrite IH.
  - rewrite sget_sset.
    assert (E : str_eqb k h = false).
    { apply str_eqb_neq. intros ->. apply (Hother (h, c)); [left|];
        reflexivity. }
    rewrite E. reflexivity.
  - intros hc Hin. apply Hother. right. exact Hin.
Qed.

Lemma fold_row_at (k c : str) (pre post : list (str * str)) (d : Row) :
  (forall hc, In hc post -> fst hc <> k) ->
  sget k (fold_left (fun d hc => sset (fst hc) (CStr (snd hc)) d)
                    (pre ++ (k, c) :: post) d)
  = Some (CStr c).
Proof.
  intros Hpost. rewrite fold_left_app. cbn [fold_left fst snd].
  rewrite (fold_row_other k post _ Hpost).
  rewrite sget_sset, str_eqb_refl. reflexivity.
Qed.

Lemma nth_error_combine {A B} (l1 : list A) (l2 : list B) (j : nat)
  (a : A) (b : B) :
  nth_error (combine l1 l2) j = Some (a, b) <->
  nth_error l1 j = Some a /\ nth_error l2 j = Some b.
Proof.
  revert l2 j. induction l1 as [|x l1 IH]; intros [|y l2] [|j];
    cbn [combine nth_error]; try (split; [discriminate | intros [? ?];
                                                          discriminate]).
  - split; [intros [= -> ->]; auto | intros [[= ->] [= ->]]; reflexivity].
  - apply IH.
Qed.

Lemma In_shas {V} (k : str) (v : V) (d : sdict V) :
  In (k, v) d -> shas k d = true.
Proof.
  unfold shas, dict_has. induction d as [|[k0 v0] d IH]; [intros []|].
  cbn [dict_get]. destruct (str_eqb k k0) eqn:E; [reflexivity|].
  intros [[= -> _]|H]; [rewrite str_eqb_refl in E; discriminate | auto].
Qed.

(** X13. When the cell count equals the header length, the row dictionary
    has exactly the header labels as keys, and under a label it has the text
    of the last cell whose column carries that label: with a header label
    that occurs twice the later column wins. *)
Theorem mapping_row_lookup (header cells : list str) (i : nat) (k c : str) :
  List.length header = List.length cells ->
  nth_error header i = Some k -> nth_error cells i = Some c ->
  (forall j, i < j -> nth_error header j <> Some k) ->
  exists row,
    extract_row header cells = Ok row /\
    sget k row = Some (CStr c) /\
    (forall k', shas k' row = true <-> In k' header).
Proof.
  intros Hlen Hk Hc Hlast.
  assert (Hne : cells <> []) by (intros ->; destruct i; discriminate).
  rewrite (extract_row_shape header cells Hne).
  apply Nat.eqb_eq in Hlen. rewrite Hlen. apply Nat.eqb_eq in Hlen.
  exists (mapping_row header cells). split; [reflexivity|]. split.
  - unfold mapping_row.
    assert (Hnth : nth_error (combine header cells) i = Some (k, c))
      by (apply nth_error_combine; auto).
    destruct (nth_error_split _ _ Hnth) as (pre & post & Hsplit & Hpre).
    rewrite Hsplit. apply fold_row_at.
    intros [k' c'] Hin Heq. cbn [fst] in Heq. subst k'.
    apply In_nth_error in Hin. destruct Hin as [m Hm].
    assert (Hj : nth_error (combine header cells) (i + S m) = Some (k, c')).
    { rewrite Hsplit, nth_error_app2 by lia.
      replace (i + S m - List.length pre) with (S m) by lia. exact Hm. }
    apply nth_error_combine in Hj. destruct Hj as [Hj _].
    apply (Hlast (i + S m)); [lia | exact Hj].
  - intros k'. split.
    + intros Hhas. apply shas_sget in Hhas. destruct Hhas as [v Hv].
      apply sget_In in Hv.
      destruct (mapping_row_In _ _ _ _ Hv) as (c' & j & _ & Hj & _).
      apply (nth_error_In _ _ Hj).
    + intros Hin. apply In_nth_error in Hin. destruct Hin as [j Hj].
      assert (Hjc : exists c', nth_error cells j = Some c').
      { destruct (nth_error cells j) as [c'|] eqn:E; [eauto|].
        apply nth_error_None in E.
        assert (j < List.length header)
          by (apply nth_error_Some; congruence).
        lia. }
      destruct Hjc as [c' Hc'].
      destruct (mapping_row_has header cells j k' c' Hj Hc') as [v Hv].
      apply (In_shas _ _ _ Hv).
Qed.

Lemma mapping_row_lookup_witness :
  exists row,
    extract_row [u "参数"; u "说明"; u "参数"] [u "a"; u "b"; u "c"] = Ok row /\
    sget (u "参数") row = Some (CStr (u "c")).
Proof.
  destruct (mapping_row_lookup [u "参数"; u "说明"; u "参数"]
              [u "a"; u "b"; u "c"] 2 (u "参数") (u "c"))
    as (row & A & B & _).
  - reflexivity.
  - reflexivity.
  - reflexivity.
  - intros [|[|[|j]]] Hj; try lia. cbn [nth_error]. destruct j; discriminate.
  - exists row. auto.
Defined.

(** ** Details and the export *)

Section ExportMore.
Context {P : Platform}.

(** The text of a fetched page can be encoded, so the parser accepts it. *)
Lemma get_component_detail_cases (target : str) (force : bool) (w : World) :
  match fetch_url target force w with
  | (Raise e, w1) =>
      get_component_detail (Some target) force w = (Raise e, w1)
  | (Ok html, w1) =>
      exists d,
        get_component_detail (Some target) force w = (Ok d, w1) /\
        source_url d = Some target /\ detail_name d = None /\
        exists parsed,
          parse_component html = Ok parsed /\
          title d = title parsed /\ intro d = intro parsed /\
          props d = props parsed /\ events d = events parsed /\
          methods d = methods parsed /\
          other_tables d = other_tables parsed /\
          table_summary d = table_summary parsed /\
          examples d = examples parsed /\ props_flat d = props_flat parsed
  end.
Proof.
  unfold get_component_detail.
  destruct (fetch_url target force w) as [[html|e] w1] eqn:F; [|reflexivity].
  cbn [rbind]. unfold parse_component.
  rewrite (@fetch_url_encodable P target force w html w1 F).
  destruct (parse_component_soup_total (BeautifulSoup html)) as [parsed Hp].
  rewrite Hp. cbn [rbind]. eexists. split; [reflexivity|].
  cbn [source_url detail_name]. split; [reflexivity|].
  split; [|exists parsed; cbn; repeat split; reflexivity].
  unfold parse_component_soup in Hp.
  destruct (mapM table_object _) as [cl|]; cbn [rbind] in Hp; [|discriminate].
  destruct (flatten_props _) as [flat|]; cbn [rbind] in Hp; [|discriminate].
  injection Hp as <-. reflexivity.
Qed.

(** X14. [get_component_detail] raises only when the fetch raises, with the
    exception of the fetch; otherwise it returns the parsed page with
    [source_url] set to the URL fetched. *)
Theorem detail_fails_only_with_fetch (target : str) (force : bool)
  (w : World) :
  match fetch_url target force w with
  | (Raise e, w1) =>
      get_component_detail (Some target) force w = (Raise e, w1)
  | (Ok html, w1) =>
      exists d,
        get_component_detail (Some target) force w = (Ok d, w1) /\
        source_url d = Some target /\ detail_name d = None /\
        exists parsed,
          parse_component html = Ok parsed /\
          title d = title parsed /\ intro d = intro parsed /\
          props d = props parsed /\ events d = events parsed /\
          methods d = methods parsed /\
          other_tables d = other_tables parsed /\
          table_summary d = table_summary parsed /\
          examples d = examples parsed /\ props_flat d = props_flat parsed
  end.
Proof. apply get_component_detail_cases. Qed.

Lemma try_detail_entry (comp : Summary) (force : bool) (w : World) :
  entry_for comp
    match fst (try_detail comp force w) with
    | Ok detail => EDetail detail
    | Raise e => EError (name comp) (exn_msg e)
    end /\
  ((url comp = None \/ url comp = Some []) ->
   snd (try_detail comp force w) = w).
Proof.
  unfold try_detail. destruct (url comp) as [[|c t]|] eqn:Hu.
  - cbn [str_truthy fst snd exn_msg entry_for]. auto.
  - cbn [str_truthy]. split; [|intros [H|H]; discriminate].
    pose proof (get_component_detail_cases (c :: t) force w) as Hd.
    destruct (fetch_url (c :: t) force w) as [[html|e] w1].
    + destruct Hd as (d & -> & Hsrc & _). cbn [rbind fst entry_for].
      unfold with_name. cbn [detail_name source_url].
      rewrite Hu. split; [reflexivity|]. split; [exact Hsrc|].
      exists (c :: t). split; [reflexivity | discriminate].
    + rewrite Hd. cbn [rbind fst entry_for]. rewrite Hu.
      split; [reflexivity|]. intros [H|H]; discriminate.
  - cbn [fst snd exn_msg entry_for]. auto.
Qed.

(** X15. The export loop records exactly one entry per catalog entry, in
    order: a detail carries the component's name and its URL as
    [source_url]; an error entry carries the component's name; a component
    without a URL (missing or empty) gets the error [Missing URL]. *)
Theorem collect_details_entries (index : list Summary) (force : bool)
  (w : World) :
  Forall2 entry_for index (fst (collect_details index force w)).
Proof.
  revert w. induction index as [|comp rest IH]; intros w; [constructor|].
  cbn [collect_details].
  pose proof (try_detail_entry comp force w) as [Hentry _].
  destruct (try_detail comp force w) as [r w1]. cbn [fst] in Hentry.
  specialize (IH w1). destruct (collect_details rest force w1) as [more w2].
  cbn [fst] in *. constructor; assumption.
Qed.

(** X16. A component without a URL costs no fetch: the world after its
    turn in the export loop is the world before. *)
Theorem missing_url_no_fetch (comp : Summary) (rest : list Summary)
  (force : bool) (w : World) :
  url comp = None \/ url comp = Some [] ->
  collect_details (comp :: rest) force w
  = (EError (name comp) (u "Missing URL")
       :: fst (collect_details rest force w),
     snd (collect_details rest force w)).
Proof.
  intros Hu. cbn [collect_details]. unfold try_detail.
  destruct Hu as [-> | ->]; cbn [str_truthy exn_msg];
    destruct (collect_details rest force w); reflexivity.
Qed.

(** X17. The export as a whole raises only when the catalog cannot be built
    or the file cannot be written: no failure of a component page ends
    it. *)
Theorem export_raises_only_for_index_or_file (force validate : bool)
  (path : value) (w w' : World) (e : exn) :
  export_all_components force path validate w = (Raise e, w') ->
  build_component_index force w = (Raise e, w') \/
  exists index w1 record w2,
    build_component_index force w = (Ok index, w1) /\
    write_json (if truthy path then path else VStr default_export_path)
               record w2 = (Raise e, w').
Proof.
  unfold export_all_components.
  destruct (build_component_index force w) as [[index|e0] w1] eqn:B.
  - destruct (collect_details index force w1) as [all w2].
    destruct (write_json _ _ w2) as [[[]|e1] w3] eqn:Wr; [discriminate|].
    intros [= <- <-]. right. exists index, w1. eexists. exists w2.
    split; [reflexivity | exact Wr].
  - intros [= <- <-]. left. reflexivity.
Qed.

(** X18. When the export returns, it has written one record to the path
    it returns: the record holds the entries of the export loop, in order
    (with [validate], those that are not errors), their number as [count]
    and the time after the loop; the count returned is that number: the
    catalog size without [validate], the number of components whose detail
    was built with it; it never exceeds the catalog size, and the path
    returned is the one given, or the default path when none (or an empty
    one) was given. *)
Theorem export_count_and_path (force validate : bool) (path : value)
  (w w' : World) (r : ExportReturn) :
  export_all_components force path validate w = (Ok r, w') ->
  exists index w1,
    build_component_index force w = (Ok index, w1) /\
    (let entries := fst (collect_details index force w1) in
     let w2 := snd (collect_details index force w1) in
     let written :=
       if validate then filter (fun d => negb (has_error d)) entries
       else entries in
     write_json (filepath r)
       {| generated_at := time_time w2;
          rec_count := count r;
          components := written |} w2 = (Ok tt, w') /\
     count r = List.length written) /\
    count r
    = (if validate
       then List.length
              (filter (fun d => negb (has_error d))
                      (fst (collect_details index force w1)))
       else List.length index) /\
    count r <= List.length index /\
    filepath r = (if truthy path then path else VStr default_export_path).
Proof.
  unfold export_all_components.
  destruct (build_component_index force w) as [[index|e] w1] eqn:B;
    [|discriminate].
  pose proof (collect_details_length index force w1) as Hlen.
  destruct (collect_details index force w1) as [all w2] eqn:C.
  destruct (write_json _ _ w2) as [[[]|e] w3] eqn:Wr; [|discriminate].
  intros [= <- <-]. exists index, w1. rewrite C.
  cbn [count filepath fst snd] in *. split; [reflexivity|].
  split; [split; [exact Wr | reflexivity]|].
  destruct validate.
  - split; [reflexivity|]. split; [|reflexivity].
    rewrite <- Hlen. apply filter_length_le.
  - split; [exact Hlen|]. split; [lia | reflexivity].
Qed.

End ExportMore.

Lemma missing_url_no_fetch_witness :
  @collect_details all_pages [sample_long_unlinked] false []
  = ([EError (u "Button") (u "Missing URL")], []).
Proof.
  rewrite (@missing_url_no_fetch all_pages sample_long_unlinked [] false []).
  - reflexivity.
  - left. reflexivity.
Defined.

Lemma export_raises_only_for_index_or_file_witness :
  @build_component_index overview_fails false []
  = (Raise (Exn FetchError
              (u "Failed " ++ (BASE_URL ++ OVERVIEW_PATH) ++ u " status=404")),
     [BASE_URL ++ OVERVIEW_PATH]) \/
  exists index w1 record w2,
    @build_component_index overview_fails false [] = (Ok index, w1) /\
    @write_json overview_fails
      (if truthy VNone then VNone
       else VStr (@default_export_path overview_fails)) record w2
    = (Raise (Exn FetchError
                (u "Failed " ++ (BASE_URL ++ OVERVIEW_PATH)
                 ++ u " status=404")),
       [BASE_URL ++ OVERVIEW_PATH]).
Proof.
  apply (@export_raises_only_for_index_or_file overview_fails false true
           VNone []).
  vm_compute. reflexivity.
Defined.

Lemma export_count_and_path_witness :
  exists (index : list Summary) w1,
    @build_component_index table_fails false [] = (Ok index, w1) /\
    2 = List.length
          (filter (fun d => negb (has_error d))
                  (fst (@collect_details table_fails index false w1))) /\
    2 <= List.length index.
Proof.
  destruct (@export_count_and_path table_fails false true VNone []
              (snd (@export_all_components table_fails false VNone true []))
              {| filepath := VStr (u "exports/antd_components_all.json");
                 count := 2; errors := 0 |})
    as (index & w1 & HB & [_ Hn] & _ & Hle & _); [vm_compute; reflexivity|].
  exists index, w1. split; [exact HB|]. split; [exact Hn | exact Hle].
Defined.

(** ** The caches of the server *)

Section Caches.
Context {P : Platform}.

Lemma url_eqb_eq (a b : option str) : url_eqb a b = true <-> a = b.
Proof.
  destruct a as [x|], b as [y|]; cbn [url_eqb];
    try (split; [discriminate | discriminate]); try tauto.
  rewrite str_eqb_eq. split; [intros -> | intros [= ->]]; reflexivity.
Qed.

Lemma In_dict_set_url (k k' : option str) (v v' : ComponentDetail)
  (d : dict (option str) ComponentDetail) :
  In (k, v) (dict_set url_eqb k' v' d) -> (k = k' /\ v = v') \/ In (k, v) d.
Proof.
  induction d as [|[k0 v0] d IH]; cbn [dict_set].
  - intros [[= <- <-]|[]]. auto.
  - destruct (url_eqb k' k0) eqn:E.
    + apply url_eqb_eq in E. subst k0. intros [[= <- <-]|H]; auto.
      right. right. exact H.
    + intros [H|H]; [right; left; exact H|].
      destruct (IH H); auto. right. right. assumption.
Qed.

Lemma dict_get_set_url (k : option str) (v : ComponentDetail)
  (d : dict (option str) ComponentDetail) :
  dict_get url_eqb k (dict_set url_eqb k v d) = Some v.
Proof.
  induction d as [|[k0 v0] d IH]; cbn [dict_set dict_get].
  - assert (E : url_eqb k k = true) by (apply url_eqb_eq; reflexivity).
    rewrite E. reflexivity.
  - destruct (url_eqb k k0) eqn:E; cbn [dict_get]; rewrite E;
      [reflexivity | exact IH].
Qed.

Lemma parse_overview_catalog (html : str) (catalog : list Summary) :
  parse_overview html = Ok catalog ->
  Forall good_url catalog /\
  NoDup (map (fun c => lower (name c)) catalog).
Proof.
  unfold parse_overview.
  destruct (mapM card_summary _) as [cards|]; cbn [rbind]; [|discriminate].
  destruct (mapM menu_summary _) as [menu|]; cbn [rbind]; [|discriminate].
  intros [= <-].
  pose proof (cleaned_ok_fold (somes cards ++ menu) [] cleaned_ok_empty)
    as Hok.
  split.
  - apply Forall_forall. intros c Hin. apply is_valid_good_url.
    unfold merge, dict_values in Hin. apply in_map_iff in Hin.
    destruct Hin as ([k v] & <- & Hin). apply (proj2 Hok k v Hin).
  - unfold merge. rewrite (keys_of_values _ Hok). apply (proj1 Hok).
Qed.

Lemma build_component_index_catalog (force : bool) (w w1 : World)
  (idx : list Summary) :
  build_component_index force w = (Ok idx, w1) ->
  Forall good_url idx /\ NoDup (map (fun c => lower (name c)) idx).
Proof.
  unfold build_component_index.
  destruct (fetch_url _ force w) as [[html|e] w0]; cbn [rbind];
    [|discriminate].
  intros [= H _]. apply (parse_overview_catalog html idx H).
Qed.

(** X19. Once [ensure_index] has returned a catalog, every later call
    without [force] returns the same catalog from the cache, whatever the
    world is, and touches neither the caches nor the world; a call that
    raises leaves the caches as they were. *)
Theorem ensure_index_caches (force : bool) (st : ServerState) (w : World) :
  (forall idx st1 w1,
      ensure_index force st w = (Ok idx, st1, w1) ->
      _index_cache st1 = Some idx /\
      _details_cache st1 = _details_cache st /\
      forall w2, ensure_index false st1 w2 = (Ok idx, st1, w2)) /\
  (forall e st1 w1,
      ensure_index force st w = (Raise e, st1, w1) -> st1 = st).
Proof.
  unfold ensure_index. split.
  - intros idx st1 w1.
    destruct (_index_cache st) as [cached|] eqn:C; destruct force;
      try (destruct (build_component_index _ w) as [[i|e] w0];
           [|discriminate]; intros [= <- <- _]; cbn;
           repeat split; reflexivity).
    intros [= <- <- _]. rewrite C. repeat split; reflexivity.
  - intros e st1 w1.
    destruct (_index_cache st) as [cached|]; destruct force;
      try discriminate;
      destruct (build_component_index _ w) as [[i|e0] w0];
      try discriminate; intros [= _ <- _]; reflexivity.
Qed.

Lemma ensure_index_keeps_ok (force : bool) : keeps_ok (ensure_index force).
Proof.
  intros st w [Hi Hd]. unfold ensure_index, state_after.
  destruct (_index_cache st) as [cached|] eqn:C; destruct force;
    try (destruct (build_component_index _ w) as [[i|e] w0] eqn:B;
         cbn [fst snd]; [|split; assumption]; split;
         [intros idx [= <-]; apply (build_component_index_catalog _ _ _ _ B)
         | exact Hd]).
  cbn [fst snd]. split; assumption.
Qed.

Lemma get_component_detail_source (url_ : option str) (force : bool)
  (w w1 : World) (d : ComponentDetail) :
  get_component_detail url_ force w = (Ok d, w1) ->
  source_url d = url_ /\ exists target, url_ = Some target.
Proof.
  unfold get_component_detail. destruct url_ as [target|]; [|discriminate].
  destruct (fetch_url target force w) as [[html|e] w0]; cbn [rbind];
    [|discriminate].
  destruct (parse_component html) as [data|e]; cbn [rbind]; [|discriminate].
  intros [= <- _]. cbn [source_url]. eauto.
Qed.

Lemma cached_detail_keeps_ok (url_ : option str) (force : bool) :
  keeps_ok (cached_detail url_ force).
Proof.
  intros st w [Hi Hd]. unfold cached_detail, state_after.
  assert (Live :
    server_ok
      (snd (fst (let '(r, w1) := get_component_detail url_ force w in
                 match r with
                 | Ok detail =>
                     (Ok detail,
                      {| _index_cache := _index_cache st;
                         _details_cache :=
                           dict_set url_eqb url_ detail (_details_cache st) |},
                      w1)
                 | Raise e => (Raise e, st, w1)
                 end)))).
  { destruct (get_component_detail url_ force w) as [[d|e] w1] eqn:G;
      cbn [fst snd]; [|split; assumption].
    split; [exact Hi|]. intros k v Hin. cbn [_details_cache] in Hin.
    destruct (In_dict_set_url _ _ _ _ _ Hin) as [[-> ->]|Hold].
    - apply (get_component_detail_source _ _ _ _ _ G).
    - apply (Hd k v Hold). }
  destruct (dict_get url_eqb url_ (_details_cache st)) as [d0|];
    destruct force; try exact Live.
  cbn [fst snd]. split; assumption.
Qed.

Lemma ret_keeps_ok {A} (a : A) : keeps_ok (ret a).
Proof. intros st w H. exact H. Qed.

Lemma raise_keeps_ok {A} (e : exn) : keeps_ok (@raise P A e).
Proof. intros st w H. exact H. Qed.

Lemma lift_keeps_ok {A} (r : result A) : keeps_ok (lift r).
Proof. intros st w H. exact H. Qed.

Lemma bind_keeps_ok {A B} (m : M A) (f : A -> M B) :
  keeps_ok m -> (forall a, keeps_ok (f a)) -> keeps_ok (bind m f).
Proof.
  intros Hm Hf st w Hst. unfold bind, state_after.
  specialize (Hm st w Hst). unfold state_after in Hm.
  destruct (m st w) as [[[a|e] st1] w1]; cbn [fst snd] in *.
  - apply (Hf a st1 w1 Hm).
  - exact Hm.
Qed.

Lemma process_tool_call_keeps_ok (tool_name arguments : value) :
  keeps_ok (process_tool_call tool_name arguments).
Proof.
  assert (Hlookup : forall (k : ComponentDetail -> tool_result) params,
    keeps_ok
      (if negb (truthy (vget (u "name") VNone params))
       then ret (RError not_provided)
       else
         bind (ensure_index (truthy (vget (u "force") (VBool false) params)))
           (fun idx =>
              bind (lift (find_target idx (vget (u "name") VNone params)))
                (fun target =>
                   match target with
                   | None =>
                       ret (RError (not_found (vget (u "name") VNone params)))
                   | Some t =>
                       bind (cached_detail (url t)
                               (truthy (vget (u "force") (VBool false) params)))
                            (fun detail => ret (k detail))
                   end)))).
  { intros k params. destruct (negb _); [apply ret_keeps_ok|].
    apply bind_keeps_ok; [apply ensure_index_keeps_ok|]. intros idx.
    apply bind_keeps_ok; [apply lift_keeps_ok|]. intros [t|];
      [|apply ret_keeps_ok].
    apply bind_keeps_ok; [apply cached_detail_keeps_ok|]. intros d.
    apply ret_keeps_ok. }
  unfold process_tool_call.
  destruct (value_is_str tool_name (u "list_components")).
  { unfold handle_list_components.
    apply bind_keeps_ok; [apply lift_keeps_ok|]. intros params.
    apply bind_keeps_ok; [apply ensure_index_keeps_ok|]. intros idx.
    apply ret_keeps_ok. }
  destruct (value_is_str tool_name (u "get_component")).
  { unfold handle_get_component.
    apply bind_keeps_ok; [apply lift_keeps_ok|]. intros params.
    apply (Hlookup RDetail params). }
  destruct (value_is_str tool_name (u "search_components")).
  { unfold handle_search_components.
    destruct arguments as [| | | | |params]; try apply raise_keeps_ok.
    destruct (sget (u "query") params) as [q|]; [|apply raise_keeps_ok].
    apply bind_keeps_ok; [apply lift_keeps_ok|]. intros query.
    apply bind_keeps_ok; [apply ensure_index_keeps_ok|]. intros idx.
    apply ret_keeps_ok. }
  destruct (value_is_str tool_name (u "export_all")).
  { unfold handle_export_all.
    apply bind_keeps_ok; [apply lift_keeps_ok|]. intros params.
    intros st w Hst. unfold state_after.
    destruct (export_all_components _ _ true w) as [[r|e] w1]; exact Hst. }
  destruct (value_is_str tool_name (u "get_component_props")).
  { unfold handle_get_component_props.
    apply bind_keeps_ok; [apply lift_keeps_ok|]. intros params.
    apply (Hlookup (fun detail =>
                      RProps (vget (u "name") VNone params)
                             (props_flat detail)
                             (List.length (props_flat detail))) params). }
  apply ret_keeps_ok.
Qed.

Lemma process_request_keeps_ok (req : sdict value) :
  keeps_ok (process_request req).
Proof.
  unfold process_request.
  destruct (value_is_str _ (u "tools/list")); [apply ret_keeps_ok|].
  destruct (value_is_str _ (u "tools/call")); [|apply ret_keeps_ok].
  apply bind_keeps_ok; [apply lift_keeps_ok|]. intros params.
  apply bind_keeps_ok; [apply lift_keeps_ok|]. intros known.
  destruct (negb known); [apply ret_keeps_ok|].
  intros st w Hst. unfold state_after.
  pose proof (process_tool_call_keeps_ok
                (vget (u "name") VNone params)
                (if truthy (vget (u "arguments") (VDict []) params)
                 then vget (u "arguments") (VDict []) params else VDict [])
                st w Hst) as H.
  unfold state_after in H.
  destruct (process_tool_call _ _ st w) as [[[res|e] st1] w1]; exact H.
Qed.

(** X20. Whatever the request and the world, [process_request] keeps the
    caches well formed: a cached catalog has only absolute URLs under
    [/components/] and distinct lower-cased names, and every cached detail
    is stored under the URL it was fetched from, its [source_url]. The
    caches of a server that starts empty are well formed. *)
Theorem process_request_keeps_caches (req : sdict value) (st : ServerState)
  (w : World) :
  server_ok fresh /\
  (server_ok st -> server_ok (state_after (process_request req st w))).
Proof.
  split; [|apply process_request_keeps_ok].
  split; [intros idx; discriminate | intros k d []].
Qed.

End Caches.

Lemma process_request_keeps_caches_witness :
  @server_ok all_pages
    (@state_after all_pages _
       (@process_request all_pages
          [(u "id", VNum 1); (u "method", VStr (u "tools/call"));
           (u "params", VDict [(u "name", VStr (u "get_component"));
                               (u "arguments",
                                VDict [(u "name", VStr (u "button"))])])]
          fresh [])).
Proof.
  destruct (@process_request_keeps_caches all_pages
              [(u "id", VNum 1); (u "method", VStr (u "tools/call"));
               (u "params", VDict [(u "name", VStr (u "get_component"));
                                   (u "arguments",
                                    VDict [(u "name", VStr (u "button"))])])]
              fresh []) as [Hfresh Hstep].
  apply Hstep, Hfresh.
Defined.

Lemma ensure_index_caches_witness :
  @ensure_index all_pages false indexed [u "later"]
  = (Ok demo_catalog, indexed, [u "later"]).
Proof.
  destruct (@ensure_index_caches all_pages false fresh []) as [Hok _].
  destruct (Hok demo_catalog indexed [BASE_URL ++ OVERVIEW_PATH])
    as (_ & _ & Hagain); [vm_compute; reflexivity|].
  apply Hagain.
Defined.

(** ** Repeated lookups and envelopes *)

Section Lookups.
Context {P : Platform}.

Lemma ensure_index_result (force : bool) (st st1 : ServerState)
  (w w1 : World) (idx : list Summary) :
  ensure_index force st w = (Ok idx, st1, w1) ->
  _index_cache st1 = Some idx /\ _details_cache st1 = _details_cache st.
Proof.
  unfold ensure_index.
  destruct (_index_cache st) as [cached|] eqn:C; destruct force;
    try (destruct (build_component_index _ w) as [[i|e] w0];
         [|discriminate]; intros [= <- <- _]; cbn; split; reflexivity).
  intros [= <- <- _]. split; [exact C | reflexivity].
Qed.

Lemma ensure_index_hit (st : ServerState) (w : World) (idx : list Summary) :
  _index_cache st = Some idx -> ensure_index false st w = (Ok idx, st, w).
Proof. intros C. unfold ensure_index. rewrite C. reflexivity. Qed.

Lemma cached_detail_result (k : option str) (force : bool)
  (st st1 : ServerState) (w w1 : World) (d : ComponentDetail) :
  cached_detail k force st w = (Ok d, st1, w1) ->
  _index_cache st1 = _index_cache st /\
  dict_get url_eqb k (_details_cache st1) = Some d.
Proof.
  unfold cached_detail.
  destruct (dict_get url_eqb k (_details_cache st)) as [d0|] eqn:G;
    destruct force;
    try (destruct (get_component_detail k _ w) as [[d1|e] w0];
         [|discriminate]; intros [= <- <- _]; cbn;
         split; [reflexivity | apply dict_get_set_url]).
  intros [= <- <- _]. split; [reflexivity | exact G].
Qed.

Lemma cached_detail_hit (k : option str) (st : ServerState) (w : World)
  (d : ComponentDetail) :
  dict_get url_eqb k (_details_cache st) = Some d ->
  cached_detail k false st w = (Ok d, st, w).
Proof. intros G. unfold cached_detail. rewrite G. reflexivity. Qed.

Lemma lookup_repeats (k : ComponentDetail -> tool_result)
  (params : sdict value) (st st1 : ServerState) (w w1 : World)
  (res : tool_result) :
  truthy (vget (u "force") (VBool false) params) = false ->
  let nm := vget (u "name") VNone params in
  let force := truthy (vget (u "force") (VBool false) params) in
  let lookup : M tool_result :=
    if negb (truthy nm) then ret (RError not_provided)
    else
      bind (ensure_index force)
        (fun idx =>
           bind (lift (find_target idx nm))
             (fun target =>
                match target with
                | None => ret (RError (not_found nm))
                | Some t =>
                    bind (cached_detail (url t) force)
                         (fun detail => ret (k detail))
                end)) in
  lookup st w = (Ok res, st1, w1) ->
  forall w2, lookup st1 w2 = (Ok res, st1, w2).
Proof.
  intros Hforce nm force lookup. unfold lookup, force. rewrite Hforce.
  unfold bind, lift, ret.
  destruct (negb (truthy nm)).
  { intros [= <- <- _] w2. reflexivity. }
  destruct (ensure_index false st w) as [[[idx|e] st0] w0] eqn:E;
    [|discriminate].
  destruct (ensure_index_result _ _ _ _ _ _ E) as [Hi _].
  destruct (find_target idx nm) as [[t|]|e] eqn:F; try discriminate.
  - destruct (cached_detail (url t) false st0 w0) as [[[d0|e] st2] w3] eqn:C;
      [|discriminate].
    intros [= <- <- _] w2.
    destruct (cached_detail_result _ _ _ _ _ _ _ C) as [Hi2 Hd].
    rewrite (ensure_index_hit st2 w2 idx) by congruence.
    rewrite F, (cached_detail_hit (url t) st2 w2 d0 Hd). reflexivity.
  - intros [= <- <- _] w2.
    rewrite (ensure_index_hit st0 w2 idx Hi), F. reflexivity.
Qed.

(** X21. A lookup that returned can be repeated: without [force], the same
    [get_component] or [get_component_props] request gives the same answer
    again (the same detail, the same props list with the same count, or the
    same error answer) from the caches, whatever the world has become, and
    changes neither the caches nor the world. *)
Theorem lookup_repeats_from_cache (params : sdict value)
  (st st1 : ServerState) (w w1 : World) (res : tool_result) :
  truthy (vget (u "force") (VBool false) params) = false ->
  (handle_get_component (VDict params) st w = (Ok res, st1, w1) ->
   forall w2,
     handle_get_component (VDict params) st1 w2 = (Ok res, st1, w2)) /\
  (handle_get_component_props (VDict params) st w = (Ok res, st1, w1) ->
   forall w2,
     handle_get_component_props (VDict params) st1 w2 = (Ok res, st1, w2)).
Proof.
  intros Hforce. split; intros H w2.
  - exact (lookup_repeats RDetail params st st1 w w1 res Hforce H w2).
  - exact (lookup_repeats
             (fun detail =>
                RProps (vget (u "name") VNone params) (props_flat detail)
                       (List.length (props_flat detail)))
             params st st1 w w1 res Hforce H w2).
Qed.

(** X22. Every envelope [process_request] returns carries the version
    [2.0] and the [id] of the request, or null when the request has
    none. *)
Theorem envelope_echoes_id (req : sdict value) (st st1 : ServerState)
  (w w1 : World) (env : envelope) :
  process_request req st w = (Ok env, st1, w1) ->
  env_version env = u "2.0" /\ env_id env = vget (u "id") VNone req /\
  (sget (u "id") req = None -> env_id env = VNone).
Proof.
  intros H.
  assert (E : env_version env = u "2.0"
              /\ env_id env = vget (u "id") VNone req).
  { revert H. unfold process_request, bind, lift, ret.
    destruct (value_is_str _ (u "tools/list"));
      [intros [= <- _ _]; split; reflexivity|].
    destruct (value_is_str _ (u "tools/call"));
      [|intros [= <- _ _]; split; reflexivity].
    destruct (as_dict _) as [params|e]; [|discriminate].
    destruct (in_TOOLS _) as [known|e]; [|discriminate].
    destruct (negb known); [intros [= <- _ _]; split; reflexivity|].
    destruct (process_tool_call _ _ st w) as [[[res|e] st2] w2];
      intros [= <- _ _]; split; reflexivity. }
  destruct E as [Ev Ei]. split; [exact Ev|]. split; [exact Ei|].
  intros Hnone. rewrite Ei. unfold vget. rewrite Hnone. reflexivity.
Qed.

End Lookups.

Lemma lookup_repeats_from_cache_witness :
  exists res st1,
    @handle_get_component_props all_pages
      (VDict [(u "name", VStr (u "button"))]) st1 [u "later"]
    = (Ok res, st1, [u "later"]) /\
    exists flat, res = RProps (VStr (u "button")) flat 1.
Proof.
  destruct (@handle_get_component_props all_pages
              (VDict [(u "name", VStr (u "button"))]) fresh [])
    as [[[res|e] st1] w1] eqn:E; [|vm_compute in E; discriminate].
  exists res, st1. split.
  - apply (proj2 (@lookup_repeats_from_cache all_pages
                    [(u "name", VStr (u "button"))] fresh st1 [] w1 res
                    eq_refl) E).
  - vm_compute in E. injection E as <- _ _. eexists. reflexivity.
Defined.

Lemma envelope_echoes_id_witness :
  exists env,
    outcome (@process_request all_pages [(u "method", VStr (u "ping"))]
               fresh []) = Ok env /\
    env_id env = VNone.
Proof.
  destruct (@process_request all_pages [(u "method", VStr (u "ping"))]
              fresh []) as [[[env|e] st1] w1] eqn:E;
    [|vm_compute in E; discriminate].
  exists env. split; [reflexivity|].
  destruct (@envelope_echoes_id all_pages [(u "method", VStr (u "ping"))]
              fresh st1 [] w1 env E) as (_ & _ & Hnone).
  apply Hnone. reflexivity.
Defined.

(** ** Dispatch of the registered tools *)

Ltac eval_tests :=
  repeat match goal with
         | |- context [value_is_str (VStr ?a) ?b] =>
             let v := eval vm_compute in (value_is_str (VStr a) b) in
             replace (value_is_str (VStr a) b) with v
               by (vm_compute; reflexivity)
         end.

Section DispatchMore.
Context {P : Platform}.

Lemma tool_names :
  map info_name tools_meta
  = [u "list_components"; u "get_component"; u "search_components";
     u "export_all"; u "get_component_props"].
Proof. vm_compute. reflexivity. Qed.

Lemma dispatch_of_listed (nm : str) (arguments : value) :
  In nm [u "list_components"; u "get_component"; u "search_components";
         u "export_all"; u "get_component_props"] ->
  exists h, In h handlers /\
            process_tool_call (VStr nm) arguments = h arguments.
Proof.
  unfold handlers.
  intros [<-|[<-|[<-|[<-|[<-|[]]]]]]; unfold process_tool_call; eval_tests;
    cbv iota; eexists; (split; [|reflexivity]); cbn [In]; tauto.
Qed.

(** X23. [tools/list] answers with the registered tools, in the order of
    [TOOLS], and changes nothing; each tool it lists is accepted by
    [tools/call] and is dispatched to one of the five handlers, never to
    the [not implemented] fallback. *)
Theorem tools_list_matches_dispatch (req : sdict value) (st : ServerState)
  (w : World) :
  value_is_str (vget (u "method") VNone req) (u "tools/list") = true ->
  process_request req st w
  = (Ok (ResultEnvelope (u "2.0") (vget (u "id") VNone req)
           (PTools tools_meta)), st, w) /\
  map info_name tools_meta = dict_keys TOOLS /\
  forall t, In t tools_meta ->
            registered (VStr (info_name t)) = true /\
            forall arguments,
            exists h, In h handlers /\
                      process_tool_call (VStr (info_name t)) arguments
                      = h arguments.
Proof.
  intros Hlist. split; [|split].
  - unfold process_request. rewrite Hlist. reflexivity.
  - vm_compute. reflexivity.
  - intros t Ht. apply (in_map info_name) in Ht. rewrite tool_names in Ht.
    split.
    + apply registered_names. exists (info_name t). auto.
    + intros arguments. apply dispatch_of_listed, Ht.
Qed.

Lemma process_request_call (req params : sdict value) (s : str)
  (st : ServerState) (w : World) :
  value_is_str (vget (u "method") VNone req) (u "tools/call") = true ->
  vget (u "params") (VDict []) req = VDict params ->
  vget (u "name") VNone params = VStr s ->
  registered (VStr s) = true ->
  process_request req st w
  = match process_tool_call (VStr s)
            (if truthy (vget (u "arguments") (VDict []) params)
             then vget (u "arguments") (VDict []) params else VDict [])
            st w
    with
    | (Ok res, st1, w1) =>
        (Ok (rpc_result (vget (u "id") VNone req) (PContent res)), st1, w1)
    | (Raise e, st1, w1) =>
        (Ok (rpc_error (vget (u "id") VNone req) (-32603)
               (u "Internal error: " ++ exn_msg e)), st1, w1)
    end.
Proof.
  intros Hcall Hparams Hname Hreg. unfold process_request.
  rewrite (tools_call_is_not_tools_list _ Hcall), Hcall, Hparams.
  unfold bind, lift, ret. cbn [as_dict]. rewrite Hname.
  unfold in_TOOLS. cbn [hashable]. rewrite Hreg. reflexivity.
Qed.

(** X24. A lookup without a name is answered inside a result envelope, as
    the content [{'error': 'Component name not provided in arguments'}],
    not as an error envelope; a search without a query is answered with the
    error envelope -32603 and the message [Internal error: 'query']. Neither
    touches the caches or the world. *)
Theorem missing_arguments (req params args : sdict value)
  (st : ServerState) (w : World) :
  value_is_str (vget (u "method") VNone req) (u "tools/call") = true ->
  vget (u "params") (VDict []) req = VDict params ->
  vget (u "arguments") (VDict []) params = VDict args ->
  (vget (u "name") VNone params = VStr (u "get_component")
   \/ vget (u "name") VNone params = VStr (u "get_component_props") ->
   truthy (vget (u "name") VNone args) = false ->
   process_request req st w
   = (Ok (ResultEnvelope (u "2.0") (vget (u "id") VNone req)
            (PContent
               (RError (u "Component name not provided in arguments")))),
      st, w)) /\
  (vget (u "name") VNone params = VStr (u "search_components") ->
   sget (u "query") args = None ->
   process_request req st w
   = (Ok (ErrorEnvelope (u "2.0") (vget (u "id") VNone req) (-32603)
            (u "Internal error: " ++ u "'query'")), st, w)).
Proof.
  intros Hcall Hparams Hargs.
  assert (Harg : (if truthy (vget (u "arguments") (VDict []) params)
                  then vget (u "arguments") (VDict []) params else VDict [])
                 = VDict args).
  { rewrite Hargs. destruct args; reflexivity. }
  split.
  - intros [Hname|Hname] Hfalse;
      rewrite (process_request_call req params _ st w Hcall Hparams Hname)
        by (vm_compute; reflexivity);
      rewrite Harg; unfold process_tool_call; eval_tests; cbv iota.
    + unfold handle_get_component, bind, lift, ret. cbn [as_dict].
      rewrite Hfalse. reflexivity.
    + unfold handle_get_component_props, bind, lift, ret. cbn [as_dict].
      rewrite Hfalse. reflexivity.
  - intros Hname Hquery.
    rewrite (process_request_call req params _ st w Hcall Hparams Hname)
      by (vm_compute; reflexivity).
    rewrite Harg. unfold process_tool_call. eval_tests. cbv iota.
    unfold handle_search_components, raise. rewrite Hquery. reflexivity.
Qed.

End DispatchMore.

Lemma tools_list_matches_dispatch_witness :
  @process_request all_pages
    [(u "id", VNum 7); (u "method", VStr (u "tools/list"))] fresh []
  = (Ok (ResultEnvelope (u "2.0")
           (vget (u "id") VNone
              [(u "id", VNum 7); (u "method", VStr (u "tools/list"))])
           (PTools tools_meta)), fresh, []).
Proof.
  apply (@tools_list_matches_dispatch all_pages
           [(u "id", VNum 7); (u "method", VStr (u "tools/list"))] fresh []).
  vm_compute. reflexivity.
Defined.

Lemma missing_arguments_witness :
  @process_request all_pages
    [(u "id", VNum 4); (u "method", VStr (u "tools/call"));
     (u "params", VDict [(u "name", VStr (u "search_components"))])] fresh []
  = (Ok (ErrorEnvelope (u "2.0")
           (vget (u "id") VNone
              [(u "id", VNum 4); (u "method", VStr (u "tools/call"));
               (u "params",
                VDict [(u "name", VStr (u "search_components"))])])
           (-32603) (u "Internal error: " ++ u "'query'")), fresh, []).
Proof.
  apply (@missing_arguments all_pages
           [(u "id", VNum 4); (u "method", VStr (u "tools/call"));
            (u "params", VDict [(u "name", VStr (u "search_components"))])]
           [(u "name", VStr (u "search_components"))] [] fresh []);
    vm_compute; reflexivity.
Defined.

(** ** The request loop *)

Section MainLoop.
Context {P : Platform}.
Variable loads : str -> result value.

(** X25. Lines that are blank once stripped do not matter to the loop:
    removing them from the input changes nothing of what is emitted, of
    whether the loop ends with an exception, and of the final caches and
    world. *)
Theorem blank_lines_skipped (lines : list str) (st : ServerState)
  (w : World) :
  serve_lines loads (filter (fun l => negb (blank l)) lines) st w
  = serve_lines loads lines st w.
Proof.
  revert st w. induction lines as [|l lines IH]; intros st w; [reflexivity|].
  cbn [filter]. unfold blank at 1.
  destruct (str_truthy (strip l)) eqn:E; cbn [negb].
  - cbn [serve_lines]. rewrite E. cbn [negb].
    destruct (loads (strip l)) as [req|e]; [|rewrite IH; reflexivity].
    destruct (process_request_any req st w) as [[[resp|e] st1] w1];
      [rewrite IH|]; reflexivity.
  - cbn [serve_lines]. rewrite E. cbn [negb]. apply IH.
Qed.

(** X27. The [--once] branch always emits exactly one envelope and never
    ends with an exception. On a stripped, non-empty line it emits what the
    loop emits for that line when the loop survives it; when the loop ends
    with an exception of [process_request], the [--once] branch reports
    that exception as a parse error, code -32700 with a null id. *)
Theorem once_and_loop (line : str) (st : ServerState) (w : World) :
  crashed (serve_once loads line st w) = None /\
  List.length (emitted (serve_once loads line st w)) = 1 /\
  (strip line = line -> line <> [] ->
   match crashed (serve_lines loads [line] st w) with
   | None => serve_lines loads [line] st w = serve_once loads line st w
   | Some e =>
       emitted (serve_lines loads [line] st w) = [] /\
       emitted (serve_once loads line st w)
       = [ErrorEnvelope (u "2.0") VNone (-32700)
            (u "Parse error: " ++ exn_msg e)]
   end).
Proof.
  unfold serve_once. split; [|split].
  - destruct (loads line) as [req|e]; [|reflexivity].
    destruct (process_request_any req st w) as [[[out|e] st1] w1];
      reflexivity.
  - destruct (loads line) as [req|e]; [|reflexivity].
    destruct (process_request_any req st w) as [[[out|e] st1] w1];
      reflexivity.
  - intros Hstrip Hne. cbn [serve_lines]. rewrite Hstrip.
    destruct line as [|c t]; [congruence|]. cbn [str_truthy negb].
    destruct (loads (c :: t)) as [req|e]; [|reflexivity].
    destruct (process_request_any req st w) as [[[out|e] st1] w1];
      cbn; auto.
Qed.

End MainLoop.

Lemma once_and_loop_witness :
  emitted (@serve_lines all_pages demo_loads [u "bad"] fresh []) = [] /\
  emitted (@serve_once all_pages demo_loads (u "bad") fresh [])
  = [ErrorEnvelope (u "2.0") VNone (-32700)
       (u "Parse error: "
        ++ exn_msg (Exn TypeError (u "unhashable type: 'list'")))].
Proof.
  destruct (@once_and_loop all_pages demo_loads (u "bad") fresh [])
    as (_ & _ & H).
  assert (E : crashed (@serve_lines all_pages demo_loads [u "bad"] fresh [])
              = Some (Exn TypeError (u "unhashable type: 'list'")))
    by (vm_compute; reflexivity).
  rewrite E in H. apply H.
  - vm_compute. reflexivity.
  - discriminate.
Defined.

(** ** Search *)

Section Search.
Context {P : Platform}.

(** X28. On a cached catalog a search is answered from the cache alone,
    whatever else the arguments hold (a [force] flag is ignored): it
    changes neither the caches nor the world, and it returns, in catalog
    order, exactly the catalog entries whose lower-cased name or description
    contains the lower-cased query. *)
Theorem search_on_cached_index (params : sdict value) (q : str)
  (st : ServerState) (w : World) (idx : list Summary) :
  sget (u "query") params = Some (VStr q) ->
  _index_cache st = Some idx ->
  exists keep,
    handle_search_components (VDict params) st w
    = (Ok (RSummaries (filter keep idx)), st, w) /\
    forall c, In c (filter keep idx) <->
              In c idx /\
              (contains (lower q) (lower (name c)) = true \/
               contains (lower q) (lower (description c)) = true).
Proof.
  intros Hq Hidx.
  exists (fun c => contains (lower q) (lower (name c))
                   || contains (lower q) (lower (description c))).
  split.
  - unfold handle_search_components, bind, lift, ret. rewrite Hq.
    cbn [value_lower]. unfold ensure_index. rewrite Hidx. reflexivity.
  - intros c. rewrite filter_In, orb_true_iff. reflexivity.
Qed.

End Search.

Lemma search_on_cached_index_witness :
  exists keep,
    @handle_search_components all_pages
      (VDict [(u "query", VStr (u "TAB")); (u "force", VBool true)])
      indexed [] = (Ok (RSummaries (filter keep demo_catalog)), indexed, []).
Proof.
  destruct (@search_on_cached_index all_pages
              [(u "query", VStr (u "TAB")); (u "force", VBool true)]
              (u "TAB") indexed [] demo_catalog)
    as (keep & Hres & _); [reflexivity | reflexivity |].
  exists keep. exact Hres.
Defined.

Lemma catalog_sound_distinct_complete_witness :
  exists e,
    In e (@merge all_pages [sample_short; sample_long]) /\
    @lower all_pages (name e) = @lower all_pages (name sample_short) /\
    dlen sample_short <= dlen e.
Proof.
  destruct (@catalog_sound_distinct_complete all_pages
              [sample_short; sample_long]) as (_ & _ & Hcomplete).
  apply (Hcomplete sample_short); [left; reflexivity|].
  vm_compute. reflexivity.
Defined.
